(** * Discovery-and-crawl engine: a shallow embedding

    The Python sources embedded here are [retry_utils.py],
    [connection_manager.py], [security_utils.py] (class [ThrottleManager]),
    [crawler_pool.py], [onion_database.py] and [enhanced_crawler.py].

    Conventions of the embedding.
    - Python numbers that hold seconds (delays, timestamps, response times)
      are exact rationals [Q]; equations between them are stated with [==].
    - The outside world is explicit: a [World] carries the wall clock, the
      replies the network is going to give, the values [random.random()] is
      going to return, and a chronological trace of the requests sent and of
      the calls to [time.sleep].
    - Python objects that are compared by identity ([requests.Session]) carry
      the identity they were allocated with.
    - A Python exception is the text [str(e)] of the exception. *)

From Stdlib Require Import ZArith QArith Qminmax Qpower Qabs Lqa Lia List String Ascii Permutation Sorted.
From stdpp Require Import base gmap strings list.

Open Scope Q_scope.

(** ** Rationals with boolean tests *)

Definition Qltb (a b : Q) : bool := negb (Qle_bool b a).

(** ** Results of calls that may raise *)

Inductive Result (A : Type) : Type :=
| Ok (a : A)
| Raise (msg : string).
Arguments Ok {A} a.
Arguments Raise {A} msg.

(** [raise last_exception] *)
Definition reraise {A} (last_exception : option string) : Result A :=
  match last_exception with
  | Some e => Raise e
  | None => Raise "exceptions must derive from BaseException"
  end.

(** ** The outside world *)

(** A [requests.Session] object: [sid] is the identity of the object,
    [via_tor] tells whether its [proxies] point at the SOCKS proxy. *)
Record Session := { sid : nat; via_tor : bool }.

(** What BeautifulSoup finds in a page: the text of the [<title>] tag when
    there is one, the [content] attribute of [<meta name="description">]
    when there is one, the visible text, and the [<a href=...>] tags in
    document order with their text. *)
Record Page := {
  pg_title : option string;
  pg_description : option string;
  pg_text : string;
  pg_anchors : list (string * string)
}.

(** An HTTP response. [is_tor] is the truth value of
    [response.json().get("IsTor", False)], or [None] when the body is not
    JSON and [response.json()] raises. [http_error] is the text of the
    [HTTPError] that [raise_for_status] raises for this response when the
    status asks for it. *)
Record Response := {
  status_code : Z;
  http_error : string;
  is_tor : option bool;
  page : Page;
  elapsed : Q
}.

(** The answer of the network to one request: no response at all (the
    request raises, after [after] seconds), or a response. *)
Inductive Reply :=
| Refused (err : string) (after : Q)
| Answered (r : Response).

Inductive Event :=
| EvRequest (s : Session) (method url : string)
| EvSleep (d : Q)
| EvTorInit (s : Session).

Record World := {
  w_now : Q;                (* time.time() *)
  w_net : nat -> Reply;     (* the reply to the k-th request sent *)
  w_sent : nat;             (* requests sent so far *)
  w_rand : nat -> Q;        (* the k-th value of random.random() *)
  w_drawn : nat;            (* values drawn so far *)
  w_fresh : nat;            (* next object identity *)
  w_trace : list Event      (* what happened, oldest first *)
}.

(** [time.sleep(d)] *)
Definition sleep (d : Q) (w : World) : World :=
  {| w_now := w_now w + d; w_net := w_net w; w_sent := w_sent w;
     w_rand := w_rand w; w_drawn := w_drawn w; w_fresh := w_fresh w;
     w_trace := w_trace w ++ [EvSleep d] |}.

(** [random.random()] *)
Definition random (w : World) : Q * World :=
  (w_rand w (w_drawn w),
   {| w_now := w_now w; w_net := w_net w; w_sent := w_sent w;
      w_rand := w_rand w; w_drawn := S (w_drawn w); w_fresh := w_fresh w;
      w_trace := w_trace w |}).

(** [random.uniform(a, b)] is [a + (b - a) * random()]. *)
Definition uniform (a b : Q) (w : World) : Q * World :=
  let '(r, w1) := random w in (a + (b - a) * r, w1).

(** [requests.Session()], with or without the SOCKS proxies. *)
Definition new_session (tor : bool) (w : World) : Session * World :=
  ({| sid := w_fresh w; via_tor := tor |},
   {| w_now := w_now w; w_net := w_net w; w_sent := w_sent w;
      w_rand := w_rand w; w_drawn := w_drawn w; w_fresh := S (w_fresh w);
      w_trace := w_trace w |}).

Definition reply_time (r : Reply) : Q :=
  match r with
  | Refused _ d => d
  | Answered resp => elapsed resp
  end.

(** [session.<method>(url, ...)]: the request is sent, the network answers,
    the clock has advanced by the time the answer took. *)
Definition send (s : Session) (method url : string) (w : World) : Reply * World :=
  let r := w_net w (w_sent w) in
  (r,
   {| w_now := w_now w + reply_time r; w_net := w_net w; w_sent := S (w_sent w);
      w_rand := w_rand w; w_drawn := w_drawn w; w_fresh := w_fresh w;
      w_trace := w_trace w ++ [EvRequest s method url] |}).

(** [response.raise_for_status()] raises for 4xx and 5xx. *)
Definition raise_for_status (r : Response) : Result Response :=
  if ((400 <=? status_code r) && (status_code r <? 600))%Z
  then Raise (http_error r) else Ok r.

(** The sleeps of a trace, in order. *)
Fixpoint sleeps (tr : list Event) : list Q :=
  match tr with
  | [] => []
  | EvSleep d :: tr' => d :: sleeps tr'
  | _ :: tr' => sleeps tr'
  end.

(** The sessions the requests of a trace were sent on, in order. *)
Fixpoint request_sessions (tr : list Event) : list Session :=
  match tr with
  | [] => []
  | EvRequest s _ _ :: tr' => s :: request_sessions tr'
  | _ :: tr' => request_sessions tr'
  end.

(** How many times the Tor session was replaced. *)
Fixpoint rotations (tr : list Event) : nat :=
  match tr with
  | [] => O
  | EvTorInit _ :: tr' => S (rotations tr')
  | _ :: tr' => rotations tr'
  end.

(** ** connection_manager.py *)

Module Connection.

Definition test_url : string := "https://check.torproject.org/api/ip".

Record ConnectionManager := {
  tor_enabled : bool;
  clearnet_fallback : bool;
  tor_session : option Session;
  clearnet_session : option Session;
  circuit_created_time : option Q;
  max_circuit_age : Q;
  request_count : Z;
  max_requests_per_circuit : Z
}.

Definition set_tor_session (s : option Session) (cm : ConnectionManager) :=
  {| tor_enabled := tor_enabled cm; clearnet_fallback := clearnet_fallback cm;
     tor_session := s; clearnet_session := clearnet_session cm;
     circuit_created_time := circuit_created_time cm;
     max_circuit_age := max_circuit_age cm;
     request_count := request_count cm;
     max_requests_per_circuit := max_requests_per_circuit cm |}.

Definition set_clearnet_session (s : option Session) (cm : ConnectionManager) :=
  {| tor_enabled := tor_enabled cm; clearnet_fallback := clearnet_fallback cm;
     tor_session := tor_session cm; clearnet_session := s;
     circuit_created_time := circuit_created_time cm;
     max_circuit_age := max_circuit_age cm;
     request_count := request_count cm;
     max_requests_per_circuit := max_requests_per_circuit cm |}.

(** [self.circuit_created_time = t; self.request_count = n] *)
Definition set_circuit (t : Q) (n : Z) (cm : ConnectionManager) :=
  {| tor_enabled := tor_enabled cm; clearnet_fallback := clearnet_fallback cm;
     tor_session := tor_session cm; clearnet_session := clearnet_session cm;
     circuit_created_time := Some t;
     max_circuit_age := max_circuit_age cm;
     request_count := n;
     max_requests_per_circuit := max_requests_per_circuit cm |}.

Definition set_request_count (n : Z) (cm : ConnectionManager) :=
  {| tor_enabled := tor_enabled cm; clearnet_fallback := clearnet_fallback cm;
     tor_session := tor_session cm; clearnet_session := clearnet_session cm;
     circuit_created_time := circuit_created_time cm;
     max_circuit_age := max_circuit_age cm;
     request_count := n;
     max_requests_per_circuit := max_requests_per_circuit cm |}.

(** [a == b] on two variables that hold a session or [None]:
    [requests.Session] defines no [__eq__], so this is object identity. *)
Definition same_object (a b : option Session) : bool :=
  match a, b with
  | Some x, Some y => Nat.eqb (sid x) (sid y)
  | None, None => true
  | _, _ => false
  end.

(** [_initialize_tor_session]: the old session is closed, a new proxied
    session takes its place, and the capability check decides the result.
    The circuit clock and the request counter restart only when the check
    confirms Tor routing. *)
Definition _initialize_tor_session (cm : ConnectionManager) (w : World)
  : bool * ConnectionManager * World :=
  let '(s, w1) := new_session true w in
  let cm1 := set_tor_session (Some s) cm in
  let w2 :=
    {| w_now := w_now w1; w_net := w_net w1; w_sent := w_sent w1;
       w_rand := w_rand w1; w_drawn := w_drawn w1; w_fresh := w_fresh w1;
       w_trace := w_trace w1 ++ [EvTorInit s] |} in
  let '(r, w3) := send s "get" test_url w2 in
  match r with
  | Answered resp =>
      if (status_code resp =? 200)%Z then
        match is_tor resp with
        | Some true => (true, set_circuit (w_now w3) 0 cm1, w3)
        | Some false => (false, cm1, w3)
        | None => (false, cm1, w3)
        end
      else (false, cm1, w3)
  | Refused _ _ => (false, cm1, w3)
  end.

Definition _get_clearnet_session (cm : ConnectionManager) (w : World)
  : option Session * ConnectionManager * World :=
  match clearnet_session cm with
  | None =>
      let '(s, w1) := new_session false w in
      (Some s, set_clearnet_session (Some s) cm, w1)
  | Some s => (Some s, cm, w)
  end.

Definition _should_rotate_circuit (cm : ConnectionManager) (w : World) : bool :=
  match circuit_created_time cm with
  | None => true
  | Some t0 =>
      let circuit_age := w_now w - t0 in
      if Qltb (max_circuit_age cm) circuit_age then true
      else if (max_requests_per_circuit cm <=? request_count cm)%Z then true
      else false
  end.

Definition is_none {A} (o : option A) : bool :=
  match o with None => true | Some _ => false end.

Definition get_session (force_clearnet : bool) (cm : ConnectionManager) (w : World)
  : option Session * ConnectionManager * World :=
  if force_clearnet || negb (tor_enabled cm) then _get_clearnet_session cm w
  else if is_none (tor_session cm) || _should_rotate_circuit cm w then
    let '(tor_success, cm1, w1) := _initialize_tor_session cm w in
    if negb tor_success && clearnet_fallback cm1 then _get_clearnet_session cm1 w1
    else (tor_session cm1, cm1, w1)
  else (tor_session cm, cm, w).

(** One pass through the [try] of [perform_request]. *)
Definition try_request (session : option Session) (method url : string) (w : World)
  : Result Response * World :=
  match session with
  | None => (Raise "'NoneType' object has no attribute", w)
  | Some s =>
      let '(r, w1) := send s method url w in
      match r with
      | Refused err _ => (Raise err, w1)
      | Answered resp => (raise_for_status resp, w1)
      end
  end.

(** The [for attempt in range(max_retries + 1)] loop of [perform_request];
    [todo] counts the iterations that remain. *)
Fixpoint request_loop (todo : nat) (attempt max_retries : Z) (method url : string)
    (session : option Session) (delay backoff_factor : Q)
    (last_exception : option string) (cm : ConnectionManager) (w : World)
  : Result Response * ConnectionManager * World :=
  match todo with
  | O => (reraise last_exception, cm, w)
  | S todo' =>
      match try_request session method url w with
      | (Ok resp, w1) => (Ok resp, cm, w1)
      | (Raise e, w1) =>
          if (attempt <? max_retries)%Z then
            let w2 := sleep delay w1 in
            let delay' := delay * backoff_factor in
            if same_object session (tor_session cm) && (1 <=? attempt)%Z then
              let '(_, cm3, w3) := _initialize_tor_session cm w2 in
              if (2 <=? attempt)%Z && clearnet_fallback cm3 then
                let '(session', cm4, w4) := _get_clearnet_session cm3 w3 in
                request_loop todo' (attempt + 1)%Z max_retries method url
                  session' delay' backoff_factor (Some e) cm4 w4
              else
                request_loop todo' (attempt + 1)%Z max_retries method url
                  session delay' backoff_factor (Some e) cm3 w3
            else
              request_loop todo' (attempt + 1)%Z max_retries method url
                session delay' backoff_factor (Some e) cm w2
          else
            request_loop todo' (attempt + 1)%Z max_retries method url
              session delay backoff_factor (Some e) cm w1
      end
  end.

(** [perform_request(method, url, force_clearnet=..., max_retries=...,
    initial_delay=..., backoff_factor=...)]; the defaults of the keyword
    arguments are [False], [3], [1] and [2]. *)
Definition perform_request (method url : string) (force_clearnet : bool)
    (max_retries : Z) (initial_delay backoff_factor : Q)
    (cm : ConnectionManager) (w : World)
  : Result Response * ConnectionManager * World :=
  let '(session, cm1, w1) := get_session force_clearnet cm w in
  let cm2 :=
    if same_object session (tor_session cm1)
    then set_request_count (request_count cm1 + 1)%Z cm1 else cm1 in
  request_loop (Z.to_nat (max_retries + 1)) 0%Z max_retries method url
    session initial_delay backoff_factor None cm2 w1.

(** [close()]: both sessions are closed and forgotten; the circuit clock
    and the request counter keep their values. *)
Definition close (cm : ConnectionManager) : ConnectionManager :=
  set_clearnet_session None (set_tor_session None cm).

End Connection.

(** ** retry_utils.py *)

Module Retry.

Section RetryOperation.

(** The operation retried acts on some state [S] that contains the world. *)
Variables (S A : Type).
Variable get_world : S -> World.
Variable put_world : World -> S -> S.
Variable function : S -> Result A * S.

(** The [for attempt in range(max_retries + 1)] loop of
    [retry_operation]; [todo] counts the iterations that remain. *)
Fixpoint retry_loop (todo : nat) (attempt max_retries : Z)
    (delay backoff_factor : Q) (last_exception : option string) (s : S)
  : Result A * S :=
  match todo with
  | O => (reraise last_exception, s)
  | Datatypes.S todo' =>
      match function s with
      | (Ok a, s1) => (Ok a, s1)
      | (Raise e, s1) =>
          if (attempt <? max_retries)%Z then
            let '(jitter, w1) := uniform 0 (1 # 2) (get_world s1) in
            let sleep_time := delay + jitter in
            let s2 := put_world (sleep sleep_time w1) s1 in
            retry_loop todo' (attempt + 1)%Z max_retries
              (delay * backoff_factor) backoff_factor (Some e) s2
          else
            retry_loop todo' (attempt + 1)%Z max_retries
              delay backoff_factor (Some e) s1
      end
  end.

(** [retry_operation(function, max_retries=3, initial_delay=1,
    backoff_factor=2)] *)
Definition retry_operation (max_retries : Z) (initial_delay backoff_factor : Q)
    (s : S) : Result A * S :=
  retry_loop (Z.to_nat (max_retries + 1)) 0%Z max_retries
    initial_delay backoff_factor None s.

End RetryOperation.

Section RetryWithBackoff.

(** The decorated function takes its arguments [args] and acts on a state
    that contains the world. *)
Variables (S Args A : Type).
Variable get_world : S -> World.
Variable put_world : World -> S -> S.
Variable func : Args -> S -> Result A * S.

(** The loop of [wrapper], the function the decorator returns; [args]
    stands for its positional and keyword arguments. *)
Fixpoint wrapper_loop (todo : nat) (attempt max_retries : Z)
    (delay backoff_factor : Q) (last_exception : option string)
    (args : Args) (s : S) : Result A * S :=
  match todo with
  | O => (reraise last_exception, s)
  | Datatypes.S todo' =>
      match func args s with
      | (Ok a, s1) => (Ok a, s1)
      | (Raise e, s1) =>
          if (attempt <? max_retries)%Z then
            let '(jitter, w1) := uniform 0 (1 # 2) (get_world s1) in
            let sleep_time := delay + jitter in
            let s2 := put_world (sleep sleep_time w1) s1 in
            wrapper_loop todo' (attempt + 1)%Z max_retries
              (delay * backoff_factor) backoff_factor (Some e) args s2
          else
            wrapper_loop todo' (attempt + 1)%Z max_retries
              delay backoff_factor (Some e) args s1
      end
  end.

(** [retry_with_backoff(max_retries=3, initial_delay=1,
    backoff_factor=2)(func)] *)
Definition retry_with_backoff (max_retries : Z) (initial_delay backoff_factor : Q)
    (args : Args) (s : S) : Result A * S :=
  wrapper_loop (Z.to_nat (max_retries + 1)) 0%Z max_retries
    initial_delay backoff_factor None args s.

End RetryWithBackoff.

End Retry.

(** ** security_utils.py: class ThrottleManager *)

Module Throttle.

Record DomainStats := {
  requests : nat;
  errors : nat;
  response_times : list Q;
  status_codes : list Z;
  last_error : option Q;
  consecutive_errors : nat
}.

Record ThrottleManager := {
  base_delay : Q;
  response_factor : Q;
  error_backoff : Q;
  max_delay : Q;
  jitter : Q;
  domain_stats : gmap string DomainStats;
  last_request_time : gmap string Q
}.

(** [l[-n:]] for a positive [n] *)
Definition last_n {A} (n : nat) (l : list A) : list A :=
  skipn (length l - n) l.

(** [sum(l)] *)
Definition sum (l : list Q) : Q := fold_left Qplus l 0.

(** [any(code >= 500 for code in codes)] and [any(code == 429 ...)] *)
Definition any_server_error (codes : list Z) : bool :=
  existsb (fun code => (500 <=? code)%Z) codes.
Definition any_rate_limited (codes : list Z) : bool :=
  existsb (fun code => (code =? 429)%Z) codes.

Definition nonempty {A} (l : list A) : bool :=
  match l with [] => false | _ :: _ => true end.

(** [_apply_jitter(delay)] *)
Definition _apply_jitter (tm : ThrottleManager) (delay : Q) (w : World) : Q * World :=
  let jitter_amount := delay * jitter tm in
  let '(u, w1) := uniform (- jitter_amount) jitter_amount w in
  (delay + u, w1).

(** The delay [get_delay] has computed when it reaches [_apply_jitter],
    for a domain that has statistics. *)
Definition delay_before_jitter (tm : ThrottleManager) (stats : DomainStats) : Q :=
  let delay := base_delay tm in
  let delay :=
    if nonempty (response_times stats) then
      let avg_response_time :=
        sum (response_times stats) / inject_Z (Z.of_nat (length (response_times stats))) in
      Qmax delay (avg_response_time * response_factor tm)
    else delay in
  let delay :=
    if (0 <? consecutive_errors stats)%nat then
      delay * Qpower (error_backoff tm) (Z.of_nat (Nat.min (consecutive_errors stats) 3))
    else delay in
  let delay :=
    if nonempty (status_codes stats) && any_server_error (last_n 3 (status_codes stats))
    then delay * (3 # 2) else delay in
  let delay :=
    if nonempty (status_codes stats) && any_rate_limited (last_n 5 (status_codes stats))
    then delay * 2 else delay in
  Qmin delay (max_delay tm).

Section WithUrlparse.

(** [urlparse(url).netloc] of the standard library *)
Variable netloc : string -> string.

Definition _extract_domain (url : string) : string := netloc url.

Definition get_delay (tm : ThrottleManager) (url : string) (w : World) : Q * World :=
  let domain := _extract_domain url in
  match domain_stats tm !! domain with
  | None => _apply_jitter tm (base_delay tm) w
  | Some stats => _apply_jitter tm (delay_before_jitter tm stats) w
  end.

Definition new_stats : DomainStats :=
  {| requests := 0; errors := 0; response_times := []; status_codes := [];
     last_error := None; consecutive_errors := 0 |}.

(** [record_request(url, response_time=None, status_code=None, error=False)] *)
Definition record_request (tm : ThrottleManager) (url : string)
    (response_time : option Q) (status_code : option Z) (error : bool)
    (w : World) : ThrottleManager :=
  let domain := _extract_domain url in
  let stats := default new_stats (domain_stats tm !! domain) in
  let times :=
    match response_time with
    | Some t =>
        let l := response_times stats ++ [t] in
        if (10 <? length l)%nat then last_n 10 l else l
    | None => response_times stats
    end in
  let codes :=
    match status_code with
    | Some c =>
        let l := status_codes stats ++ [c] in
        if (20 <? length l)%nat then last_n 20 l else l
    | None => status_codes stats
    end in
  let stats' :=
    {| requests := Datatypes.S (requests stats);
       errors := if error then Datatypes.S (errors stats) else errors stats;
       response_times := times;
       status_codes := codes;
       last_error := if error then Some (w_now w) else last_error stats;
       consecutive_errors :=
         if error then Datatypes.S (consecutive_errors stats) else O |} in
  {| base_delay := base_delay tm; response_factor := response_factor tm;
     error_backoff := error_backoff tm; max_delay := max_delay tm;
     jitter := jitter tm;
     domain_stats := <[domain := stats']> (domain_stats tm);
     last_request_time := <[domain := w_now w]> (last_request_time tm) |}.

(** [wait_if_needed(url)] *)
Definition wait_if_needed (tm : ThrottleManager) (url : string) (w : World) : World :=
  let domain := _extract_domain url in
  match last_request_time tm !! domain with
  | Some last =>
      let elapsed := w_now w - last in
      let '(delay, w1) := get_delay tm url w in
      if Qltb elapsed delay then
        let wait_time := delay - elapsed in
        sleep wait_time w1
      else w1
  | None => w
  end.

End WithUrlparse.



End Throttle.

(** ** onion_database.py

    The two tables of the SQLite database are lists of rows in rowid order.
    Every column carries the type of the values the writers of this
    repository store in it: text columns are strings, [last_checked] and
    [crawl_date] always receive [datetime.now().isoformat()] and are the
    instant read from the clock (the ISO text of one layout orders as its
    instant does), [tags] and [metadata] are the values whose [json.dumps]
    text is stored.

    The connection is opened by [sqlite3.connect(self.db_path)] and so
    belongs to the thread that opened it: the engine refuses a statement
    of any other thread with [sqlite3.ProgrammingError], a
    [sqlite3.Error]. [same_thread] tells whether the thread that is
    running is the one that opened the connection. The writers, which the
    crawler also calls from the worker threads of its pool, take their
    [except sqlite3.Error] branch when it is not; this is the one fault of
    the engine that is modelled. The readers are called by the engine on
    the thread of the connection only, and are modelled there. *)

Module Database.

Inductive Json :=
| JStr (s : string)
| JNum (q : Q)
| JBool (b : bool)
| JTime (t : Q).

Record LinkRecord := {
  id : Z;
  url : string;
  title : string;
  description : string;
  category : string;
  content_preview : string;
  last_checked : Q;
  status : string;
  discovery_source : string;
  trust_score : Q;
  tags : list string;
  metadata : list (string * Json)
}.

Record CrawlHistoryEntry := {
  onion_id : Z;
  crawl_date : Q;
  outcome : string;
  response_time : option Q;
  error_message : option string
}.

Record OnionLinkDatabase := {
  onion_links : list LinkRecord;
  crawl_history : list CrawlHistoryEntry;
  same_thread : bool
}.

(** The database as the thread that runs sees it: [own] tells whether
    that thread opened the connection. *)
Definition on_thread (own : bool) (db : OnionLinkDatabase) : OnionLinkDatabase :=
  {| onion_links := onion_links db; crawl_history := crawl_history db;
     same_thread := own |}.

(** The keyword arguments of [update_link]: one optional value per column
    that the [SET] clause may name. *)
Record LinkPatch := {
  p_title : option string;
  p_description : option string;
  p_category : option string;
  p_content_preview : option string;
  p_last_checked : option Q;
  p_status : option string;
  p_discovery_source : option string;
  p_trust_score : option Q;
  p_tags : option (list string);
  p_metadata : option (list (string * Json))
}.

Definition no_patch : LinkPatch :=
  {| p_title := None; p_description := None; p_category := None;
     p_content_preview := None; p_last_checked := None; p_status := None;
     p_discovery_source := None; p_trust_score := None; p_tags := None;
     p_metadata := None |}.

(** [SELECT ... FROM onion_links WHERE url=?], first row *)
Definition find_link (u : string) (db : OnionLinkDatabase) : option LinkRecord :=
  List.find (fun r => String.eqb (url r) u) (onion_links db).

(** The rowid SQLite gives to the next inserted row: one more than the
    largest rowid in the table. *)
Definition next_rowid (rows : list LinkRecord) : Z :=
  (fold_right Z.max 0 (List.map id rows) + 1)%Z.

(** [add_link(url, title, description, category, content_preview,
    discovery_source, tags, metadata)]: [INSERT OR IGNORE], the [url]
    column being [UNIQUE]; [False] and no change when the engine refuses
    the statement. *)
Definition add_link (u ttl descr cat preview source : string)
    (tgs : option (list string)) (meta : option (list (string * Json)))
    (now : Q) (db : OnionLinkDatabase) : bool * OnionLinkDatabase :=
  if negb (same_thread db) then (false, db)
  else
  match find_link u db with
  | Some _ => (false, db)
  | None =>
      let row :=
        {| id := next_rowid (onion_links db); url := u; title := ttl;
           description := descr; category := cat; content_preview := preview;
           last_checked := now; status := "new"; discovery_source := source;
           trust_score := 0; tags := default [] tgs; metadata := default [] meta |} in
      (true, {| onion_links := onion_links db ++ [row];
                crawl_history := crawl_history db;
                same_thread := same_thread db |})
  end.

(** The [SET] clause of [update_link] applied to one row: the columns the
    keyword arguments name, and [last_checked], which the method always
    overwrites with the current time. *)
Definition apply_patch (p : LinkPatch) (now : Q) (r : LinkRecord) : LinkRecord :=
  {| id := id r;
     url := url r;
     title := default (title r) (p_title p);
     description := default (description r) (p_description p);
     category := default (category r) (p_category p);
     content_preview := default (content_preview r) (p_content_preview p);
     last_checked := now;
     status := default (status r) (p_status p);
     discovery_source := default (discovery_source r) (p_discovery_source p);
     trust_score := default (trust_score r) (p_trust_score p);
     tags := default (tags r) (p_tags p);
     metadata := default (metadata r) (p_metadata p) |}.

(** [UPDATE onion_links SET ... WHERE url=?] and its [rowcount] *)
Fixpoint update_rows (u : string) (p : LinkPatch) (now : Q) (rows : list LinkRecord)
  : nat * list LinkRecord :=
  match rows with
  | [] => (O, [])
  | r :: rows' =>
      let '(n, rows'') := update_rows u p now rows' in
      if String.eqb (url r) u then (S n, apply_patch p now r :: rows'')
      else (n, r :: rows'')
  end.

(** [update_link(url, **kwargs)]; [False] and no change when the engine
    refuses the statement. *)
Definition update_link (u : string) (kwargs : LinkPatch) (now : Q)
    (db : OnionLinkDatabase) : bool * OnionLinkDatabase :=
  if negb (same_thread db) then (false, db)
  else
  let '(rowcount, rows) := update_rows u kwargs now (onion_links db) in
  ((0 <? rowcount)%nat,
   {| onion_links := rows; crawl_history := crawl_history db;
      same_thread := same_thread db |}).

(** [update_link_status(url, status, title=None, description=None,
    content_preview=None)] *)
Definition update_link_status (u st : string)
    (ttl descr preview : option string) (now : Q) (db : OnionLinkDatabase)
  : bool * OnionLinkDatabase :=
  update_link u
    {| p_title := ttl; p_description := descr; p_category := None;
       p_content_preview := preview; p_last_checked := None;
       p_status := Some st; p_discovery_source := None;
       p_trust_score := None; p_tags := None; p_metadata := None |}
    now db.

(** [add_crawl_history(url, status, response_time=None, error_message=None)];
    [False] and no change when the engine refuses the statement. *)
Definition add_crawl_history (u st : string) (rt : option Q)
    (err : option string) (now : Q) (db : OnionLinkDatabase)
  : bool * OnionLinkDatabase :=
  if negb (same_thread db) then (false, db)
  else
  match find_link u db with
  | None => (false, db)
  | Some r =>
      (true,
       {| onion_links := onion_links db;
          crawl_history := crawl_history db ++
            [{| onion_id := id r; crawl_date := now; outcome := st;
                response_time := rt; error_message := err |}];
          same_thread := same_thread db |})
  end.

(** [blacklist_link(url, reason)] *)
Definition blacklist_link (u reason : string) (now : Q) (db : OnionLinkDatabase)
  : bool * OnionLinkDatabase :=
  update_link u
    {| p_title := None; p_description := None; p_category := None;
       p_content_preview := None; p_last_checked := None;
       p_status := Some "blacklisted"; p_discovery_source := None;
       p_trust_score := None; p_tags := None;
       p_metadata := Some [("blacklist_reason", JStr reason);
                           ("blacklist_date", JTime now)] |}
    now db.

(** [ORDER BY]: a stable insertion sort; [before a b] tells that [a] sorts
    strictly before [b]. Rows that the ordering does not separate stay in
    rowid order. *)
Fixpoint insert_by {A} (before : A -> A -> bool) (x : A) (sorted : list A) : list A :=
  match sorted with
  | [] => [x]
  | y :: rest =>
      if before y x then y :: insert_by before x rest else x :: y :: rest
  end.

Definition order_by {A} (before : A -> A -> bool) (l : list A) : list A :=
  fold_right (insert_by before) [] l.

(** [LIMIT ? OFFSET ?]: a negative limit is no limit, a negative offset is
    no offset. *)
Definition limit_offset {A} (limit offset : Z) (l : list A) : list A :=
  let l := skipn (Z.to_nat offset) l in
  if (limit <? 0)%Z then l else firstn (Z.to_nat limit) l.

(** [ORDER BY trust_score DESC, last_checked DESC] *)
Definition by_trust_then_recent (a b : LinkRecord) : bool :=
  Qltb (trust_score b) (trust_score a)
  || (Qeq_bool (trust_score a) (trust_score b)
      && Qltb (last_checked b) (last_checked a)).

(** [ORDER BY last_checked ASC, trust_score DESC] *)
Definition by_oldest_then_trust (a b : LinkRecord) : bool :=
  Qltb (last_checked a) (last_checked b)
  || (Qeq_bool (last_checked a) (last_checked b)
      && Qltb (trust_score b) (trust_score a)).

(** [ORDER BY id DESC] *)
Definition by_id_desc (a b : LinkRecord) : bool := (id b <? id a)%Z.

(** [get_links_by_category(category, limit=50, offset=0)] *)
Definition get_links_by_category (cat : string) (limit offset : Z)
    (db : OnionLinkDatabase) : list LinkRecord :=
  limit_offset limit offset
    (order_by by_trust_then_recent
       (List.filter (fun r => String.eqb (category r) cat) (onion_links db))).

(** A Python number used as a condition *)
Definition truthy (h : option Q) : bool :=
  match h with
  | None => false
  | Some q => negb (Qeq_bool q 0)
  end.

(** The [WHERE] clause of [get_unchecked_links] when [older_than_hours]
    is given. *)
Definition needs_crawl (cutoff_time : Q) (r : LinkRecord) : bool :=
  String.eqb (status r) "new"
  || (Qltb (last_checked r) cutoff_time
      && negb (String.eqb (status r) "blacklisted")).

(** [get_unchecked_links(limit=20, older_than_hours=None)] *)
Definition get_unchecked_links (limit : Z) (older_than_hours : option Q)
    (now : Q) (db : OnionLinkDatabase) : list string :=
  if truthy older_than_hours then
    let cutoff_time := now - default 0 older_than_hours * 3600 in
    List.map url
      (limit_offset limit 0
         (order_by by_oldest_then_trust
            (List.filter (needs_crawl cutoff_time) (onion_links db))))
  else
    List.map url
      (limit_offset limit 0
         (order_by by_id_desc
            (List.filter (fun r => String.eqb (status r) "new") (onion_links db)))).

(** [ORDER BY trust_score DESC, last_checked ASC] *)
Definition by_trust_then_oldest (a b : LinkRecord) : bool :=
  Qltb (trust_score b) (trust_score a)
  || (Qeq_bool (trust_score a) (trust_score b)
      && Qltb (last_checked a) (last_checked b)).

(** [get_links_by_status(status, limit=50, offset=0)] *)
Definition get_links_by_status (st : string) (limit offset : Z)
    (db : OnionLinkDatabase) : list LinkRecord :=
  limit_offset limit offset
    (order_by by_trust_then_oldest
       (List.filter (fun r => String.eqb (status r) st) (onion_links db))).





End Database.

(** ** Python dictionaries that are iterated

    A dictionary keeps its keys in insertion order; assigning to a key that
    is present replaces the value in place. *)

Fixpoint dict_set {V} (k : string) (v : V) (d : list (string * V)) : list (string * V) :=
  match d with
  | [] => [(k, v)]
  | (k', v') :: d' =>
      if String.eqb k' k then (k', v) :: d' else (k', v') :: dict_set k v d'
  end.

Fixpoint dict_get {V} (k : string) (d : list (string * V)) : option V :=
  match d with
  | [] => None
  | (k', v') :: d' => if String.eqb k' k then Some v' else dict_get k d'
  end.

(** ** The dictionary a crawl returns

    The keys [url], [content], [links] and [errors] are always present; the
    others are present in the dictionaries of some producers only, and are
    options here. *)

Record CrawlResult := {
  cr_url : string;
  cr_content : string;
  cr_links : list string;
  cr_errors : list string;
  cr_title : option string;
  cr_response_time : option Q;
  cr_description : option string;
  cr_was_filtered : option bool;
  cr_filter_reason : option string;
  cr_from_clearnet : option bool
}.

(** ** crawler_pool.py *)

Module Pool.

Record CrawlerPool := {
  max_workers : Z;
  rate_limit : Q;
  domain_last_crawl : gmap string Q;
  active : bool
}.

Definition set_last_crawl (domain : string) (t : Q) (p : CrawlerPool) : CrawlerPool :=
  {| max_workers := max_workers p; rate_limit := rate_limit p;
     domain_last_crawl := <[domain := t]> (domain_last_crawl p);
     active := active p |}.

(** The dictionary with the keys [url], [content], [links] and [errors]
    only: empty content, no links, one error. *)
Definition error_entry (u msg : string) : CrawlResult :=
  {| cr_url := u; cr_content := EmptyString; cr_links := []; cr_errors := [msg];
     cr_title := None; cr_response_time := None; cr_description := None;
     cr_was_filtered := None; cr_filter_reason := None; cr_from_clearnet := None |}.

(** [s.split('/')[0]] *)
Fixpoint first_segment (s : string) : string :=
  match s with
  | EmptyString => EmptyString
  | String c s' =>
      if Ascii.eqb c "/"%char then EmptyString else String c (first_segment s')
  end.

Definition is_empty (s : string) : bool :=
  match s with EmptyString => true | _ => false end.

(** The block under [with self.domain_lock:] in [_rate_limited_crawl]: one
    lock for the whole pool, held while the thread sleeps. *)
Definition throttle (domain : string) (p : CrawlerPool) (w : World)
  : CrawlerPool * World :=
  let now := w_now w in
  let last_crawl := default 0 (domain_last_crawl p !! domain) in
  let delay_needed := Qmax 0 (rate_limit p - (now - last_crawl)) in
  let w1 :=
    if Qltb 0 delay_needed then
      let '(jitter, w') := uniform 0 (1 # 2) w in
      sleep (delay_needed + jitter) w'
    else w in
  (set_last_crawl domain (w_now w1) p, w1).

(** What [crawl_batch] stores for a future: its result, or the dictionary
    built from the exception it raised. *)
Definition entry_of (u : string) (outcome : Result CrawlResult) : CrawlResult :=
  match outcome with
  | Ok r => r
  | Raise e => error_entry u e
  end.

(** The loop over [as_completed(future_to_url)]: [completed] lists the
    futures in the order they complete, each with its URL. *)
Definition gather (completed : list (string * Result CrawlResult))
  : list (string * CrawlResult) :=
  fold_left (fun results '(u, outcome) => dict_set u (entry_of u outcome) results)
    completed [].

Section WithUrlparse.

(** [urlparse(url).netloc] and [urlparse(url).path] *)
Variables netloc path : string -> string.

Definition _extract_domain (u : string) : string :=
  let domain := netloc u in
  if is_empty domain && negb (is_empty (path u))
  then first_segment (path u) else domain.

Section WithCrawler.

(** The crawler the pool works for owns the pool: [C] is the state of
    the crawler, [crawl] is
    [lambda url: crawler.crawl_onion(url, max_depth=max_depth)] as a
    worker thread of the executor runs it; it returns a dictionary or
    raises. *)
Variable C : Type.
Variable get_pool : C -> CrawlerPool.
Variable put_pool : CrawlerPool -> C -> C.
Variable crawl : string -> C -> World -> Result CrawlResult * C * World.

(** [_rate_limited_crawl(crawler, url, max_depth)]: what the crawl returns
    is returned, what it raises is raised. *)
Definition _rate_limited_crawl (u : string) (c : C) (w : World)
  : Result CrawlResult * C * World :=
  if negb (active (get_pool c)) then
    (Ok (error_entry u "Crawler pool shutdown"), c, w)
  else
    let domain := _extract_domain u in
    let '(p1, w1) := throttle domain (get_pool c) w in
    crawl u (put_pool p1 c) w1.

(** The tasks of a batch run one after the other, in the order they
    were submitted: one of the schedules of the thread pool. *)
Fixpoint run_tasks (urls : list string) (c : C) (w : World)
  : list (string * Result CrawlResult) * C * World :=
  match urls with
  | [] => ([], c, w)
  | u :: urls' =>
      let '(outcome, c1, w1) := _rate_limited_crawl u c w in
      let '(rest, c2, w2) := run_tasks urls' c1 w1 in
      ((u, outcome) :: rest, c2, w2)
  end.

(** [crawl_batch(crawler, urls, max_depth)] under that schedule *)
Definition crawl_batch (urls : list string) (c : C) (w : World)
  : list (string * CrawlResult) * C * World :=
  match urls with
  | [] => ([], c, w)
  | _ =>
      let '(completed, c1, w1) := run_tasks urls c w in
      (gather completed, c1, w1)
  end.

End WithCrawler.

(** The lock serialises the throttle blocks of concurrent tasks. A task
    reaches the lock at [arrival]; it enters the block when the lock is
    free, that is when every task before it in the order of acquisition
    has left it. The result lists, for each task, the instant it leaves
    the block. *)
Fixpoint throttle_all (tasks : list (Q * string)) (p : CrawlerPool) (w : World)
  : list Q * CrawlerPool * World :=
  match tasks with
  | [] => ([], p, w)
  | (arrival, u) :: tasks' =>
      let w0 :=
        {| w_now := Qmax (w_now w) arrival; w_net := w_net w; w_sent := w_sent w;
           w_rand := w_rand w; w_drawn := w_drawn w; w_fresh := w_fresh w;
           w_trace := w_trace w |} in
      let '(p1, w1) := throttle (_extract_domain u) p w0 in
      let '(rest, p2, w2) := throttle_all tasks' p1 w1 in
      (w_now w1 :: rest, p2, w2)
  end.

End WithUrlparse.

(** [shutdown()] *)
Definition shutdown (p : CrawlerPool) : CrawlerPool :=
  {| max_workers := max_workers p; rate_limit := rate_limit p;
     domain_last_crawl := domain_last_crawl p; active := false |}.

End Pool.

(** ** enhanced_crawler.py *)

Module Crawler.

(** The attributes of [Config] the crawler reads; [defaults] holds the
    values of config.py. *)
Record Config := {
  CRAWL_DELAY_MIN : Q;
  CRAWL_DELAY_MAX : Q;
  LINK_LIMIT_PER_PAGE : nat;
  DISCOVERY_SITES_LIMIT : Z;
  SEARCH_ENGINES_LIMIT : Z;
  BATCH_CRAWL_SIZE : Z;
  RECRAWL_HOURS : Q;
  CLEARNET_FALLBACK_ENABLED : bool;
  MAX_RETRIES : Z;
  RETRY_INITIAL_DELAY : Q;
  RETRY_BACKOFF_FACTOR : Q;
  CONTENT_PREVIEW_MAX_LENGTH : nat
}.

Definition defaults : Config :=
  {| CRAWL_DELAY_MIN := 2; CRAWL_DELAY_MAX := 5; LINK_LIMIT_PER_PAGE := 5;
     DISCOVERY_SITES_LIMIT := 5; SEARCH_ENGINES_LIMIT := 3;
     BATCH_CRAWL_SIZE := 15; RECRAWL_HOURS := 24;
     CLEARNET_FALLBACK_ENABLED := true; MAX_RETRIES := 3;
     RETRY_INITIAL_DELAY := 1; RETRY_BACKOFF_FACTOR := 2;
     CONTENT_PREVIEW_MAX_LENGTH := 500 |}.

(** The clearnet search provider ([clearnet_search.TavilySearch]) at its
    interface. *)
Record SearchHit := { hit_url : string; hit_title : string; hit_content : string }.

Record TavilySearch := {
  extract_search_terms : string -> string;
  search : string -> list SearchHit
}.

Record EnhancedTorCrawler := {
  link_db : Database.OnionLinkDatabase;
  connection_manager : Connection.ConnectionManager;
  session : option Session;
  parallel_enabled : bool;
  crawler_pool : Pool.CrawlerPool;
  tavily_search : option TavilySearch;
  error_count : Z;
  max_consecutive_errors : Z
}.

Definition set_link_db (db : Database.OnionLinkDatabase) (c : EnhancedTorCrawler) :=
  {| link_db := db; connection_manager := connection_manager c;
     session := session c; parallel_enabled := parallel_enabled c;
     crawler_pool := crawler_pool c; tavily_search := tavily_search c;
     error_count := error_count c;
     max_consecutive_errors := max_consecutive_errors c |}.

Definition set_connection_manager (cm : Connection.ConnectionManager)
    (c : EnhancedTorCrawler) :=
  {| link_db := link_db c; connection_manager := cm;
     session := session c; parallel_enabled := parallel_enabled c;
     crawler_pool := crawler_pool c; tavily_search := tavily_search c;
     error_count := error_count c;
     max_consecutive_errors := max_consecutive_errors c |}.

Definition set_session (s : option Session) (c : EnhancedTorCrawler) :=
  {| link_db := link_db c; connection_manager := connection_manager c;
     session := s; parallel_enabled := parallel_enabled c;
     crawler_pool := crawler_pool c; tavily_search := tavily_search c;
     error_count := error_count c;
     max_consecutive_errors := max_consecutive_errors c |}.

Definition set_crawler_pool (p : Pool.CrawlerPool) (c : EnhancedTorCrawler) :=
  {| link_db := link_db c; connection_manager := connection_manager c;
     session := session c; parallel_enabled := parallel_enabled c;
     crawler_pool := p; tavily_search := tavily_search c;
     error_count := error_count c;
     max_consecutive_errors := max_consecutive_errors c |}.

Definition set_error_count (n : Z) (c : EnhancedTorCrawler) :=
  {| link_db := link_db c; connection_manager := connection_manager c;
     session := session c; parallel_enabled := parallel_enabled c;
     crawler_pool := crawler_pool c; tavily_search := tavily_search c;
     error_count := n;
     max_consecutive_errors := max_consecutive_errors c |}.

(** *** Updates of the dictionary [crawled_data] *)

Definition new_crawled_data (u : string) : CrawlResult :=
  {| cr_url := u; cr_content := EmptyString; cr_links := []; cr_errors := [];
     cr_title := Some EmptyString; cr_response_time := Some 0;
     cr_description := None; cr_was_filtered := None;
     cr_filter_reason := None; cr_from_clearnet := None |}.

Definition set_content (s : string) (d : CrawlResult) : CrawlResult :=
  {| cr_url := cr_url d; cr_content := s; cr_links := cr_links d;
     cr_errors := cr_errors d; cr_title := cr_title d;
     cr_response_time := cr_response_time d;
     cr_description := cr_description d;
     cr_was_filtered := cr_was_filtered d;
     cr_filter_reason := cr_filter_reason d;
     cr_from_clearnet := cr_from_clearnet d |}.

Definition set_links (l : list string) (d : CrawlResult) : CrawlResult :=
  {| cr_url := cr_url d; cr_content := cr_content d; cr_links := l;
     cr_errors := cr_errors d; cr_title := cr_title d;
     cr_response_time := cr_response_time d;
     cr_description := cr_description d;
     cr_was_filtered := cr_was_filtered d;
     cr_filter_reason := cr_filter_reason d;
     cr_from_clearnet := cr_from_clearnet d |}.

Definition set_errors (l : list string) (d : CrawlResult) : CrawlResult :=
  {| cr_url := cr_url d; cr_content := cr_content d; cr_links := cr_links d;
     cr_errors := l; cr_title := cr_title d;
     cr_response_time := cr_response_time d;
     cr_description := cr_description d;
     cr_was_filtered := cr_was_filtered d;
     cr_filter_reason := cr_filter_reason d;
     cr_from_clearnet := cr_from_clearnet d |}.

Definition set_title (t : string) (d : CrawlResult) : CrawlResult :=
  {| cr_url := cr_url d; cr_content := cr_content d; cr_links := cr_links d;
     cr_errors := cr_errors d; cr_title := Some t;
     cr_response_time := cr_response_time d;
     cr_description := cr_description d;
     cr_was_filtered := cr_was_filtered d;
     cr_filter_reason := cr_filter_reason d;
     cr_from_clearnet := cr_from_clearnet d |}.

Definition set_response_time (t : Q) (d : CrawlResult) : CrawlResult :=
  {| cr_url := cr_url d; cr_content := cr_content d; cr_links := cr_links d;
     cr_errors := cr_errors d; cr_title := cr_title d;
     cr_response_time := Some t;
     cr_description := cr_description d;
     cr_was_filtered := cr_was_filtered d;
     cr_filter_reason := cr_filter_reason d;
     cr_from_clearnet := cr_from_clearnet d |}.

Definition set_description (t : string) (d : CrawlResult) : CrawlResult :=
  {| cr_url := cr_url d; cr_content := cr_content d; cr_links := cr_links d;
     cr_errors := cr_errors d; cr_title := cr_title d;
     cr_response_time := cr_response_time d;
     cr_description := Some t;
     cr_was_filtered := cr_was_filtered d;
     cr_filter_reason := cr_filter_reason d;
     cr_from_clearnet := cr_from_clearnet d |}.

(** *** Statements of a [try] block

    A statement acts on the local dictionary [crawled_data], on the crawler
    and on the world, and either completes or raises; what it changed
    before raising stays changed. *)

Record Frame := {
  crawled_data : CrawlResult;
  self : EnhancedTorCrawler;
  world : World
}.

Definition Try (A : Type) : Type := Frame -> Result A * Frame.

Definition ret {A} (a : A) : Try A := fun f => (Ok a, f).

Definition throw {A} (msg : string) : Try A := fun f => (Raise msg, f).

Definition bind {A B} (m : Try A) (k : A -> Try B) : Try B :=
  fun f =>
    match m f with
    | (Ok a, f1) => k a f1
    | (Raise e, f1) => (Raise e, f1)
    end.

Declare Scope try_scope.
Delimit Scope try_scope with try.
Notation "x <- m ;; k" := (bind m (fun x => k))
  (at level 100, m at next level, right associativity) : try_scope.
Notation "m ;; k" := (bind m (fun _ => k))
  (at level 100, right associativity) : try_scope.

Definition update_data (g : CrawlResult -> CrawlResult) : Try unit :=
  fun f => (Ok tt, {| crawled_data := g (crawled_data f); self := self f;
                     world := world f |}).

Definition update_self (g : EnhancedTorCrawler -> EnhancedTorCrawler) : Try unit :=
  fun f => (Ok tt, {| crawled_data := crawled_data f; self := g (self f);
                     world := world f |}).

Definition read_data : Try CrawlResult := fun f => (Ok (crawled_data f), f).

(** [time.time()] *)
Definition time_time : Try Q := fun f => (Ok (w_now (world f)), f).

(** A method of [self.link_db] called at the current time *)
Definition on_db (op : Q -> Database.OnionLinkDatabase -> bool * Database.OnionLinkDatabase)
  : Try bool :=
  fun f =>
    let '(b, db) := op (w_now (world f)) (link_db (self f)) in
    (Ok b, {| crawled_data := crawled_data f; self := set_link_db db (self f);
              world := world f |}).

(** [self.session.get(url, headers=headers, timeout=30)] *)
Definition session_get (u : string) : Try Response :=
  fun f =>
    match session (self f) with
    | None => (Raise "'NoneType' object has no attribute 'get'", f)
    | Some s =>
        let '(r, w1) := send s "get" u (world f) in
        let f1 := {| crawled_data := crawled_data f; self := self f; world := w1 |} in
        match r with
        | Refused err _ => (Raise err, f1)
        | Answered resp => (Ok resp, f1)
        end
    end.

Definition lift {A} (r : Result A) : Try A := fun f => (r, f).

(** [for x in l: body(x)] *)
Fixpoint for_each {A} (l : list A) (body : A -> Try unit) : Try unit :=
  match l with
  | [] => ret tt
  | x :: l' => bind (body x) (fun _ => for_each l' body)
  end.

Definition newline : string := String (ascii_of_nat 10) EmptyString.

(** [".onion" in href] *)
Definition is_onion (href : string) : bool :=
  match String.index 0 ".onion" href with
  | Some _ => true
  | None => false
  end.

(** [href.startswith(("http://", "https://"))] *)
Definition is_absolute (href : string) : bool :=
  String.prefix "http://" href || String.prefix "https://" href.

(** [utils.randomize_delay(min_delay, max_delay)] *)
Definition randomize_delay (min_delay max_delay : Q) (w : World) : World :=
  let '(delay, w1) := uniform min_delay max_delay w in sleep delay w1.

(** The three statements that fold the result of a sub-page into
    [crawled_data]. *)
Definition merge_subpage (link : string) (sub_data : CrawlResult) (d : CrawlResult)
  : CrawlResult :=
  let d1 :=
    if Pool.is_empty (cr_content sub_data) then d
    else set_content
           (cr_content d ++ newline ++ newline ++ "--- Subpage: " ++ link ++ " ---"
              ++ newline ++ cr_content sub_data)%string d in
  let d2 := set_links (cr_links d1 ++ cr_links sub_data) d1 in
  set_errors (cr_errors d2 ++ cr_errors sub_data) d2.

(** A task of the pool is run by a worker thread of the executor, which
    is never the thread that opened the connection of [link_db]: while the
    task runs, the database is seen from another thread; when the task has
    returned, the database is seen again as the caller of the pool sees
    it. The task is a call of [crawl_onion], which catches every exception
    and returns. *)
Definition on_worker_thread
    (task : EnhancedTorCrawler -> World -> CrawlResult * EnhancedTorCrawler * World)
    (c : EnhancedTorCrawler) (w : World)
  : Result CrawlResult * EnhancedTorCrawler * World :=
  let own := Database.same_thread (link_db c) in
  let '(r, c1, w1) := task (set_link_db (Database.on_thread false (link_db c)) c) w in
  (Ok r, set_link_db (Database.on_thread own (link_db c1)) c1, w1).

Section WithLibraries.

(** From the libraries: [urllib.parse.urljoin], and the [netloc] and
    [path] of [urllib.parse.urlparse]. *)
Variable urljoin : string -> string -> string.
Variables netloc path : string -> string.
Variable cfg : Config.

(** [check_tor_connection()] *)
Definition check_tor_connection (c : EnhancedTorCrawler) (w : World)
  : bool * EnhancedTorCrawler * World :=
  let '(c1, w1) :=
    if Connection.is_none (session c) then
      let '(s, cm, w') := Connection.get_session false (connection_manager c) w in
      (set_session s (set_connection_manager cm c), w')
    else (c, w) in
  let '(r, cm2, w2) :=
    Connection.perform_request "get" Connection.test_url false 2 1 2
      (connection_manager c1) w1 in
  let c2 := set_connection_manager cm2 c1 in
  match r with
  | Ok response =>
      if (status_code response =? 200)%Z then
        match is_tor response with
        | Some true => (true, c2, w2)
        | _ => (false, c2, w2)
        end
      else (false, c2, w2)
  | Raise _ => (false, c2, w2)
  end.

(** [start_tor_session()] *)
Definition start_tor_session (c : EnhancedTorCrawler) (w : World)
  : EnhancedTorCrawler * World :=
  let '(s, cm, w1) := Connection.get_session false (connection_manager c) w in
  let c1 := set_session s (set_connection_manager cm c) in
  let '(_, c2, w2) := check_tor_connection c1 w1 in
  (c2, w2).

(** The body of [for a_tag in soup.find_all("a", href=True)] *)
Definition collect_anchor (u : string) (store_in_db : bool)
    (a_tag : string * string) : Try unit :=
  let '(href0, link_text) := a_tag in
  let href := if is_absolute href0 then href0 else urljoin u href0 in
  if is_onion href then
    (update_data (fun d => set_links (cr_links d ++ [href]) d) ;;
     if store_in_db then
       (_ <- on_db (Database.add_link href
                      (if Pool.is_empty link_text then EmptyString
                       else String.substring 0 100 link_text)
                      EmptyString EmptyString EmptyString u None None) ;;
        ret tt)
     else ret tt)%try
  else ret tt.

(** The block under [if store_in_db:] that ends the successful path. The
    dictionary is indexed with the key [was_filtered], which raises
    [KeyError] when the key is absent. *)
Definition store_crawl (u : string) (response_time : Q) : Try unit :=
  (d <- read_data ;;
   now <- time_time ;;
   let content_preview := String.substring 0 (CONTENT_PREVIEW_MAX_LENGTH cfg) (cr_content d) in
   let metadata :=
     [("last_crawled", Database.JTime now);
      ("response_time", Database.JNum response_time)] in
   metadata <-
     match cr_was_filtered d with
     | None => throw "'was_filtered'"
     | Some true =>
         match cr_filter_reason d with
         | None => throw "'filter_reason'"
         | Some reason =>
             ret (metadata ++ [("filtered", Database.JBool true);
                               ("filter_reason", Database.JStr reason)])
         end
     | Some false => ret metadata
     end ;;
   _ <- on_db (Database.update_link u
                 {| Database.p_title := Some (default EmptyString (cr_title d));
                    Database.p_description :=
                      Some (default EmptyString (cr_description d));
                    Database.p_category := None;
                    Database.p_content_preview := Some content_preview;
                    Database.p_last_checked := None;
                    Database.p_status := Some "active";
                    Database.p_discovery_source := None;
                    Database.p_trust_score := None;
                    Database.p_tags := None;
                    Database.p_metadata := Some metadata |}) ;;
   _ <- on_db (Database.add_crawl_history u "success" (Some response_time) None) ;;
   ret tt)%try.

(** What the [try] of [crawl_onion] does up to and including
    [self.error_count = 0]: fetch, parse, collect the links, store. *)
Definition fetch_and_store (u : string) (store_in_db : bool) : Try unit :=
  (start_time <- time_time ;;
   response <- session_get u ;;
   now <- time_time ;;
   let response_time := now - start_time in
   update_data (set_response_time response_time) ;;
   _ <- lift (raise_for_status response) ;;
   let soup := page response in
   match pg_title soup with
   | Some t => update_data (set_title t)
   | None => ret tt
   end ;;
   match pg_description soup with
   | Some t => update_data (set_description t)
   | None => ret tt
   end ;;
   update_data (set_content (pg_text soup)) ;;
   for_each (pg_anchors soup) (collect_anchor u store_in_db) ;;
   (if store_in_db then store_crawl u response_time else ret tt) ;;
   update_self (set_error_count 0))%try.

(** The [except Exception as e] block of [crawl_onion] *)
Definition on_crawl_error (u : string) (store_in_db : bool) (start_time : Q)
    (e : string) (f : Frame) : Frame :=
  let error_msg := ("Error crawling " ++ u ++ ": " ++ e)%string in
  let d := set_errors (cr_errors (crawled_data f) ++ [error_msg]) (crawled_data f) in
  let now := w_now (world f) in
  let db :=
    if store_in_db then
      let '(_, db1) :=
        Database.update_link_status u "error" None None None now (link_db (self f)) in
      let '(_, db2) :=
        Database.add_crawl_history u "error" (Some (now - start_time)) (Some e) now db1 in
      db2
    else link_db (self f) in
  let c := set_link_db db (self f) in
  {| crawled_data := d;
     self := set_error_count (error_count c + 1)%Z c;
     world := world f |}.

(** [crawl_onion(url, max_depth, store_in_db=True)]. The depth is a
    natural number; the recursive calls are made at [max_depth - 1]. *)
Fixpoint crawl_onion (u : string) (max_depth : nat) (store_in_db : bool)
    (c : EnhancedTorCrawler) (w : World) {struct max_depth}
  : CrawlResult * EnhancedTorCrawler * World :=
  let '(c0, w0) :=
    if Connection.is_none (session c) then start_tor_session c w else (c, w) in
  let start_time := w_now w0 in
  let recurse : Try unit :=
    match max_depth with
    | O => ret tt
    | S depth =>
        (d <- read_data ;;
         let links_to_crawl := firstn (LINK_LIMIT_PER_PAGE cfg) (cr_links d) in
         fun f =>
           if parallel_enabled (self f) && (1 <? length links_to_crawl)%nat
              && (1 <? max_depth)%nat then
             let '(sub_results, c1, w1) :=
               Pool.crawl_batch netloc path EnhancedTorCrawler
                 crawler_pool set_crawler_pool
                 (fun link => on_worker_thread (crawl_onion link depth true))
                 links_to_crawl (self f) (world f) in
             (Ok tt,
              {| crawled_data :=
                   fold_left (fun acc '(link, sub_data) => merge_subpage link sub_data acc)
                     sub_results (crawled_data f);
                 self := c1; world := w1 |})
           else
             (Ok tt,
              fold_left
                (fun acc link =>
                   let w1 := randomize_delay (CRAWL_DELAY_MIN cfg) (CRAWL_DELAY_MAX cfg)
                               (world acc) in
                   let '(sub_data, c2, w2) :=
                     crawl_onion link depth store_in_db (self acc) w1 in
                   {| crawled_data := merge_subpage link sub_data (crawled_data acc);
                      self := c2; world := w2 |})
                links_to_crawl f))%try
    end in
  let f0 := {| crawled_data := new_crawled_data u; self := c0; world := w0 |} in
  let f1 :=
    match (fetch_and_store u store_in_db ;; recurse)%try f0 with
    | (Ok _, f) => f
    | (Raise e, f) => on_crawl_error u store_in_db start_time e f
    end in
  (crawled_data f1, self f1, world f1).

(** The dictionary with the keys [url], [content], [links], [errors] and
    [title]: empty content and title, no links, one error. *)
Definition failure (u msg : string) : CrawlResult :=
  {| cr_url := u; cr_content := EmptyString; cr_links := []; cr_errors := [msg];
     cr_title := Some EmptyString; cr_response_time := None;
     cr_description := None; cr_was_filtered := None;
     cr_filter_reason := None; cr_from_clearnet := None |}.

(** [sep.join(l)] *)
Fixpoint join (sep : string) (l : list string) : string :=
  match l with
  | [] => EmptyString
  | [x] => x
  | x :: l' => (x ++ sep ++ join sep l')%string
  end.

(** [_clearnet_fallback(url)] *)
Definition _clearnet_fallback (u : string) (c : EnhancedTorCrawler) (w : World)
  : CrawlResult * EnhancedTorCrawler * World :=
  match tavily_search c with
  | None => (failure u "No clearnet fallback available", c, w)
  | Some tavily =>
      let search_terms := extract_search_terms tavily u in
      let results := search tavily search_terms in
      match results with
      | [] => (failure u "No results from clearnet fallback", c, w)
      | _ =>
          let combined_content :=
            join (newline ++ newline)
              (List.map (fun r => ("--- " ++ hit_title r ++ " ---" ++ newline
                                    ++ hit_content r)%string) results) in
          let fallback_data :=
            {| cr_url := u;
               cr_content := ("[CLEARNET FALLBACK RESULTS]" ++ newline ++ newline
                                ++ combined_content)%string;
               cr_links := List.map hit_url results;
               cr_errors := [];
               cr_title := Some ("Clearnet results for " ++ search_terms)%string;
               cr_response_time := None; cr_description := None;
               cr_was_filtered := None; cr_filter_reason := None;
               cr_from_clearnet := Some true |} in
          let '(_, db) :=
            Database.update_link u
              {| Database.p_title := None; Database.p_description := None;
                 Database.p_category := None; Database.p_content_preview := None;
                 Database.p_last_checked := None;
                 Database.p_status := Some "clearnet_fallback";
                 Database.p_discovery_source := None;
                 Database.p_trust_score := None; Database.p_tags := None;
                 Database.p_metadata :=
                   Some [("last_checked", Database.JTime (w_now w));
                         ("clearnet_fallback", Database.JBool true);
                         ("search_terms", Database.JStr search_terms)] |}
              (w_now w) (link_db c) in
          (fallback_data, set_link_db db c, w)
      end
  end.

(** [lambda: self.crawl_onion(url, max_depth)], on the state that
    [retry_operation] threads *)
Definition crawl_thunk (u : string) (max_depth : nat)
    (s : EnhancedTorCrawler * World) : Result CrawlResult * (EnhancedTorCrawler * World) :=
  let '(r, c1, w1) := crawl_onion u max_depth true (fst s) (snd s) in
  (Ok r, (c1, w1)).

(** [crawl_with_recovery(url, max_depth)] *)
Definition crawl_with_recovery (u : string) (max_depth : nat)
    (c : EnhancedTorCrawler) (w : World)
  : CrawlResult * EnhancedTorCrawler * World :=
  match
    Retry.retry_operation (EnhancedTorCrawler * World) CrawlResult
      snd (fun w' s => (fst s, w')) (crawl_thunk u max_depth)
      (MAX_RETRIES cfg) (RETRY_INITIAL_DELAY cfg) (RETRY_BACKOFF_FACTOR cfg) (c, w)
  with
  | (Ok r, (c1, w1)) => (r, c1, w1)
  | (Raise e, (c1, w1)) =>
      let c2 := set_error_count (error_count c1 + 1)%Z c1 in
      if (max_consecutive_errors c2 <=? error_count c2)%Z
         && CLEARNET_FALLBACK_ENABLED cfg
      then _clearnet_fallback u c2 w1
      else (failure u e, c2, w1)
  end.

(** [crawler_pool.crawl_batch(self, urls, max_depth=max_depth)] *)
Definition pooled_crawl (urls : list string) (max_depth : nat)
    (c : EnhancedTorCrawler) (w : World)
  : list (string * CrawlResult) * EnhancedTorCrawler * World :=
  Pool.crawl_batch netloc path EnhancedTorCrawler crawler_pool set_crawler_pool
    (fun link => on_worker_thread (crawl_onion link max_depth true)) urls c w.

(** [discover_from_directories(max_sites)] *)
Definition discover_from_directories (max_sites : Z)
    (c : EnhancedTorCrawler) (w : World) : nat * EnhancedTorCrawler * World :=
  let directories :=
    Database.get_links_by_category "directory" max_sites 0 (link_db c) in
  match directories with
  | [] => (O, c, w)
  | _ =>
      if parallel_enabled c && (1 <? length directories)%nat then
        let directory_urls := List.map Database.url directories in
        let '(results, c1, w1) := pooled_crawl directory_urls 0 c w in
        (fold_left (fun n '(_, data) => (n + length (cr_links data))%nat) results O,
         c1, w1)
      else
        fold_left
          (fun '(discovered_count, c1, w1) directory =>
             let '(data, c2, w2) :=
               crawl_with_recovery (Database.url directory) 0 c1 w1 in
             ((discovered_count + length (cr_links data))%nat, c2,
              randomize_delay (CRAWL_DELAY_MIN cfg) (CRAWL_DELAY_MAX cfg) w2))
          directories (O, c, w)
  end.

Record BatchStats := {
  total : nat;
  successful : nat;
  failed : nat;
  new_links_discovered : nat;
  filtered_for_safety : nat
}.

(** The tally of one crawled link in [batch_crawl] *)
Definition tally (data : CrawlResult) (r : BatchStats) : BatchStats :=
  match cr_errors data with
  | [] =>
      {| total := total r; successful := S (successful r); failed := failed r;
         new_links_discovered := (new_links_discovered r + length (cr_links data))%nat;
         filtered_for_safety :=
           if default false (cr_was_filtered data)
           then S (filtered_for_safety r) else filtered_for_safety r |}
  | _ :: _ =>
      {| total := total r; successful := successful r; failed := S (failed r);
         new_links_discovered := new_links_discovered r;
         filtered_for_safety := filtered_for_safety r |}
  end.

(** The links [batch_crawl(batch_size)] is going to crawl *)
Definition batch_selection (batch_size : Z) (c : EnhancedTorCrawler) (w : World)
  : list string :=
  Database.get_unchecked_links batch_size (Some (RECRAWL_HOURS cfg)) (w_now w)
    (link_db c).

(** [batch_crawl(batch_size)] *)
Definition batch_crawl (batch_size : Z) (c : EnhancedTorCrawler) (w : World)
  : BatchStats * EnhancedTorCrawler * World :=
  let links := batch_selection batch_size c w in
  let results :=
    {| total := length links; successful := 0; failed := 0;
       new_links_discovered := 0; filtered_for_safety := 0 |} in
  match links with
  | [] => (results, c, w)
  | _ =>
      if parallel_enabled c && (1 <? length links)%nat then
        let '(crawl_results, c1, w1) := pooled_crawl links 1 c w in
        (fold_left (fun r '(_, data) => tally data r) crawl_results results, c1, w1)
      else
        fold_left
          (fun '(r, c1, w1) link =>
             let '(data, c2, w2) := crawl_with_recovery link 1 c1 w1 in
             (tally data r, c2,
              randomize_delay (CRAWL_DELAY_MIN cfg) (CRAWL_DELAY_MAX cfg) w2))
          links (results, c, w)
  end.

(** [check_onion_status(url, timeout=10)]: a HEAD request through
    [perform_request] with one retry; the outcome goes to the crawl history
    and is the result. *)
Definition check_onion_status (u : string) (c : EnhancedTorCrawler) (w : World)
  : bool * EnhancedTorCrawler * World :=
  let '(c0, w0) :=
    if Connection.is_none (session c) then start_tor_session c w else (c, w) in
  let start_time := w_now w0 in
  let '(r, cm, w1) :=
    Connection.perform_request "head" u false 1 1 2 (connection_manager c0) w0 in
  let c1 := set_connection_manager cm c0 in
  let response_time := w_now w1 - start_time in
  match r with
  | Ok _ =>
      let '(_, db) :=
        Database.add_crawl_history u "success" (Some response_time) None
          (w_now w1) (link_db c1) in
      (true, set_link_db db c1, w1)
  | Raise error_message =>
      let '(_, db) :=
        Database.add_crawl_history u "error" (Some response_time)
          (Some error_message) (w_now w1) (link_db c1) in
      (false, set_link_db db c1, w1)
  end.

(** [requests.utils.quote] *)
Variable quote : string -> string.

Definition mentions (word s : string) : bool :=
  match String.index 0 word s with Some _ => true | None => false end.

(** [format_search_url(engine_url, query)] *)
Definition format_search_url (engine_url query : string) : string :=
  let query_encoded := quote query in
  if mentions "ahmia" engine_url then (engine_url ++ "/search/?q=" ++ query_encoded)%string
  else if mentions "torch" engine_url then (engine_url ++ "/search?query=" ++ query_encoded)%string
  else (engine_url ++ "/search?q=" ++ query_encoded)%string.

Definition contains (l : list string) (x : string) : bool :=
  existsb (String.eqb x) l.

(** The loop [for link in data["links"]] of [search_engines_query] *)
Definition keep_new_links (query engine_url engine_title : string)
    (links : list string) (now : Q)
    (acc : list string * Database.OnionLinkDatabase)
  : list string * Database.OnionLinkDatabase :=
  fold_left
    (fun '(discovered_urls, db) link =>
       if is_onion link && negb (String.eqb link engine_url)
          && negb (contains discovered_urls link) then
         (discovered_urls ++ [link],
          snd (Database.add_link link EmptyString EmptyString EmptyString EmptyString
                 ("search:" ++ engine_title)%string None
                 (Some [("search_query", Database.JStr query);
                        ("search_engine", Database.JStr engine_title);
                        ("discovery_date", Database.JTime now)])
                 now db))
       else (discovered_urls, db))
    links acc.

(** The search URLs [search_engines_query(query, max_engines)] is going
    to crawl when the database knows search engines *)
Definition engine_selection (max_engines : Z) (c : EnhancedTorCrawler)
  : list Database.LinkRecord :=
  Database.get_links_by_category "search_engine" max_engines 0 (link_db c).

(** [search_engines_query(query, max_engines)] *)
Definition search_engines_query (query : string) (max_engines : Z)
    (c : EnhancedTorCrawler) (w : World)
  : list string * EnhancedTorCrawler * World :=
  let engines := engine_selection max_engines c in
  match engines with
  | [] =>
      match CLEARNET_FALLBACK_ENABLED cfg, tavily_search c with
      | true, Some tavily =>
          let '(discovered_urls, db) :=
            fold_left
              (fun '(discovered_urls, db) result =>
                 if negb (Pool.is_empty (hit_url result)) && is_onion (hit_url result) then
                   (discovered_urls ++ [hit_url result],
                    snd (Database.add_link (hit_url result) (hit_title result)
                           (String.substring 0 200 (hit_content result))
                           EmptyString EmptyString "clearnet_search" None
                           (Some [("search_query", Database.JStr query);
                                  ("search_engine", Database.JStr "clearnet_tavily");
                                  ("discovery_date", Database.JTime (w_now w))])
                           (w_now w) db))
                 else (discovered_urls, db))
              (search tavily query) ([], link_db c) in
          (discovered_urls, set_link_db db c, w)
      | _, _ => ([], c, w)
      end
  | _ =>
      let search_urls :=
        List.map (fun e => format_search_url (Database.url e) query) engines in
      let engine_map :=
        fold_left (fun m e => dict_set (format_search_url (Database.url e) query) e m)
          engines [] in
      if parallel_enabled c && (1 <? length search_urls)%nat then
        let '(results, c1, w1) := pooled_crawl search_urls 0 c w in
        let '(discovered_urls, db) :=
          fold_left
            (fun acc '(search_url, data) =>
               let '(engine_url, engine_title) :=
                 match dict_get search_url engine_map with
                 | Some e => (Database.url e, Database.title e)
                 | None => (search_url, "unknown")
                 end in
               keep_new_links query engine_url engine_title (cr_links data) (w_now w1) acc)
            results ([], link_db c1) in
        (discovered_urls, set_link_db db c1, w1)
      else
        fold_left
          (fun '(discovered_urls, c1, w1) engine =>
             let u := Database.url engine in
             let search_url := format_search_url u query in
             let '(data, c2, w2) := crawl_with_recovery search_url 0 c1 w1 in
             let '(discovered_urls', db) :=
               keep_new_links query u (Database.title engine) (cr_links data)
                 (w_now w2) (discovered_urls, link_db c2) in
             (discovered_urls', set_link_db db c2,
              randomize_delay (CRAWL_DELAY_MIN cfg * 2) (CRAWL_DELAY_MAX cfg * 2) w2))
          engines ([], c, w)
  end.

End WithLibraries.

End Crawler.

(** * Predicates and scenarios used by the statements *)

(** A step of the program is quiet when it neither sleeps nor draws a
    random number. *)
Definition quiet (w w' : World) : Prop :=
  sleeps (w_trace w') = sleeps (w_trace w) /\ w_drawn w' = w_drawn w.

(** A list of delays that starts at [d] and grows by the factor [f]. *)
Fixpoint geometric (d f : Q) (ds : list Q) : Prop :=
  match ds with
  | [] => True
  | x :: ds' => x == d /\ geometric (d * f) f ds'
  end.

(** ** Scenarios *)

(** Stand-ins for [urlparse(url).netloc] and [urlparse(url).path], right
    on URLs of the form [http://host/path] and on relative paths. *)
Module Urls.

Definition host_of (u : string) : string :=
  if String.prefix "http://" u
  then Pool.first_segment (String.substring 7 (String.length u) u)
  else EmptyString.

Definition path_of (u : string) : string :=
  if String.prefix "http://" u
  then String.substring (7 + String.length (host_of u)) (String.length u) u
  else u.

Definition urljoin (base href : string) : string := (base ++ href)%string.

End Urls.

Module Scenario.

Definition no_page : Page :=
  {| pg_title := None; pg_description := None; pg_text := EmptyString;
     pg_anchors := [] |}.

(** A directory page with two onion links and one clearnet link. *)
Definition directory_page : Page :=
  {| pg_title := Some "Hidden wiki"; pg_description := None;
     pg_text := "welcome";
     pg_anchors := [("http://aaa.onion/", "A"); ("http://bbb.onion/", "B");
                    ("http://clear.example/", "C")] |}.

Definition ok_response : Response :=
  {| status_code := 200; http_error := "200 OK"; is_tor := None;
     page := directory_page; elapsed := 1 # 2 |}.

(** A world at second 1000 whose every random draw is 1/2. *)
Definition world_with (net : nat -> Reply) : World :=
  {| w_now := 1000; w_net := net; w_sent := 0; w_rand := fun _ => 1 # 2;
     w_drawn := 0; w_fresh := 10; w_trace := [] |}.

(** Every request is refused. *)
Definition dead_net : nat -> Reply := fun _ => Refused "timed out" 0.

(** Every request is answered with the directory page. *)
Definition live_net : nat -> Reply := fun _ => Answered ok_response.

(** The first three requests are refused, the fourth is answered. *)
Definition flaky_net : nat -> Reply :=
  fun k => if (k <? 3)%nat then Refused "timed out" 0 else Answered ok_response.

Definition tor : Session := {| sid := 1; via_tor := true |}.

(** A manager with a validated circuit created at second [created]. *)
Definition manager (created : Q) (count : Z) : Connection.ConnectionManager :=
  {| Connection.tor_enabled := true; Connection.clearnet_fallback := true;
     Connection.tor_session := Some tor; Connection.clearnet_session := None;
     Connection.circuit_created_time := Some created;
     Connection.max_circuit_age := 1800;
     Connection.request_count := count;
     Connection.max_requests_per_circuit := 30 |}.

End Scenario.

(** ** connection_manager.py *)

(** [get_session()] replaces the Tor session. *)
Definition get_session_rotates (cm : Connection.ConnectionManager) (w : World) : Prop :=
  rotations (w_trace (snd (Connection.get_session false cm w)))
  = S (rotations (w_trace w)).

(** The rotation condition as the specification words it: the request
    budget is used up, or the circuit has reached its maximum age. *)
Definition rotation_due_at_bound (cm : Connection.ConnectionManager) (now created : Q) : Prop :=
  (Connection.max_requests_per_circuit cm <= Connection.request_count cm)%Z
  \/ Connection.max_circuit_age cm <= now - created.

(** The rotation condition of the code: the request budget is used up, or
    the circuit is older than its maximum age. *)
Definition rotation_due (cm : Connection.ConnectionManager) (now created : Q) : Prop :=
  (Connection.max_requests_per_circuit cm <= Connection.request_count cm)%Z
  \/ Connection.max_circuit_age cm < now - created.

(** The network refuses every request. *)
Definition all_refused (w : World) : Prop :=
  forall n : nat, exists (err : string) (d : Q), w_net w n = Refused err d.

(** A request of [perform_request] goes out on the session the call
    started with, or on a Tor session created during the call. *)
Definition on_initial_or_new_tor (session : option Session) (fresh : nat)
    (x : Session) : Prop :=
  Some x = session \/ (via_tor x = true /\ (fresh <= sid x)%nat).

(** The delays as the specification words them: the [k]-th is the backoff
    delay plus a jitter drawn by [random.uniform(0, 0.5)], the draws being
    those of the world from the [first] on. *)
Definition jittered_backoff (initial factor : Q) (draws : nat -> Q) (first : nat)
    (ds : list Q) : Prop :=
  forall (k : nat) (d : Q), nth_error ds k = Some d ->
    d == initial * factor ^ Z.of_nat k + (0 + ((1 # 2) - 0) * draws (first + k)%nat).

(** The URLs requested in a trace, in order. *)
Fixpoint request_urls (tr : list Event) : list string :=
  match tr with
  | [] => []
  | EvRequest _ _ u :: tr' => u :: request_urls tr'
  | _ :: tr' => request_urls tr'
  end.

(** What a call added to the trace. *)
Definition new_events (w w' : World) : list Event :=
  skipn (length (w_trace w)) (w_trace w').

(** ** security_utils.py *)

Module ThrottleScenario.

Definition slow_stats : Throttle.DomainStats :=
  {| Throttle.requests := 3; Throttle.errors := 1;
     Throttle.response_times := [2; 4];
     Throttle.status_codes := [200; 503; 429]%Z;
     Throttle.last_error := Some 990;
     Throttle.consecutive_errors := 1 |}.

Definition manager : Throttle.ThrottleManager :=
  {| Throttle.base_delay := 2; Throttle.response_factor := 3 # 2;
     Throttle.error_backoff := 2; Throttle.max_delay := 30;
     Throttle.jitter := 1 # 5;
     Throttle.domain_stats := {[ "slow.onion"%string := slow_stats ]};
     Throttle.last_request_time := {[ "slow.onion"%string := 990 ]} |}.

End ThrottleScenario.

(** ** onion_database.py *)

Module DatabaseScenario.

Definition row (i : Z) (u cat st : string) (checked : Q) : Database.LinkRecord :=
  {| Database.id := i; Database.url := u; Database.title := "a site";
     Database.description := "found by the seed"; Database.category := cat;
     Database.content_preview := "..."; Database.last_checked := checked;
     Database.status := st; Database.discovery_source := "seed";
     Database.trust_score := 0; Database.tags := []; Database.metadata := [] |}.

(** A directory that was blacklisted, a search engine that was
    blacklisted, and an ordinary site never crawled. *)
Definition blacklisted_directory : Database.LinkRecord :=
  row 1 "http://dir.onion/" "directory" "blacklisted" 900.
Definition blacklisted_engine : Database.LinkRecord :=
  row 2 "http://torch.onion" "search_engine" "blacklisted" 900.
Definition new_site : Database.LinkRecord :=
  row 3 "http://shop.onion/" "marketplace" "new" 950.

Definition db : Database.OnionLinkDatabase :=
  {| Database.onion_links := [blacklisted_directory; blacklisted_engine; new_site];
     Database.crawl_history := []; Database.same_thread := true |}.

(** The keyword arguments [status="active", title="Shop"] *)
Definition activate : Database.LinkPatch :=
  {| Database.p_title := Some "Shop"%string; Database.p_description := None;
     Database.p_category := None; Database.p_content_preview := None;
     Database.p_last_checked := None; Database.p_status := Some "active"%string;
     Database.p_discovery_source := None; Database.p_trust_score := None;
     Database.p_tags := None; Database.p_metadata := None |}.

(** The same database as a worker thread of the crawler pool sees it. *)
Definition from_worker : Database.OnionLinkDatabase := Database.on_thread false db.

End DatabaseScenario.

(** [update_link] as the specification words it: whenever the URL has a
    record, the call returns [True] and the record carries the time of
    the call. *)
Definition update_link_always_applies : Prop :=
  forall (u : string) (kwargs : Database.LinkPatch) (now : Q)
         (db : Database.OnionLinkDatabase) (r : Database.LinkRecord),
    Database.find_link u db = Some r ->
    fst (Database.update_link u kwargs now db) = true
    /\ exists r' : Database.LinkRecord,
         Database.find_link u (snd (Database.update_link u kwargs now db)) = Some r'
         /\ Database.last_checked r' = now.

(** ** crawler_pool.py *)

(** One turn of the loop over the completed futures. *)
Definition pool_store (results : list (string * CrawlResult))
    (f : string * Result CrawlResult) : list (string * CrawlResult) :=
  let '(u, outcome) := f in dict_set u (Pool.entry_of u outcome) results.

(** The instant the [k]-th task, in the order the lock is acquired, leaves
    the throttle block. *)
Definition exit_of (netloc path : string -> string) (k : nat)
    (tasks : list (Q * string)) (p : Pool.CrawlerPool) (w : World) : option Q :=
  nth_error (fst (fst (Pool.throttle_all netloc path tasks p w))) k.

(** The throttle as the specification words it, a critical section per
    domain: when a task of one domain takes the lock before a task of
    another domain, the instant the second leaves the throttle is the same
    whatever the pool remembers about the domain of the first. *)
Definition domains_isolated (netloc path : string -> string) : Prop :=
  forall (p p' : Pool.CrawlerPool) (w : World) (a b : Q * string) (x y : Q),
    Pool._extract_domain netloc path (snd a) <> Pool._extract_domain netloc path (snd b) ->
    Pool.rate_limit p = Pool.rate_limit p' ->
    (forall d : string, d <> Pool._extract_domain netloc path (snd a) ->
       Pool.domain_last_crawl p !! d = Pool.domain_last_crawl p' !! d) ->
    exit_of netloc path 1 [a; b] p w = Some x ->
    exit_of netloc path 1 [a; b] p' w = Some y ->
    x == y.


Module PoolScenario.

(** A pool that has crawled nothing yet, and the same pool right after a
    crawl of slow.onion at second 1000. *)
Definition idle : Pool.CrawlerPool :=
  {| Pool.max_workers := 5; Pool.rate_limit := 2;
     Pool.domain_last_crawl := ∅; Pool.active := true |}.

Definition busy : Pool.CrawlerPool :=
  Pool.set_last_crawl "slow.onion" 1000 idle.

(** Two tasks dispatched at second 1000; the one of slow.onion takes the
    lock first. *)
Definition tasks : list (Q * string) :=
  [(1000, "http://slow.onion/a"%string); (1000, "http://fast.onion/b"%string)].








End PoolScenario.

(** ** retry_utils.py *)

Module RetryScenario.

(** An operation that raises on its first three calls and returns on the
    fourth; the state counts the calls. *)
Definition flaky (s : nat * World) : Result nat * (nat * World) :=
  let '(calls, w) := s in
  if (calls <? 3)%nat then (Raise "timed out", (S calls, w))
  else (Ok calls, (S calls, w)).

Definition retry (w : World) : Result nat * (nat * World) :=
  Retry.retry_operation (nat * World) nat snd (fun w' s => (fst s, w'))
    flaky 3 1 2 (O, w).

End RetryScenario.

(** ** enhanced_crawler.py *)

Module CrawlerScenario.

(** A crawler with a Tor session, sequential, over the scenario database. *)
Definition crawler : Crawler.EnhancedTorCrawler :=
  {| Crawler.link_db := DatabaseScenario.db;
     Crawler.connection_manager := Scenario.manager 990 0;
     Crawler.session := Some Scenario.tor;
     Crawler.parallel_enabled := false;
     Crawler.crawler_pool := PoolScenario.idle;
     Crawler.tavily_search := None;
     Crawler.error_count := 0;
     Crawler.max_consecutive_errors := 5 |}.

Definition crawl_onion :=
  Crawler.crawl_onion Urls.urljoin Urls.host_of Urls.path_of Crawler.defaults.

Definition crawl_with_recovery :=
  Crawler.crawl_with_recovery Urls.urljoin Urls.host_of Urls.path_of Crawler.defaults.

Definition discover_from_directories :=
  Crawler.discover_from_directories Urls.urljoin Urls.host_of Urls.path_of
    Crawler.defaults.

Definition search_engines_query :=
  Crawler.search_engines_query Urls.urljoin Urls.host_of Urls.path_of
    Crawler.defaults (fun query => query).

(** The status of the record of a URL, when there is one. *)
Definition status_of (u : string) (c : Crawler.EnhancedTorCrawler) : option string :=
  option_map Database.status (Database.find_link u (Crawler.link_db c)).

End CrawlerScenario.

(** What the loop over the anchors of a page leaves as it found it: the
    world, the errors and the optional keys of [crawled_data], the session
    and the error count of the crawler, the record of the page, the crawl
    history and the thread the database is seen from. *)
Definition anchors_keep (u : string) (f f' : Crawler.Frame) : Prop :=
  Crawler.world f' = Crawler.world f
  /\ cr_was_filtered (Crawler.crawled_data f') = cr_was_filtered (Crawler.crawled_data f)
  /\ cr_errors (Crawler.crawled_data f') = cr_errors (Crawler.crawled_data f)
  /\ Crawler.session (Crawler.self f') = Crawler.session (Crawler.self f)
  /\ Crawler.error_count (Crawler.self f') = Crawler.error_count (Crawler.self f)
  /\ (forall r : Database.LinkRecord,
        Database.find_link u (Crawler.link_db (Crawler.self f)) = Some r ->
        Database.find_link u (Crawler.link_db (Crawler.self f')) = Some r)
  /\ Database.crawl_history (Crawler.link_db (Crawler.self f'))
     = Database.crawl_history (Crawler.link_db (Crawler.self f))
  /\ Database.same_thread (Crawler.link_db (Crawler.self f'))
     = Database.same_thread (Crawler.link_db (Crawler.self f)).

(** What the [except] block of [crawl_onion] records for the exception [e]
    when storing is enabled and the URL has the record [r]: the error in
    the result, one more error counted, the status [error] in the record,
    and one more history entry, for this record, with the text of the
    exception. *)
Definition error_recorded (u e : string) (r : Database.LinkRecord)
    (f f1 : Crawler.Frame) : Prop :=
  cr_errors (Crawler.crawled_data f1)
    = cr_errors (Crawler.crawled_data f) ++ [("Error crawling " ++ u ++ ": " ++ e)%string]
  /\ Crawler.error_count (Crawler.self f1) = (Crawler.error_count (Crawler.self f) + 1)%Z
  /\ (exists r' : Database.LinkRecord,
        Database.find_link u (Crawler.link_db (Crawler.self f1)) = Some r'
        /\ Database.status r' = "error"%string)
  /\ (exists h : Database.CrawlHistoryEntry,
        Database.crawl_history (Crawler.link_db (Crawler.self f1))
          = Database.crawl_history (Crawler.link_db (Crawler.self f)) ++ [h]
        /\ Database.outcome h = "error"%string
        /\ Database.error_message h = Some e
        /\ Database.onion_id h = Database.id r).

(** * Further predicates and scenarios *)

(** ** retry_utils.py *)

(** Delays that start at [d], grow by the factor [f], and are each
    lengthened by the jitter [random.uniform(0, 0.5)] computed from the
    draws of [rand] from the [first] on. *)
Fixpoint jittered (d f : Q) (rand : nat -> Q) (first : nat) (ds : list Q) : Prop :=
  match ds with
  | [] => True
  | x :: ds' =>
      x = d + (0 + ((1 # 2) - 0) * rand first)
      /\ jittered (d * f) f rand (S first) ds'
  end.

Module RetryLawsScenario.

(** An operation that always raises and leaves the world alone; the state
    counts the calls. *)
Definition broken (s : nat * World) : Result nat * (nat * World) :=
  (Raise "connection reset", (S (fst s), snd s)).

End RetryLawsScenario.

(** ** connection_manager.py *)

(** The capability check of [_initialize_tor_session] succeeds on this
    reply: status 200 and a JSON body whose [IsTor] is true. *)
Definition confirms_tor (r : Reply) : bool :=
  match r with
  | Answered resp =>
      (status_code resp =? 200)%Z
      && match is_tor resp with Some true => true | _ => false end
  | Refused _ _ => false
  end.

Module ConnectionLawsScenario.

(** The capability check is answered: Tor routing confirmed. *)
Definition tor_confirmed : Response :=
  {| status_code := 200; http_error := "200 OK"; is_tor := Some true;
     page := Scenario.no_page; elapsed := 1 # 4 |}.

(** A manager that has no session yet. *)
Definition fresh_manager (fallback : bool) : Connection.ConnectionManager :=
  {| Connection.tor_enabled := true; Connection.clearnet_fallback := fallback;
     Connection.tor_session := None; Connection.clearnet_session := None;
     Connection.circuit_created_time := None;
     Connection.max_circuit_age := 1800;
     Connection.request_count := 0;
     Connection.max_requests_per_circuit := 30 |}.

End ConnectionLawsScenario.

(** ** security_utils.py *)

(** The rolling windows of the throttle statistics: at most ten response
    times and twenty status codes per domain. *)
Definition windows_bounded (tm : Throttle.ThrottleManager) : Prop :=
  forall (domain : string) (stats : Throttle.DomainStats),
    Throttle.domain_stats tm !! domain = Some stats ->
    (length (Throttle.response_times stats) <= 10)%nat
    /\ (length (Throttle.status_codes stats) <= 20)%nat.

(** ** onion_database.py *)

(** What the schema of [onion_links] declares: [url] is [UNIQUE] and [id]
    is the primary key. *)
Definition unique_rows (db : Database.OnionLinkDatabase) : Prop :=
  List.NoDup (List.map Database.url (Database.onion_links db))
  /\ List.NoDup (List.map Database.id (Database.onion_links db)).

(** Every row of the URL carries the status [blacklisted]. *)
Definition blacklisted_in (u : string) (db : Database.OnionLinkDatabase) : Prop :=
  forall r : Database.LinkRecord,
    In r (Database.onion_links db) -> Database.url r = u ->
    Database.status r = "blacklisted"%string.

(** Rows listed by falling trust score. *)
Definition by_falling_trust (rows : list Database.LinkRecord) : Prop :=
  StronglySorted
    (fun a b => Database.trust_score b <= Database.trust_score a) rows.

(** ** crawler_pool.py *)

Module PoolLawsScenario.

(** A crawler that is nothing but its pool, and whose crawl returns a page
    without content. *)
Definition crawl (u : string) (c : Pool.CrawlerPool) (w : World)
  : Result CrawlResult * Pool.CrawlerPool * World :=
  (Ok (Pool.error_entry u "no content"), c, w).

(** Three tasks, the first and the last of the same domain. *)
Definition tasks : list (Q * string) :=
  [(1000, "http://slow.onion/a"%string); (1000, "http://fast.onion/b"%string);
   (1001, "http://slow.onion/c"%string)].

End PoolLawsScenario.

(** ** enhanced_crawler.py *)

(** Every link of a crawl result is an onion address: [".onion"] occurs
    in it. *)
Definition links_onion (d : CrawlResult) : Prop :=
  Forall (fun link => Crawler.is_onion link = true) (cr_links d).

(** A statement of a [try] block keeps a property of the dictionary and of
    the crawler, whether it completes or raises. *)
Definition preserves {A} (P : CrawlResult -> Crawler.EnhancedTorCrawler -> Prop)
    (m : Crawler.Try A) : Prop :=
  forall f : Crawler.Frame,
    P (Crawler.crawled_data f) (Crawler.self f) ->
    P (Crawler.crawled_data (snd (m f))) (Crawler.self (snd (m f))).

(** What a crawl keeps: the links collected are onion addresses, the
    parallel switch of the crawler stays as it is, and a sequential crawl
    that was told not to store leaves the database as it found it. *)
Definition crawl_invariant (store_in_db : bool) (db0 : Database.OnionLinkDatabase)
    (parallel : bool) (d : CrawlResult) (c : Crawler.EnhancedTorCrawler) : Prop :=
  links_onion d
  /\ Crawler.parallel_enabled c = parallel
  /\ (store_in_db = false -> parallel = false -> Crawler.link_db c = db0).
(** * Facts *)

(** ** Rationals and traces *)

Lemma Qltb_lt (a b : Q) : Qltb a b = true <-> a < b.
Proof.
  unfold Qltb. rewrite negb_true_iff. split.
  - intros H. apply Qnot_le_lt. intros Hle.
    apply Qle_bool_iff in Hle. congruence.
  - intros H. destruct (Qle_bool b a) eqn:E; [|reflexivity].
    apply Qle_bool_iff in E. lra.
Qed.

Lemma Qltb_ge (a b : Q) : Qltb a b = false <-> b <= a.
Proof.
  unfold Qltb. rewrite negb_false_iff. apply Qle_bool_iff.
Qed.

Lemma sleeps_app (a b : list Event) : sleeps (a ++ b) = sleeps a ++ sleeps b.
Proof.
  induction a as [|e a IH]; [reflexivity|].
  destruct e; simpl; rewrite IH; reflexivity.
Qed.

Lemma request_sessions_app (a b : list Event) :
  request_sessions (a ++ b) = request_sessions a ++ request_sessions b.
Proof.
  induction a as [|e a IH]; [reflexivity|].
  destruct e; simpl; rewrite IH; reflexivity.
Qed.

Lemma rotations_app (a b : list Event) :
  rotations (a ++ b) = (rotations a + rotations b)%nat.
Proof.
  induction a as [|e a IH]; [reflexivity|].
  destruct e; simpl; rewrite IH; reflexivity.
Qed.

Lemma quiet_refl (w : World) : quiet w w.
Proof. split; reflexivity. Qed.

Lemma quiet_trans (a b c : World) : quiet a b -> quiet b c -> quiet a c.
Proof. intros [H1 H2] [H3 H4]. split; congruence. Qed.

Lemma send_quiet (s : Session) (m u : string) (w : World) :
  quiet w (snd (send s m u w)).
Proof.
  unfold quiet, send; simpl. rewrite sleeps_app; simpl.
  rewrite app_nil_r. split; reflexivity.
Qed.

Lemma geometric_nth (ds : list Q) : forall (d f : Q) (k : nat) (x : Q),
  geometric d f ds -> nth_error ds k = Some x -> x == d * f ^ Z.of_nat k.
Proof.
  induction ds as [|y ds IH]; intros d f k x Hg Hk.
  - destruct k; discriminate.
  - destruct Hg as [Hy Hg]. destruct k as [|k].
    + simpl in Hk. injection Hk as <-. rewrite Hy. simpl. ring.
    + simpl in Hk. rewrite (IH _ _ _ _ Hg Hk).
      rewrite Nat2Z.inj_succ. unfold Z.succ.
      rewrite Qpower_plus' by lia. rewrite Qpower_1_r. ring.
Qed.

Lemma geometric_increasing (ds : list Q) : forall (d f : Q) (k : nat) (x y : Q),
  0 < d -> 1 < f -> geometric d f ds ->
  nth_error ds k = Some x -> nth_error ds (S k) = Some y -> x < y.
Proof.
  induction ds as [|z ds IH]; intros d f k x y Hd Hf Hg Hx Hy.
  - destruct k; discriminate.
  - destruct Hg as [Hz Hg]. destruct k as [|k].
    + simpl in Hx, Hy. injection Hx as <-.
      destruct ds as [|z' ds]; [discriminate|].
      simpl in Hy. injection Hy as <-. destruct Hg as [Hz' _].
      rewrite Hz, Hz'. nra.
    + simpl in Hx, Hy. apply (IH (d * f) f k x y); auto. nra.
Qed.

(** ** connection_manager.py *)

Module ConnectionFacts.
Import Connection.

Lemma _initialize_tor_session_quiet (cm : ConnectionManager) (w : World) :
  quiet w (snd (_initialize_tor_session cm w)).
Proof.
  unfold _initialize_tor_session, quiet. simpl.
  destruct (w_net w (w_sent w)) as [err d|resp]; simpl.
  - rewrite !sleeps_app; simpl. rewrite !app_nil_r. split; reflexivity.
  - destruct (status_code resp =? 200)%Z; [destruct (is_tor resp) as [[|]|]|];
      simpl; rewrite !sleeps_app; simpl; rewrite !app_nil_r; split; reflexivity.
Qed.

Lemma _initialize_tor_session_rotations (cm : ConnectionManager) (w : World) :
  rotations (w_trace (snd (_initialize_tor_session cm w))) = S (rotations (w_trace w)).
Proof.
  unfold _initialize_tor_session. simpl.
  destruct (w_net w (w_sent w)) as [err d|resp]; simpl.
  - rewrite !rotations_app; simpl. lia.
  - destruct (status_code resp =? 200)%Z; [destruct (is_tor resp) as [[|]|]|];
      simpl; rewrite !rotations_app; simpl; lia.
Qed.

Lemma _get_clearnet_session_quiet (cm : ConnectionManager) (w : World) :
  quiet w (snd (_get_clearnet_session cm w)).
Proof.
  unfold _get_clearnet_session.
  destruct (clearnet_session cm); simpl; split; reflexivity.
Qed.

Lemma _get_clearnet_session_rotations (cm : ConnectionManager) (w : World) :
  rotations (w_trace (snd (_get_clearnet_session cm w))) = rotations (w_trace w).
Proof.
  unfold _get_clearnet_session. destruct (clearnet_session cm); reflexivity.
Qed.

Lemma try_request_quiet (s : option Session) (m u : string) (w : World) :
  quiet w (snd (try_request s m u w)).
Proof.
  unfold try_request. destruct s as [s|]; [|apply quiet_refl].
  pose proof (send_quiet s m u w) as H.
  destruct (send s m u w) as [r w1]. destruct r; exact H.
Qed.

Lemma get_session_quiet (force : bool) (cm : ConnectionManager) (w : World) :
  quiet w (snd (get_session force cm w)).
Proof.
  unfold get_session.
  destruct (force || negb (tor_enabled cm)); [apply _get_clearnet_session_quiet|].
  destruct (is_none (tor_session cm) || _should_rotate_circuit cm w);
    [|apply quiet_refl].
  pose proof (_initialize_tor_session_quiet cm w) as H.
  destruct (_initialize_tor_session cm w) as [[ok cm1] w1]. simpl in H.
  destruct (negb ok && clearnet_fallback cm1); [|exact H].
  eapply quiet_trans; [exact H|apply _get_clearnet_session_quiet].
Qed.

(** The loop of [perform_request] sleeps the delays of a geometric
    progression and draws no random number. *)
Lemma request_loop_delays (todo : nat) :
  forall (attempt max_retries : Z) (m u : string) (session : option Session)
         (delay factor : Q) (last : option string) (cm : ConnectionManager) (w : World),
  exists ds : list Q,
    sleeps (w_trace (snd (request_loop todo attempt max_retries m u session
                            delay factor last cm w)))
      = sleeps (w_trace w) ++ ds
    /\ geometric delay factor ds
    /\ (length ds <= Z.to_nat (max_retries - attempt))%nat
    /\ w_drawn (snd (request_loop todo attempt max_retries m u session
                       delay factor last cm w)) = w_drawn w.
Proof.
  induction todo as [|todo IH]; intros attempt max_retries m u session delay factor last cm w.
  - exists []. simpl. rewrite app_nil_r. repeat split; lia.
  - simpl.
    pose proof (try_request_quiet session m u w) as [Hs Hd].
    destruct (try_request session m u w) as [[resp|e] w1]; cbn [snd] in Hs, Hd.
    + exists []. simpl. rewrite app_nil_r. repeat split; auto; lia.
    + destruct (attempt <? max_retries)%Z eqn:Hlt.
      * apply Z.ltb_lt in Hlt.
        assert (Hsl : sleeps (w_trace (sleep delay w1)) = sleeps (w_trace w) ++ [delay]).
        { unfold sleep; simpl. rewrite sleeps_app, Hs. reflexivity. }
        assert (Hlen : forall ds' : list Q,
                   (length ds' <= Z.to_nat (max_retries - (attempt + 1)))%nat ->
                   (length (delay :: ds') <= Z.to_nat (max_retries - attempt))%nat).
        { intros ds' H. simpl. lia. }
        destruct (same_object session (tor_session cm) && (1 <=? attempt)%Z).
        -- pose proof (_initialize_tor_session_quiet cm (sleep delay w1)) as [Hs3 Hd3].
           destruct (_initialize_tor_session cm (sleep delay w1)) as [[ok cm3] w3].
           cbn [snd] in Hs3, Hd3.
           destruct ((2 <=? attempt)%Z && clearnet_fallback cm3).
           ++ pose proof (_get_clearnet_session_quiet cm3 w3) as [Hs4 Hd4].
              destruct (_get_clearnet_session cm3 w3) as [[session' cm4] w4].
              cbn [snd] in Hs4, Hd4.
              destruct (IH (attempt + 1)%Z max_retries m u session' (delay * factor)
                          factor (Some e) cm4 w4) as (ds & H1 & H2 & H3 & H4).
              exists (delay :: ds).
              split; [rewrite H1, Hs4, Hs3, Hsl, <- app_assoc; reflexivity|].
              split; [split; [reflexivity|exact H2]|].
              split; [apply Hlen, H3|].
              rewrite H4, Hd4, Hd3. exact Hd.
           ++ destruct (IH (attempt + 1)%Z max_retries m u session (delay * factor)
                          factor (Some e) cm3 w3) as (ds & H1 & H2 & H3 & H4).
              exists (delay :: ds).
              split; [rewrite H1, Hs3, Hsl, <- app_assoc; reflexivity|].
              split; [split; [reflexivity|exact H2]|].
              split; [apply Hlen, H3|].
              rewrite H4, Hd3. exact Hd.
        -- destruct (IH (attempt + 1)%Z max_retries m u session (delay * factor)
                       factor (Some e) cm (sleep delay w1)) as (ds & H1 & H2 & H3 & H4).
           exists (delay :: ds).
           split; [rewrite H1, Hsl, <- app_assoc; reflexivity|].
           split; [split; [reflexivity|exact H2]|].
           split; [apply Hlen, H3|].
           rewrite H4. exact Hd.
      * destruct (IH (attempt + 1)%Z max_retries m u session delay
                    factor (Some e) cm w1) as (ds & H1 & H2 & H3 & H4).
        apply Z.ltb_ge in Hlt.
        destruct ds as [|d0 ds].
        -- exists []. rewrite H1, Hs. rewrite app_nil_r in *. repeat split; auto.
           ++ simpl; lia.
           ++ congruence.
        -- simpl in H3. lia.
Qed.

Lemma _initialize_tor_session_net (cm : ConnectionManager) (w : World) :
  w_net (snd (_initialize_tor_session cm w)) = w_net w.
Proof.
  unfold _initialize_tor_session, new_session, send. cbn [w_net w_sent].
  destruct (w_net w (w_sent w)) as [err d|resp]; [reflexivity|].
  destruct (status_code resp =? 200)%Z; [destruct (is_tor resp) as [[|]|]|];
    reflexivity.
Qed.

Lemma _get_clearnet_session_net (cm : ConnectionManager) (w : World) :
  w_net (snd (_get_clearnet_session cm w)) = w_net w.
Proof.
  unfold _get_clearnet_session. destruct (clearnet_session cm); reflexivity.
Qed.

Lemma get_session_net (force : bool) (cm : ConnectionManager) (w : World) :
  w_net (snd (get_session force cm w)) = w_net w.
Proof.
  unfold get_session.
  destruct (force || negb (tor_enabled cm)); [apply _get_clearnet_session_net|].
  destruct (is_none (tor_session cm) || _should_rotate_circuit cm w);
    [|reflexivity].
  pose proof (_initialize_tor_session_net cm w) as H.
  destruct (_initialize_tor_session cm w) as [[ok cm1] w1]. cbn [snd] in H.
  destruct (negb ok && clearnet_fallback cm1); [|exact H].
  rewrite _get_clearnet_session_net. exact H.
Qed.

Lemma try_request_refused (session : option Session) (m u : string) (w : World) :
  all_refused w ->
  exists (e : string) (w1 : World),
    try_request session m u w = (Raise e, w1) /\ w_net w1 = w_net w.
Proof.
  intros Hall. unfold try_request. destruct session as [s|].
  - unfold send. destruct (Hall (w_sent w)) as (err & d & Hn). rewrite Hn.
    eexists. eexists. split; reflexivity.
  - eexists. eexists. split; reflexivity.
Qed.

(** When every request is refused, the loop sleeps before each of the
    [max_retries] retries. *)
Lemma request_loop_all_refused (todo : nat) :
  forall (attempt max_retries : Z) (m u : string) (session : option Session)
         (delay factor : Q) (last : option string) (cm : ConnectionManager) (w : World),
    all_refused w ->
    (attempt <= max_retries)%Z ->
    todo = Z.to_nat (max_retries - attempt + 1) ->
    length (sleeps (w_trace (snd (request_loop todo attempt max_retries m u session
                                    delay factor last cm w))))
    = (length (sleeps (w_trace w)) + Z.to_nat (max_retries - attempt))%nat.
Proof.
  induction todo as [|todo IH];
    intros attempt max_retries m u session delay factor last cm w Hall Hle Htodo;
    [lia|].
  cbn [request_loop].
  pose proof (try_request_quiet session m u w) as [Hq _].
  destruct (try_request_refused session m u w Hall) as (e & w1 & Ht & Hn).
  rewrite Ht in Hq |- *. cbn [snd] in Hq.
  assert (Hall1 : all_refused w1) by (intros n; rewrite Hn; apply Hall).
  destruct (attempt <? max_retries)%Z eqn:Hlt.
  - apply Z.ltb_lt in Hlt.
    assert (Hall2 : all_refused (sleep delay w1)) by exact Hall1.
    assert (Hs2 : length (sleeps (w_trace (sleep delay w1)))
                  = S (length (sleeps (w_trace w)))).
    { unfold sleep; cbn [w_trace]. rewrite sleeps_app, length_app, Hq. cbn. lia. }
    assert (Hnext : todo = Z.to_nat (max_retries - (attempt + 1) + 1)) by lia.
    assert (Hle' : (attempt + 1 <= max_retries)%Z) by lia.
    destruct (same_object session (tor_session cm) && (1 <=? attempt)%Z).
    + pose proof (_initialize_tor_session_quiet cm (sleep delay w1)) as [Hq3 _].
      pose proof (_initialize_tor_session_net cm (sleep delay w1)) as Hn3.
      destruct (_initialize_tor_session cm (sleep delay w1)) as [[ok cm3] w3].
      cbn [snd] in Hq3, Hn3.
      assert (Hall3 : all_refused w3) by (intros n; rewrite Hn3; apply Hall2).
      destruct ((2 <=? attempt)%Z && clearnet_fallback cm3).
      * pose proof (_get_clearnet_session_quiet cm3 w3) as [Hq4 _].
        pose proof (_get_clearnet_session_net cm3 w3) as Hn4.
        destruct (_get_clearnet_session cm3 w3) as [[session' cm4] w4].
        cbn [snd] in Hq4, Hn4.
        assert (Hall4 : all_refused w4) by (intros n; rewrite Hn4; apply Hall3).
        rewrite (IH _ _ _ _ _ _ _ _ _ _ Hall4 Hle' Hnext), Hq4, Hq3, Hs2. lia.
      * rewrite (IH _ _ _ _ _ _ _ _ _ _ Hall3 Hle' Hnext), Hq3, Hs2. lia.
    + rewrite (IH _ _ _ _ _ _ _ _ _ _ Hall2 Hle' Hnext), Hs2. lia.
  - apply Z.ltb_ge in Hlt. assert (attempt = max_retries) by lia. subst attempt.
    assert (todo = O) by lia. subst todo. cbn [request_loop snd].
    rewrite Hq. lia.
Qed.

(** C6, as amended. In [perform_request] the delay slept before retry [k]
    is exactly [initial_delay * backoff_factor ^ k]: no jitter is added and
    no random number is drawn. There are at most [max_retries] such delays,
    exactly [max_retries] when every request is refused, and they increase
    strictly when the initial delay is positive and the factor exceeds
    one. *)
Theorem perform_request_backoff (m u : string) (force : bool) (max_retries : Z)
    (initial factor : Q) (cm : ConnectionManager) (w : World) :
  let w' := snd (perform_request m u force max_retries initial factor cm w) in
  exists ds : list Q,
    sleeps (w_trace w') = sleeps (w_trace w) ++ ds
    /\ (length ds <= Z.to_nat max_retries)%nat
    /\ (forall (k : nat) (d : Q),
          nth_error ds k = Some d -> d == initial * factor ^ Z.of_nat k)
    /\ w_drawn w' = w_drawn w
    /\ (0 < initial -> 1 < factor ->
        forall (k : nat) (x y : Q),
          nth_error ds k = Some x -> nth_error ds (S k) = Some y -> x < y)
    /\ (all_refused w -> (0 <= max_retries)%Z -> length ds = Z.to_nat max_retries).
Proof.
  unfold perform_request.
  pose proof (get_session_quiet force cm w) as [Hs Hd].
  pose proof (get_session_net force cm w) as Hnet.
  destruct (get_session force cm w) as [[session cm1] w1]. cbn [snd] in Hs, Hd, Hnet.
  set (cm2 := if same_object session (tor_session cm1)
              then set_request_count (request_count cm1 + 1)%Z cm1 else cm1).
  destruct (request_loop_delays (Z.to_nat (max_retries + 1)) 0%Z max_retries m u
              session initial factor None cm2 w1) as (ds & H1 & H2 & H3 & H4).
  cbn zeta. exists ds.
  split; [rewrite H1, Hs; reflexivity|].
  split; [rewrite Z.sub_0_r in H3; exact H3|].
  split; [intros k d Hk; exact (geometric_nth ds initial factor k d H2 Hk)|].
  split; [rewrite H4; exact Hd|].
  split.
  { intros Hi Hf k x y Hx Hy.
    exact (geometric_increasing ds initial factor k x y Hi Hf H2 Hx Hy). }
  intros Hall Hm.
  assert (Hall1 : all_refused w1).
  { intros n. rewrite Hnet. apply Hall. }
  pose proof (request_loop_all_refused (Z.to_nat (max_retries + 1)) 0%Z max_retries
                m u session initial factor None cm2 w1 Hall1 Hm) as Hlen.
  rewrite H1, length_app, Z.sub_0_r in Hlen.
  specialize (Hlen eq_refl). lia.
Qed.

Lemma perform_request_backoff_witness :
  let w := Scenario.world_with Scenario.dead_net in
  let w' := snd (perform_request "get" "http://x.onion" false 3 1 2
                   (Scenario.manager 990 0) w) in
  all_refused w
  /\ exists ds : list Q,
       sleeps (w_trace w') = sleeps (w_trace w) ++ ds
       /\ length ds = 3%nat
       /\ (forall (k : nat) (d : Q),
             nth_error ds k = Some d -> d == 1 * 2 ^ Z.of_nat k)
       /\ w_drawn w' = w_drawn w
       /\ (forall (k : nat) (x y : Q),
             nth_error ds k = Some x -> nth_error ds (S k) = Some y -> x < y).
Proof.
  assert (Hall : all_refused (Scenario.world_with Scenario.dead_net)).
  { intros n. exists "timed out"%string, 0. reflexivity. }
  split; [exact Hall|].
  pose proof (perform_request_backoff "get" "http://x.onion" false 3 1 2
                (Scenario.manager 990 0) (Scenario.world_with Scenario.dead_net)) as H.
  cbv zeta in H. destruct H as (ds & H1 & H2 & H3 & H4 & H5 & H6).
  exists ds. split; [exact H1|]. split; [apply H6; [exact Hall|lia]|].
  split; [exact H3|]. split; [exact H4|].
  apply H5; reflexivity.
Defined.

(** C6, as stated, fails. With every request refused and the default
    arguments, [perform_request] sleeps 1, 2 and 4 seconds, while every
    draw of the world would give a jitter of a quarter of a second. *)
Lemma perform_request_jitter_counterexample :
  let w := Scenario.world_with Scenario.dead_net in
  let w' := snd (perform_request "get" "http://x.onion" false 3 1 2
                   (Scenario.manager 990 0) w) in
  sleeps (new_events w w') = [1; 2; 4]
  /\ ~ jittered_backoff 1 2 (w_rand w) (w_drawn w) (sleeps (new_events w w')).
Proof.
  split; [vm_compute; reflexivity|].
  intros H. specialize (H 0%nat 1 eq_refl). vm_compute in H. discriminate H.
Qed.

(** *** The fallback inside the retry loop is never reached *)

Lemma try_request_trace (session : option Session) (m u : string) (w : World) :
  exists evs : list Event,
    w_trace (snd (try_request session m u w)) = w_trace w ++ evs
    /\ Forall (fun x => Some x = session) (request_sessions evs)
    /\ w_fresh (snd (try_request session m u w)) = w_fresh w.
Proof.
  unfold try_request. destruct session as [s|].
  - unfold send. destruct (w_net w (w_sent w)) as [err d|resp]; cbn [snd w_trace w_fresh];
      exists [EvRequest s m u]; repeat split; repeat constructor.
  - exists []. cbn [snd]. rewrite app_nil_r. repeat split; constructor.
Qed.

Lemma _initialize_tor_session_trace (cm : ConnectionManager) (w : World) :
  let out := _initialize_tor_session cm w in
  let s' := {| sid := w_fresh w; via_tor := true |} in
  tor_session (snd (fst out)) = Some s'
  /\ clearnet_session (snd (fst out)) = clearnet_session cm
  /\ w_fresh (snd out) = S (w_fresh w)
  /\ w_trace (snd out) = w_trace w ++ [EvTorInit s'; EvRequest s' "get" test_url].
Proof.
  unfold _initialize_tor_session, new_session, send. cbn [w_net w_sent w_trace w_fresh w_now].
  destruct (w_net w (w_sent w)) as [err d|resp].
  - cbn. rewrite <- app_assoc. repeat split; reflexivity.
  - destruct (status_code resp =? 200)%Z; [destruct (is_tor resp) as [[|]|]|];
      cbn; rewrite <- app_assoc; repeat split; reflexivity.
Qed.

Lemma on_initial_or_new_tor_weaken (session : option Session) (n n' : nat)
    (l : list Session) :
  (n <= n')%nat ->
  Forall (on_initial_or_new_tor session n') l ->
  Forall (on_initial_or_new_tor session n) l.
Proof.
  intros Hn H. rewrite List.Forall_forall in H |- *. intros x Hx.
  destruct (H x Hx) as [E|[E1 E2]]; [left; exact E|right; split; [exact E1|lia]].
Qed.

Lemma request_loop_no_switch (todo : nat) :
  forall (attempt max_retries : Z) (m u : string) (session : option Session)
         (delay factor : Q) (last : option string) (cm : ConnectionManager) (w : World),
    (attempt <= 1)%Z \/ same_object session (tor_session cm) = false
      \/ (max_retries <= attempt)%Z ->
    (forall s : Session, session = Some s -> (sid s < w_fresh w)%nat) ->
    let out := request_loop todo attempt max_retries m u session delay factor last cm w in
    clearnet_session (snd (fst out)) = clearnet_session cm
    /\ (w_fresh w <= w_fresh (snd out))%nat
    /\ exists evs : list Event,
         w_trace (snd out) = w_trace w ++ evs
         /\ Forall (on_initial_or_new_tor session (w_fresh w)) (request_sessions evs).
Proof.
  induction todo as [|todo IH];
    intros attempt max_retries m u session delay factor last cm w Hinv Hwf.
  - cbn. split; [reflexivity|]. split; [lia|].
    exists []. rewrite app_nil_r. split; [reflexivity|constructor].
  - cbn [request_loop].
    destruct (try_request_trace session m u w) as (ev1 & Ht1 & Hr1 & Hf1).
    assert (Hr1' : Forall (on_initial_or_new_tor session (w_fresh w)) (request_sessions ev1)).
    { rewrite List.Forall_forall in Hr1 |- *. intros x Hx. left. exact (Hr1 x Hx). }
    destruct (try_request session m u w) as [[resp|e] w1]; cbn [snd] in Ht1, Hf1.
    + cbn [fst snd]. split; [reflexivity|]. split; [lia|].
      exists ev1. split; [exact Ht1|exact Hr1'].
    + destruct (attempt <? max_retries)%Z eqn:Hretry.
      * apply Z.ltb_lt in Hretry.
        remember (sleep delay w1) as w2 eqn:Hw2.
        assert (Hs2 : w_trace w2 = w_trace w ++ (ev1 ++ [EvSleep delay])).
        { subst w2. unfold sleep; cbn [w_trace]. rewrite Ht1, <- app_assoc. reflexivity. }
        assert (Hf2 : w_fresh w2 = w_fresh w) by (subst w2; exact Hf1).
        assert (Hr2 : Forall (on_initial_or_new_tor session (w_fresh w))
                        (request_sessions (ev1 ++ [EvSleep delay]))).
        { rewrite request_sessions_app. cbn. rewrite app_nil_r. exact Hr1'. }
        clear Hw2.
        destruct (same_object session (tor_session cm) && (1 <=? attempt)%Z) eqn:Hrot.
        -- apply andb_true_iff in Hrot. destruct Hrot as [Hsame Hge].
           apply Z.leb_le in Hge.
           assert (Hatt : attempt = 1%Z).
           { destruct Hinv as [Hle|[Hst|Hle]]; [lia|congruence|lia]. }
           pose proof (_initialize_tor_session_trace cm w2) as (Htor & Hcl & Hf3 & Ht3).
           destruct (_initialize_tor_session cm w2) as [[ok cm3] w3].
           cbn [fst snd] in Htor, Hcl, Hf3, Ht3.
           replace ((2 <=? attempt)%Z) with false by (subst attempt; reflexivity).
           cbn [andb].
           assert (Hstale : same_object session (tor_session cm3) = false).
           { rewrite Htor. destruct session as [s0|]; [|reflexivity].
             cbn. apply Nat.eqb_neq. specialize (Hwf s0 eq_refl). rewrite Hf2. lia. }
           assert (Hwf3 : forall s0 : Session, session = Some s0 -> (sid s0 < w_fresh w3)%nat).
           { intros s0 Hs0. specialize (Hwf s0 Hs0). rewrite Hf3, Hf2. lia. }
           specialize (IH (attempt + 1)%Z max_retries m u session (delay * factor)
                         factor (Some e) cm3 w3 (or_intror (or_introl Hstale)) Hwf3).
           destruct IH as (Hc & Hfr & evs & Htr & Hall).
           split; [rewrite Hc; exact Hcl|].
           split; [rewrite Hf3, Hf2 in Hfr; lia|].
           exists ((ev1 ++ [EvSleep delay])
                   ++ [EvTorInit {| sid := w_fresh w2; via_tor := true |};
                       EvRequest {| sid := w_fresh w2; via_tor := true |}
                         "get" test_url]
                   ++ evs).
           split; [rewrite Htr, Ht3, Hs2, <- !app_assoc; reflexivity|].
           rewrite !request_sessions_app. apply Forall_app. split; [|apply Forall_app; split].
           ++ rewrite request_sessions_app in Hr2. exact Hr2.
           ++ cbn. constructor; [|constructor]. right. cbn. split; [reflexivity|].
              rewrite Hf2. lia.
           ++ apply (on_initial_or_new_tor_weaken session (w_fresh w) (w_fresh w3));
                [rewrite Hf3, Hf2; lia|exact Hall].
        -- assert (Hinv' : (attempt + 1 <= 1)%Z \/ same_object session (tor_session cm) = false
                           \/ (max_retries <= attempt + 1)%Z).
           { apply andb_false_iff in Hrot. destruct Hrot as [Hst|Hlt].
             - right; left; exact Hst.
             - apply Z.leb_gt in Hlt. left; lia. }
           assert (Hwf2 : forall s0 : Session, session = Some s0 ->
                            (sid s0 < w_fresh w2)%nat).
           { intros s0 Hs0. rewrite Hf2. exact (Hwf s0 Hs0). }
           specialize (IH (attempt + 1)%Z max_retries m u session (delay * factor)
                         factor (Some e) cm w2 Hinv' Hwf2).
           destruct IH as (Hc & Hfr & evs & Htr & Hall).
           split; [exact Hc|]. split; [rewrite Hf2 in Hfr; exact Hfr|].
           exists ((ev1 ++ [EvSleep delay]) ++ evs).
           split; [rewrite Htr, Hs2, <- !app_assoc; reflexivity|].
           rewrite request_sessions_app. apply Forall_app. split; [exact Hr2|].
           rewrite Hf2 in Hall. exact Hall.
      * apply Z.ltb_ge in Hretry.
        assert (Hinv' : (attempt + 1 <= 1)%Z \/ same_object session (tor_session cm) = false
                        \/ (max_retries <= attempt + 1)%Z) by (right; right; lia).
        assert (Hwf1 : forall s0 : Session, session = Some s0 -> (sid s0 < w_fresh w1)%nat).
        { intros s0 Hs0. rewrite Hf1. exact (Hwf s0 Hs0). }
        specialize (IH (attempt + 1)%Z max_retries m u session delay
                      factor (Some e) cm w1 Hinv' Hwf1).
        destruct IH as (Hc & Hfr & evs & Htr & Hall).
        split; [exact Hc|]. split; [rewrite Hf1 in Hfr; exact Hfr|].
        exists (ev1 ++ evs).
        split; [rewrite Htr, Ht1, <- !app_assoc; reflexivity|].
        rewrite request_sessions_app. apply Forall_app. split; [exact Hr1'|].
        rewrite Hf1 in Hall. exact Hall.
Qed.

(** Whatever the network answers: when [perform_request] starts on a live
    Tor session that is not due for rotation, every request of the call
    goes out on that session or on a Tor session created by a rotation, and
    the manager's clearnet session is left as it was. The branch that
    switches to the clearnet session is never taken. *)
Lemma perform_request_never_falls_back (m u : string) (max_retries : Z)
    (initial factor : Q) (cm : ConnectionManager) (w : World) (s : Session) :
  tor_enabled cm = true ->
  tor_session cm = Some s ->
  (sid s < w_fresh w)%nat ->
  _should_rotate_circuit cm w = false ->
  let out := perform_request m u false max_retries initial factor cm w in
  clearnet_session (snd (fst out)) = clearnet_session cm
  /\ exists evs : list Event,
       w_trace (snd out) = w_trace w ++ evs
       /\ Forall (on_initial_or_new_tor (Some s) (w_fresh w)) (request_sessions evs).
Proof.
  intros He Hs Hfresh Hrot. unfold perform_request, get_session.
  rewrite He, Hs, Hrot. cbn [orb negb is_none].
  rewrite Hs. cbn [same_object]. rewrite Nat.eqb_refl.
  assert (H01 : (0 <= 1)%Z) by lia.
  pose proof (request_loop_no_switch (Z.to_nat (max_retries + 1)) 0%Z max_retries
                m u (Some s) initial factor None
                (set_request_count (request_count cm + 1)%Z cm) w
                (or_introl H01)) as H.
  cbv zeta in H. destruct H as (Hc & _ & evs & Htr & Hall).
  { intros s0 Hs0. injection Hs0 as <-. exact Hfresh. }
  split; [exact Hc|]. exists evs. split; [exact Htr|exact Hall].
Qed.

(** C5, at the failing input. Clearnet fallback is enabled and every
    request is refused: the circuit is rotated after the second failure,
    but the third and the fourth attempt are still sent on the session the
    call started with, which is the Tor session that the rotation just
    replaced; no clearnet session is ever created. *)
Theorem perform_request_stays_on_tor :
  let w := Scenario.world_with Scenario.dead_net in
  let out := perform_request "get" "http://x.onion" false 3 1 2
               (Scenario.manager 990 0) w in
  fst (fst out) = Raise "timed out"
  /\ w_trace (snd out)
     = [EvRequest Scenario.tor "get" "http://x.onion";
        EvSleep 1;
        EvRequest Scenario.tor "get" "http://x.onion";
        EvSleep 2;
        EvTorInit {| sid := 10; via_tor := true |};
        EvRequest {| sid := 10; via_tor := true |} "get" test_url;
        EvRequest Scenario.tor "get" "http://x.onion";
        EvSleep 4;
        EvRequest Scenario.tor "get" "http://x.onion"]
  /\ clearnet_fallback (snd (fst out)) = true
  /\ clearnet_session (snd (fst out)) = None.
Proof. vm_compute. repeat split; reflexivity. Qed.

Lemma _should_rotate_circuit_spec (cm : ConnectionManager) (w : World) (t0 : Q) :
  circuit_created_time cm = Some t0 ->
  (_should_rotate_circuit cm w = true <-> rotation_due cm (w_now w) t0).
Proof.
  intros Ht. unfold _should_rotate_circuit, rotation_due. rewrite Ht.
  destruct (Qltb (max_circuit_age cm) (w_now w - t0)) eqn:Ha.
  - apply Qltb_lt in Ha. split; [right; exact Ha|reflexivity].
  - apply Qltb_ge in Ha.
    destruct (max_requests_per_circuit cm <=? request_count cm)%Z eqn:Hc.
    + apply Z.leb_le in Hc. split; [left; exact Hc|reflexivity].
    + apply Z.leb_gt in Hc. split; [discriminate|].
      intros [H|H]; [lia|lra].
Qed.

(** C7, as amended. With an established circuit, [get_session] rotates
    exactly when the request count has reached [max_requests_per_circuit]
    or the age of the circuit exceeds [max_circuit_age]; a circuit whose
    age equals the maximum is kept. When it does not rotate, it returns the
    current Tor session and changes nothing. *)
Theorem get_session_rotates_iff (cm : ConnectionManager) (w : World)
    (s : Session) (t0 : Q) :
  tor_enabled cm = true ->
  tor_session cm = Some s ->
  circuit_created_time cm = Some t0 ->
  (get_session_rotates cm w <-> rotation_due cm (w_now w) t0)
  /\ (~ rotation_due cm (w_now w) t0 -> get_session false cm w = (Some s, cm, w)).
Proof.
  intros He Hs Ht.
  pose proof (_should_rotate_circuit_spec cm w t0 Ht) as Hspec.
  unfold get_session_rotates, get_session. rewrite He, Hs. cbn [orb negb is_none].
  destruct (_should_rotate_circuit cm w) eqn:Hr.
  - split.
    + split; [intros _; apply Hspec; reflexivity|intros _].
      pose proof (_initialize_tor_session_rotations cm w) as Hrot.
      destruct (_initialize_tor_session cm w) as [[ok cm1] w1]. cbn [snd] in Hrot.
      destruct (negb ok && clearnet_fallback cm1); [|exact Hrot].
      rewrite _get_clearnet_session_rotations. exact Hrot.
    + intros Hn. exfalso. apply Hn, Hspec. reflexivity.
  - split; [|reflexivity].
    split.
    + cbn [snd]. intros H. lia.
    + intros H. apply Hspec in H. discriminate H.
Qed.

Lemma get_session_rotates_iff_witness :
  let cm := Scenario.manager 990 30 in
  let w := Scenario.world_with Scenario.live_net in
  (get_session_rotates cm w <-> rotation_due cm (w_now w) 990)
  /\ (~ rotation_due cm (w_now w) 990
      -> get_session false cm w = (Some Scenario.tor, cm, w)).
Proof.
  apply (get_session_rotates_iff (Scenario.manager 990 30)
           (Scenario.world_with Scenario.live_net) Scenario.tor 990);
    reflexivity.
Defined.

(** C7, as stated, fails at the boundary: a circuit created at second 0 is
    exactly [max_circuit_age] = 1800 seconds old at second 1800 and has
    served no request; the specification's condition holds, and
    [get_session] keeps the circuit. *)
Lemma get_session_boundary_counterexample :
  let cm := Scenario.manager 0 0 in
  let w :=
    {| w_now := 1800; w_net := Scenario.live_net; w_sent := 0;
       w_rand := fun _ => 1 # 2; w_drawn := 0; w_fresh := 10; w_trace := [] |} in
  rotation_due_at_bound cm (w_now w) 0
  /\ ~ get_session_rotates cm w
  /\ ~ (get_session_rotates cm w <-> rotation_due_at_bound cm (w_now w) 0).
Proof.
  assert (Hdue : rotation_due_at_bound (Scenario.manager 0 0) 1800 0).
  { right. vm_compute. discriminate. }
  assert (Hno : ~ get_session_rotates (Scenario.manager 0 0)
                    {| w_now := 1800; w_net := Scenario.live_net; w_sent := 0;
                       w_rand := fun _ => 1 # 2; w_drawn := 0; w_fresh := 10;
                       w_trace := [] |}).
  { unfold get_session_rotates. vm_compute. discriminate. }
  split; [exact Hdue|]. split; [exact Hno|].
  intros [_ H]. exact (Hno (H Hdue)).
Qed.

End ConnectionFacts.

(** ** security_utils.py: class ThrottleManager *)

Module ThrottleFacts.
Import Throttle.

Lemma last_n_nil {A} (n : nat) : last_n n (@nil A) = [].
Proof. reflexivity. Qed.




(** A domain without statistics gets the base delay, jittered. *)
Lemma get_delay_new_domain (netloc : string -> string) (tm : ThrottleManager)
    (u : string) (w : World) :
  domain_stats tm !! netloc u = None ->
  fst (get_delay netloc tm u w)
  == base_delay tm + base_delay tm * jitter tm * (2 * w_rand w (w_drawn w) - 1).
Proof.
  intros Hs. unfold get_delay, _extract_domain. rewrite Hs.
  unfold _apply_jitter, uniform, random. cbn [fst]. ring.
Qed.

End ThrottleFacts.

(** ** onion_database.py *)

Module DatabaseFacts.
Import Database.

Lemma update_rows_miss (u : string) (p : LinkPatch) (now : Q) (rows : list LinkRecord) :
  List.find (fun r => String.eqb (url r) u) rows = None ->
  update_rows u p now rows = (O, rows).
Proof.
  induction rows as [|r rows IH]; intros H; [reflexivity|].
  simpl in *. destruct (String.eqb (url r) u); [discriminate|].
  rewrite (IH H). reflexivity.
Qed.

Lemma update_rows_urls (u : string) (p : LinkPatch) (now : Q) (rows : list LinkRecord) :
  List.map url (snd (update_rows u p now rows)) = List.map url rows
  /\ List.map id (snd (update_rows u p now rows)) = List.map id rows.
Proof.
  induction rows as [|r rows [IH1 IH2]]; [split; reflexivity|].
  simpl. destruct (update_rows u p now rows) as [n rows'].
  simpl in IH1, IH2.
  destruct (String.eqb (url r) u); simpl; rewrite IH1, IH2; split; reflexivity.
Qed.

Lemma update_rows_hit (u : string) (p : LinkPatch) (now : Q) (rows : list LinkRecord)
    (r : LinkRecord) :
  List.find (fun r => String.eqb (url r) u) rows = Some r ->
  (0 < fst (update_rows u p now rows))%nat
  /\ List.find (fun r => String.eqb (url r) u) (snd (update_rows u p now rows))
     = Some (apply_patch p now r).
Proof.
  induction rows as [|x rows IH]; intros H; [discriminate|].
  simpl in *. destruct (update_rows u p now rows) as [n rows'].
  destruct (String.eqb (url x) u) eqn:E.
  - injection H as <-. simpl. rewrite E. split; [lia|reflexivity].
  - simpl. rewrite E. exact (IH H).
Qed.

Lemma update_rows_other (u u' : string) (p : LinkPatch) (now : Q)
    (rows : list LinkRecord) :
  u' <> u ->
  List.find (fun r => String.eqb (url r) u') (snd (update_rows u p now rows))
  = List.find (fun r => String.eqb (url r) u') rows.
Proof.
  intros Hne. induction rows as [|x rows IH]; [reflexivity|].
  simpl. destruct (update_rows u p now rows) as [n rows']. simpl in IH.
  destruct (String.eqb (url x) u) eqn:E; simpl.
  - apply String.eqb_eq in E.
    destruct (String.eqb (url x) u') eqn:E'.
    + apply String.eqb_eq in E'. congruence.
    + exact IH.
  - destruct (String.eqb (url x) u'); [reflexivity|exact IH].
Qed.

(** C10, as amended. Called on the thread that opened the connection,
    [update_link(url, **kwargs)] on a URL that has a record returns
    [True]; in the record, [last_checked] holds the time of the call
    whether or not the keyword arguments name it, every other column the
    arguments name holds the value given, and every column they do not name
    keeps its value, as do [id] and [url]; the records of other URLs, the
    order of the rows and the crawl history are unchanged. On a URL that
    has no record the call returns [False] and the database is unchanged.
    Called on any other thread, it returns [False] and the database is
    unchanged, whether the URL has a record or not. *)
Theorem update_link_frame (u : string) (kwargs : LinkPatch) (now : Q)
    (db : OnionLinkDatabase) :
  (same_thread db = true ->
   (forall r : LinkRecord, find_link u db = Some r ->
      fst (update_link u kwargs now db) = true
      /\ (exists r' : LinkRecord,
            find_link u (snd (update_link u kwargs now db)) = Some r'
            /\ last_checked r' = now
            /\ id r' = id r /\ url r' = url r
            /\ title r' = default (title r) (p_title kwargs)
            /\ description r' = default (description r) (p_description kwargs)
            /\ category r' = default (category r) (p_category kwargs)
            /\ content_preview r' = default (content_preview r) (p_content_preview kwargs)
            /\ status r' = default (status r) (p_status kwargs)
            /\ discovery_source r' = default (discovery_source r) (p_discovery_source kwargs)
            /\ trust_score r' = default (trust_score r) (p_trust_score kwargs)
            /\ tags r' = default (tags r) (p_tags kwargs)
            /\ metadata r' = default (metadata r) (p_metadata kwargs))
      /\ (forall u' : string, u' <> u ->
            find_link u' (snd (update_link u kwargs now db)) = find_link u' db)
      /\ List.map url (onion_links (snd (update_link u kwargs now db)))
         = List.map url (onion_links db)
      /\ crawl_history (snd (update_link u kwargs now db)) = crawl_history db
      /\ same_thread (snd (update_link u kwargs now db)) = true)
   /\ (find_link u db = None -> update_link u kwargs now db = (false, db)))
  /\ (same_thread db = false -> update_link u kwargs now db = (false, db)).
Proof.
  unfold find_link, update_link. split; intros Ht; rewrite Ht; cbn [negb];
    [|reflexivity].
  split.
  - intros r Hr.
    pose proof (update_rows_hit u kwargs now (onion_links db) r Hr) as [Hn Hf].
    pose proof (update_rows_urls u kwargs now (onion_links db)) as [Hu _].
    pose proof (fun u' => update_rows_other u u' kwargs now (onion_links db)) as Ho.
    destruct (update_rows u kwargs now (onion_links db)) as [n rows].
    cbn [fst snd onion_links crawl_history same_thread] in *.
    split; [apply Nat.ltb_lt; exact Hn|].
    split.
    { exists (apply_patch kwargs now r). split; [exact Hf|].
      repeat split; reflexivity. }
    split; [exact Ho|]. split; [exact Hu|]. split; reflexivity.
  - intros Hr. rewrite (update_rows_miss u kwargs now (onion_links db) Hr).
    destruct db; cbn in *. rewrite Ht. reflexivity.
Qed.

Lemma update_link_frame_witness :
  let db := DatabaseScenario.db in
  let u := "http://shop.onion/"%string in
  let after := update_link u DatabaseScenario.activate 1000 db in
  find_link u db = Some DatabaseScenario.new_site
  /\ fst after = true
  /\ (exists r' : LinkRecord,
        find_link u (snd after) = Some r'
        /\ last_checked r' = 1000
        /\ id r' = 3%Z /\ url r' = u
        /\ title r' = "Shop"%string
        /\ description r' = "found by the seed"%string
        /\ category r' = "marketplace"%string
        /\ content_preview r' = "..."%string
        /\ status r' = "active"%string
        /\ discovery_source r' = "seed"%string
        /\ trust_score r' = 0
        /\ tags r' = []
        /\ metadata r' = [])
  /\ (forall u' : string, u' <> u -> find_link u' (snd after) = find_link u' db)
  /\ List.map url (onion_links (snd after)) = List.map url (onion_links db)
  /\ crawl_history (snd after) = crawl_history db
  /\ same_thread (snd after) = true.
Proof.
  split; [reflexivity|].
  apply (proj1 (proj1 (update_link_frame "http://shop.onion/" DatabaseScenario.activate
                         1000 DatabaseScenario.db) eq_refl)
           DatabaseScenario.new_site).
  reflexivity.
Defined.

(** C10, the counterexample. The record of http://shop.onion/ exists, and
    [update_link] is called on a thread that did not open the connection:
    the engine refuses the statement, the call returns [False] and the
    record is as it was. The crawler makes such calls: a crawl that the
    pool runs and that is refused by the network leaves the status [new]
    where the same crawl on the thread of the connection records
    [error]. *)
Lemma update_link_refused_counterexample :
  let u := "http://shop.onion/"%string in
  let w := Scenario.world_with Scenario.dead_net in
  find_link u DatabaseScenario.from_worker = Some DatabaseScenario.new_site
  /\ update_link u DatabaseScenario.activate 1000 DatabaseScenario.from_worker
     = (false, DatabaseScenario.from_worker)
  /\ CrawlerScenario.status_of u
       (snd (fst (Crawler.pooled_crawl Urls.urljoin Urls.host_of Urls.path_of
                    Crawler.defaults [u; "http://dir.onion/"%string] 0
                    CrawlerScenario.crawler w)))
     = Some "new"%string
  /\ CrawlerScenario.status_of u
       (snd (fst (CrawlerScenario.crawl_onion u 0 true CrawlerScenario.crawler w)))
     = Some "error"%string
  /\ ~ update_link_always_applies.
Proof.
  assert (H1 : find_link "http://shop.onion/" DatabaseScenario.from_worker
               = Some DatabaseScenario.new_site) by reflexivity.
  assert (H2 : update_link "http://shop.onion/" DatabaseScenario.activate 1000
                 DatabaseScenario.from_worker
               = (false, DatabaseScenario.from_worker)) by reflexivity.
  split; [exact H1|]. split; [exact H2|].
  split; [vm_compute; reflexivity|]. split; [vm_compute; reflexivity|].
  intros H.
  destruct (H "http://shop.onion/"%string DatabaseScenario.activate 1000
              DatabaseScenario.from_worker DatabaseScenario.new_site H1) as [Hf _].
  rewrite H2 in Hf. discriminate.
Qed.

(** *** Selections *)

Lemma insert_by_In {A} (before : A -> A -> bool) (x y : A) (l : list A) :
  In y (insert_by before x l) <-> y = x \/ In y l.
Proof.
  induction l as [|z l IH]; simpl.
  - split; [intros [H|[]]; left; congruence|intros [H|[]]; left; congruence].
  - destruct (before z x); simpl; [rewrite IH|]; intuition congruence.
Qed.

Lemma order_by_In {A} (before : A -> A -> bool) (y : A) (l : list A) :
  In y (order_by before l) <-> In y l.
Proof.
  induction l as [|x l IH]; simpl; [reflexivity|].
  rewrite insert_by_In, IH. intuition congruence.
Qed.

Lemma In_firstn_list {A} (n : nat) (y : A) (l : list A) :
  In y (firstn n l) -> In y l.
Proof.
  revert l. induction n as [|n IH]; intros [|x l] H; simpl in *;
    try contradiction.
  destruct H as [H|H]; [left; exact H|right; exact (IH l H)].
Qed.

Lemma In_skipn_list {A} (n : nat) (y : A) (l : list A) :
  In y (skipn n l) -> In y l.
Proof.
  revert l. induction n as [|n IH]; intros [|x l] H; simpl in *; auto.
Qed.

Lemma limit_offset_In {A} (limit offset : Z) (y : A) (l : list A) :
  In y (limit_offset limit offset l) -> In y l.
Proof.
  unfold limit_offset. intros H.
  destruct (limit <? 0)%Z.
  - eapply In_skipn_list; exact H.
  - eapply In_skipn_list. eapply In_firstn_list; exact H.
Qed.

(** The selection of [get_unchecked_links] never contains the URL of a
    blacklisted record only: every URL it returns is the URL of a record
    whose status is not [blacklisted]. *)
Lemma get_unchecked_links_skips_blacklisted (limit : Z) (hours : option Q)
    (now : Q) (db : OnionLinkDatabase) (u : string) :
  In u (get_unchecked_links limit hours now db) ->
  exists r : LinkRecord,
    In r (onion_links db) /\ url r = u /\ status r <> "blacklisted"%string.
Proof.
  unfold get_unchecked_links. intros H.
  destruct (truthy hours); apply in_map_iff in H; destruct H as (r & Hu & Hr);
    apply limit_offset_In, order_by_In, filter_In in Hr; destruct Hr as [Hin Hp];
    exists r; (split; [exact Hin|split; [exact Hu|]]).
  - unfold needs_crawl in Hp. apply orb_true_iff in Hp. destruct Hp as [Hp|Hp].
    + apply String.eqb_eq in Hp. rewrite Hp. discriminate.
    + apply andb_true_iff in Hp. destruct Hp as [_ Hp].
      apply negb_true_iff, String.eqb_neq in Hp. exact Hp.
  - apply String.eqb_eq in Hp. rewrite Hp. discriminate.
Qed.

End DatabaseFacts.

(** ** crawler_pool.py *)

Module PoolFacts.
Import Pool.

(** *** Dictionaries *)

Lemma dict_get_set_eq {V} (k : string) (v : V) (d : list (string * V)) :
  dict_get k (dict_set k v d) = Some v.
Proof.
  induction d as [|[k' v'] d IH]; simpl.
  - rewrite String.eqb_refl. reflexivity.
  - destruct (String.eqb k' k) eqn:E; simpl; rewrite E; [reflexivity|exact IH].
Qed.

Lemma dict_get_set_ne {V} (k k' : string) (v : V) (d : list (string * V)) :
  k' <> k -> dict_get k' (dict_set k v d) = dict_get k' d.
Proof.
  intros Hne. induction d as [|[k0 v0] d IH]; simpl.
  - apply String.eqb_neq in Hne. rewrite String.eqb_sym in Hne.
    rewrite Hne. reflexivity.
  - destruct (String.eqb k0 k) eqn:E; simpl.
    + apply String.eqb_eq in E. subst k0.
      apply String.eqb_neq in Hne. rewrite String.eqb_sym in Hne.
      rewrite Hne. reflexivity.
    + destruct (String.eqb k0 k'); [reflexivity|exact IH].
Qed.

Lemma dict_set_keys {V} (k k' : string) (v : V) (d : list (string * V)) :
  In k' (List.map fst (dict_set k v d)) <-> k' = k \/ In k' (List.map fst d).
Proof.
  induction d as [|[k0 v0] d IH]; simpl.
  - intuition congruence.
  - destruct (String.eqb k0 k) eqn:E; simpl.
    + apply String.eqb_eq in E. subst k0. intuition congruence.
    + rewrite IH. intuition congruence.
Qed.

Lemma dict_set_NoDup {V} (k : string) (v : V) (d : list (string * V)) :
  List.NoDup (List.map fst d) -> List.NoDup (List.map fst (dict_set k v d)).
Proof.
  induction d as [|[k0 v0] d IH]; simpl; intros H.
  - constructor; [intros []|constructor].
  - inversion H as [|? ? Hn Hd]; subst.
    destruct (String.eqb k0 k) eqn:E; simpl.
    + constructor; assumption.
    + constructor; [|exact (IH Hd)].
      rewrite dict_set_keys. intros [Hk|Hk]; [|exact (Hn Hk)].
      apply String.eqb_neq in E. congruence.
Qed.

Lemma dict_get_keys {V} (k : string) (d : list (string * V)) :
  In k (List.map fst d) <-> exists v : V, dict_get k d = Some v.
Proof.
  induction d as [|[k0 v0] d IH]; simpl.
  - split; [intros []|intros [v H]; discriminate].
  - destruct (String.eqb k0 k) eqn:E.
    + apply String.eqb_eq in E. split; [intros _; eauto|intros _; left; exact E].
    + apply String.eqb_neq in E. rewrite <- IH. intuition congruence.
Qed.

(** *** The loop over the completed futures *)

Lemma gather_fold (completed : list (string * Result CrawlResult)) :
  gather completed = fold_left pool_store completed [].
Proof. reflexivity. Qed.

Lemma fold_store_keys (completed : list (string * Result CrawlResult)) :
  forall (acc : list (string * CrawlResult)) (u : string),
    In u (List.map fst (fold_left pool_store completed acc))
    <-> In u (List.map fst acc) \/ In u (List.map fst completed).
Proof.
  induction completed as [|[k o] l IH]; intros acc u; simpl.
  - intuition.
  - rewrite IH. unfold pool_store. rewrite dict_set_keys. intuition congruence.
Qed.

Lemma fold_store_NoDup (completed : list (string * Result CrawlResult)) :
  forall acc : list (string * CrawlResult),
    List.NoDup (List.map fst acc) ->
    List.NoDup (List.map fst (fold_left pool_store completed acc)).
Proof.
  induction completed as [|[k o] l IH]; intros acc H; simpl; [exact H|].
  apply IH. apply dict_set_NoDup. exact H.
Qed.

(** The entry of [u] is the one stored for a future of [u]. *)
Lemma fold_store_get (completed : list (string * Result CrawlResult)) :
  forall (acc : list (string * CrawlResult)) (u : string),
    In u (List.map fst completed) ->
    exists o : Result CrawlResult,
      In (u, o) completed
      /\ dict_get u (fold_left pool_store completed acc) = Some (entry_of u o).
Proof.
  induction completed as [|[k o] l IH]; intros acc u Hin; [destruct Hin|].
  simpl in *.
  destruct (in_dec string_dec u (List.map fst l)) as [Hl|Hl].
  - destruct (IH (dict_set k (entry_of k o) acc) u Hl) as (o' & Ho' & Hg).
    exists o'. split; [right; exact Ho'|exact Hg].
  - destruct Hin as [Hk|Hk]; [|contradiction]. subst k.
    exists o. split; [left; reflexivity|].
    assert (Hkeep : forall (l' : list (string * Result CrawlResult))
                      (acc' : list (string * CrawlResult)),
               ~ In u (List.map fst l') ->
               dict_get u (fold_left pool_store l' acc') = dict_get u acc').
    { induction l' as [|[k' o'] l' IH']; intros acc' Hn; [reflexivity|].
      simpl in *. rewrite IH' by tauto.
      apply dict_get_set_ne. intros ->. apply Hn. left; reflexivity. }
    rewrite Hkeep by exact Hl. apply dict_get_set_eq.
Qed.


Section Schedule.

Variables netloc path : string -> string.
Variable C : Type.
Variable get_pool : C -> CrawlerPool.
Variable put_pool : CrawlerPool -> C -> C.
Variable crawl : string -> C -> World -> Result CrawlResult * C * World.

Lemma run_tasks_urls (urls : list string) : forall (c : C) (w : World),
  List.map fst (fst (fst (run_tasks netloc path C get_pool put_pool crawl urls c w)))
  = urls.
Proof.
  induction urls as [|u urls IH]; intros c w; [reflexivity|].
  simpl.
  destruct (_rate_limited_crawl netloc path C get_pool put_pool crawl u c w)
    as [[o c1] w1].
  specialize (IH c1 w1).
  destruct (run_tasks netloc path C get_pool put_pool crawl urls c1 w1)
    as [[rest c2] w2].
  simpl in *. rewrite IH. reflexivity.
Qed.

Lemma crawl_batch_gathers (urls : list string) (c : C) (w : World) :
  fst (fst (crawl_batch netloc path C get_pool put_pool crawl urls c w))
  = gather (fst (fst (run_tasks netloc path C get_pool put_pool crawl urls c w))).
Proof.
  unfold crawl_batch. destruct urls as [|u0 urls']; [reflexivity|].
  destruct (run_tasks netloc path C get_pool put_pool crawl (u0 :: urls') c w)
    as [[completed c1] w1].
  reflexivity.
Qed.

(** [crawl_batch] returns one entry for each URL it was given. *)
Lemma crawl_batch_keys (urls : list string) (c : C) (w : World) :
  let results := fst (fst (crawl_batch netloc path C get_pool put_pool crawl urls c w)) in
  List.NoDup (List.map fst results)
  /\ (forall u : string, In u (List.map fst results) <-> In u urls).
Proof.
  cbv zeta. rewrite crawl_batch_gathers.
  pose proof (run_tasks_urls urls c w) as Hu.
  destruct (run_tasks netloc path C get_pool put_pool crawl urls c w)
    as [[completed c1] w1].
  cbn [fst] in *. rewrite gather_fold. split.
  - apply fold_store_NoDup. constructor.
  - intros u. rewrite fold_store_keys, Hu. simpl. tauto.
Qed.


End Schedule.



(** *** The throttle *)

Lemma throttle_same_wait (d : string) (p p' : CrawlerPool) (w : World) :
  rate_limit p = rate_limit p' ->
  domain_last_crawl p !! d = domain_last_crawl p' !! d ->
  snd (throttle d p w) = snd (throttle d p' w).
Proof.
  intros Hr Hd. unfold throttle. rewrite Hr, Hd. reflexivity.
Qed.

Lemma throttle_other_domains (d d' : string) (p : CrawlerPool) (w : World) :
  d' <> d ->
  domain_last_crawl (fst (throttle d p w)) !! d' = domain_last_crawl p !! d'.
Proof.
  intros Hne. unfold throttle. cbn [fst set_last_crawl domain_last_crawl].
  apply lookup_insert_ne. congruence.
Qed.

Lemma throttle_clock (d : string) (p : CrawlerPool) (w : World) :
  (forall k : nat, 0 <= w_rand w k) ->
  w_now w <= w_now (snd (throttle d p w))
  /\ w_rand (snd (throttle d p w)) = w_rand w.
Proof.
  intros Hr. unfold throttle. cbn [snd].
  set (delay_needed := Qmax 0 (rate_limit p - (w_now w - default 0 (domain_last_crawl p !! d)))).
  destruct (Qltb 0 delay_needed) eqn:E.
  - apply Qltb_lt in E. unfold uniform, random, sleep. cbn.
    split; [|reflexivity]. specialize (Hr (w_drawn w)). nra.
  - split; [lra|reflexivity].
Qed.

Lemma throttle_all_cons (netloc path : string -> string) (arrival : Q) (u : string)
    (tasks : list (Q * string)) (p : CrawlerPool) (w : World) :
  throttle_all netloc path ((arrival, u) :: tasks) p w
  = let w0 := {| w_now := Qmax (w_now w) arrival; w_net := w_net w;
                 w_sent := w_sent w; w_rand := w_rand w; w_drawn := w_drawn w;
                 w_fresh := w_fresh w; w_trace := w_trace w |} in
    let '(p1, w1) := throttle (_extract_domain netloc path u) p w0 in
    let '(rest, p2, w2) := throttle_all netloc path tasks p1 w1 in
    (w_now w1 :: rest, p2, w2).
Proof. reflexivity. Qed.

Lemma throttle_all_exits (netloc path : string -> string) (tasks : list (Q * string)) :
  forall (p : CrawlerPool) (w : World),
    (forall k : nat, 0 <= w_rand w k) ->
    let exits := fst (fst (throttle_all netloc path tasks p w)) in
    Forall2 (fun a x => fst a <= x) tasks exits
    /\ Forall (fun x => w_now w <= x) exits
    /\ StronglySorted Qle exits.
Proof.
  induction tasks as [|[arrival u] tasks IH]; intros p w Hr.
  - simpl. repeat split; constructor.
  - rewrite throttle_all_cons. cbv zeta.
    set (w0 := {| w_now := Qmax (w_now w) arrival; w_net := w_net w;
                  w_sent := w_sent w; w_rand := w_rand w; w_drawn := w_drawn w;
                  w_fresh := w_fresh w; w_trace := w_trace w |}).
    pose proof (throttle_clock (_extract_domain netloc path u) p w0 Hr) as [Hc Hrand].
    destruct (throttle (_extract_domain netloc path u) p w0) as [p1 w1].
    cbn [snd] in Hc, Hrand.
    assert (Hr1 : forall k : nat, 0 <= w_rand w1 k) by (rewrite Hrand; exact Hr).
    specialize (IH p1 w1 Hr1).
    destruct (throttle_all netloc path tasks p1 w1) as [[rest p2] w2].
    cbn [fst] in *. destruct IH as (Ha & Hn & Hs).
    assert (Hw : w_now w <= w_now w1 /\ arrival <= w_now w1).
    { simpl in Hc. split.
      - eapply Qle_trans; [apply Q.le_max_l|exact Hc].
      - eapply Qle_trans; [apply Q.le_max_r|exact Hc]. }
    destruct Hw as [Hw Harr].
    split; [constructor; [exact Harr|exact Ha]|].
    split.
    + constructor; [exact Hw|].
      rewrite List.Forall_forall in Hn |- *. intros x Hx.
      specialize (Hn x Hx). lra.
    + constructor; [exact Hs|exact Hn].
Qed.

Lemma Forall2_nth_error {A B} (R : A -> B -> Prop) (l : list A) (l' : list B) :
  Forall2 R l l' ->
  forall (i : nat) (a : A) (b : B),
    nth_error l i = Some a -> nth_error l' i = Some b -> R a b.
Proof.
  induction 1 as [|x y l l' Hxy _ IH]; intros [|i] a b Ha Hb; simpl in *;
    try discriminate.
  - congruence.
  - exact (IH i a b Ha Hb).
Qed.

Lemma StronglySorted_adjacent (l : list Q) :
  StronglySorted Qle l ->
  forall (i : nat) (x y : Q),
    nth_error l i = Some x -> nth_error l (S i) = Some y -> x <= y.
Proof.
  induction 1 as [|z l Hs IH Hall]; intros [|i] x y Hx Hy; simpl in *;
    try discriminate.
  - injection Hx as <-. destruct l as [|z' l]; [discriminate|].
    injection Hy as <-. inversion Hall; assumption.
  - exact (IH i x y Hx Hy).
Qed.

(** C3, as amended. The throttle block of [_rate_limited_crawl] runs under
    one lock for the whole pool. Tasks pass through it one at a time: a
    task leaves it no earlier than it arrived and no earlier than the task
    that took the lock before it, whatever the domains of the two. What is
    per-domain is the wait a task computes for itself: it is decided by the
    rate limit, by the last-crawl time of its own domain and by the instant
    the task enters the block, and the block updates the last-crawl time of
    that domain only. *)
Theorem throttle_one_lock (netloc path : string -> string) :
  (forall (tasks : list (Q * string)) (p : CrawlerPool) (w : World),
     (forall k : nat, 0 <= w_rand w k) ->
     let exits := fst (fst (throttle_all netloc path tasks p w)) in
     length exits = length tasks
     /\ (forall (i : nat) (a : Q * string) (x : Q),
           nth_error tasks i = Some a -> nth_error exits i = Some x -> fst a <= x)
     /\ (forall (i : nat) (x y : Q),
           nth_error exits i = Some x -> nth_error exits (S i) = Some y -> x <= y))
  /\ (forall (d : string) (p p' : CrawlerPool) (w : World),
        rate_limit p = rate_limit p' ->
        domain_last_crawl p !! d = domain_last_crawl p' !! d ->
        snd (throttle d p w) = snd (throttle d p' w))
  /\ (forall (d d' : string) (p : CrawlerPool) (w : World),
        d' <> d ->
        domain_last_crawl (fst (throttle d p w)) !! d' = domain_last_crawl p !! d').
Proof.
  split; [|split; [exact throttle_same_wait|exact throttle_other_domains]].
  intros tasks p w Hr exits.
  destruct (throttle_all_exits netloc path tasks p w Hr) as (Ha & _ & Hs).
  fold exits in Ha, Hs.
  split; [symmetry; eapply Forall2_length; exact Ha|].
  split.
  - intros i a x Hi Hx. exact (Forall2_nth_error _ _ _ Ha i a x Hi Hx).
  - exact (StronglySorted_adjacent exits Hs).
Qed.

Lemma throttle_one_lock_witness :
  let w := Scenario.world_with Scenario.dead_net in
  let exits := fst (fst (throttle_all Urls.host_of Urls.path_of
                           PoolScenario.tasks PoolScenario.busy w)) in
  (forall k : nat, 0 <= w_rand w k)
  /\ length exits = length PoolScenario.tasks
  /\ (forall (i : nat) (a : Q * string) (x : Q),
        nth_error PoolScenario.tasks i = Some a -> nth_error exits i = Some x ->
        fst a <= x)
  /\ (forall (i : nat) (x y : Q),
        nth_error exits i = Some x -> nth_error exits (S i) = Some y -> x <= y).
Proof.
  assert (Hr : forall k : nat,
             0 <= w_rand (Scenario.world_with Scenario.dead_net) k).
  { intros k. simpl. lra. }
  split; [exact Hr|].
  exact (proj1 (throttle_one_lock Urls.host_of Urls.path_of)
           PoolScenario.tasks PoolScenario.busy
           (Scenario.world_with Scenario.dead_net) Hr).
Defined.

(** C3, as stated, fails. Two tasks are dispatched at second 1000, one of
    slow.onion and then one of fast.onion. When the pool has crawled
    nothing, both leave the throttle at once. When slow.onion was crawled
    at second 1000, its task sleeps 2.25 seconds holding the lock, and the
    task of fast.onion, whose own domain needs no wait, leaves the throttle
    at second 1002.25. *)
Lemma throttle_blocks_other_domain_counterexample :
  let w := Scenario.world_with Scenario.dead_net in
  exit_of Urls.host_of Urls.path_of 1 PoolScenario.tasks PoolScenario.idle w
    = Some 1000
  /\ exit_of Urls.host_of Urls.path_of 1 PoolScenario.tasks PoolScenario.busy w
    = Some (1000 + (2 + (0 + ((1 # 2) - 0) * (1 # 2))))
  /\ ~ domains_isolated Urls.host_of Urls.path_of.
Proof.
  assert (H1 : exit_of Urls.host_of Urls.path_of 1 PoolScenario.tasks
                 PoolScenario.idle (Scenario.world_with Scenario.dead_net)
               = Some 1000) by (vm_compute; reflexivity).
  assert (H2 : exit_of Urls.host_of Urls.path_of 1 PoolScenario.tasks
                 PoolScenario.busy (Scenario.world_with Scenario.dead_net)
               = Some (1000 + (2 + (0 + ((1 # 2) - 0) * (1 # 2)))))
    by (vm_compute; reflexivity).
  split; [exact H1|]. split; [exact H2|].
  intros H.
  specialize (H PoolScenario.idle PoolScenario.busy
                (Scenario.world_with Scenario.dead_net)
                (1000, "http://slow.onion/a"%string)
                (1000, "http://fast.onion/b"%string)
                1000 (1000 + (2 + (0 + ((1 # 2) - 0) * (1 # 2))))).
  assert (Hq : ~ 1000 == 1000 + (2 + (0 + ((1 # 2) - 0) * (1 # 2)))).
  { vm_compute. discriminate. }
  apply Hq, H.
  - vm_compute. discriminate.
  - reflexivity.
  - intros d Hd. unfold PoolScenario.busy, set_last_crawl.
    cbn [domain_last_crawl PoolScenario.idle].
    symmetry. apply lookup_insert_ne.
    intros E. apply Hd. rewrite <- E. vm_compute. reflexivity.
  - exact H1.
  - exact H2.
Qed.

End PoolFacts.

(** ** retry_utils.py *)

Module RetryFacts.

(** The retry helper does what its documentation says: on an operation
    that raises three times and then returns, [retry_operation] with the
    default arguments returns that result after three sleeps of 1, 2 and 4
    seconds, each lengthened by a jitter of half a random draw; with draws
    between 0 and 1 these sleeps increase strictly. *)
Lemma retry_operation_recovers (w : World) :
  let out := RetryScenario.retry w in
  let j := fun k : nat => 0 + ((1 # 2) - 0) * w_rand w (w_drawn w + k)%nat in
  fst out = Ok 3%nat
  /\ fst (snd out) = 4%nat
  /\ sleeps (w_trace (snd (snd out)))
     = sleeps (w_trace w) ++ [1 + j 0%nat; 1 * 2 + j 1%nat; 1 * 2 * 2 + j 2%nat]
  /\ ((forall k : nat, 0 <= w_rand w k <= 1) ->
      1 + j 0%nat < 1 * 2 + j 1%nat /\ 1 * 2 + j 1%nat < 1 * 2 * 2 + j 2%nat).
Proof.
  unfold RetryScenario.retry, Retry.retry_operation.
  change (Z.to_nat (3 + 1)) with 4%nat.
  cbn -[Qplus Qmult Qminus Qlt Qle Nat.add].
  change (0 + 1 <? 3)%Z with true. change (0 + 1 + 1 <? 3)%Z with true.
  cbn -[Qplus Qmult Qminus Qlt Qle Nat.add].
  rewrite !sleeps_app. cbn -[Qplus Qmult Qminus Qlt Qle Nat.add].
  rewrite <- !app_assoc. cbn -[Qplus Qmult Qminus Qlt Qle Nat.add].
  rewrite Nat.add_0_r.
  replace (w_drawn w + 1)%nat with (S (w_drawn w)) by lia.
  replace (w_drawn w + 2)%nat with (S (S (w_drawn w))) by lia.
  split; [reflexivity|]. split; [reflexivity|]. split; [reflexivity|].
  intros H.
  pose proof (H (w_drawn w)). pose proof (H (S (w_drawn w))).
  pose proof (H (S (S (w_drawn w)))). split; lra.
Qed.

(** These sleeps are the jittered delays of the specification: the jitter
    belongs to [retry_operation]. *)
Lemma retry_operation_jittered (w : World) (ds : list Q) :
  sleeps (w_trace (snd (snd (RetryScenario.retry w)))) = sleeps (w_trace w) ++ ds ->
  jittered_backoff 1 2 (w_rand w) (w_drawn w) ds.
Proof.
  intros H.
  destruct (retry_operation_recovers w) as (_ & _ & Hs & _).
  rewrite Hs in H. apply app_inv_head in H. subst ds.
  intros k d Hk.
  destruct k as [|[|[|k]]]; cbn in Hk; try (destruct k; discriminate Hk);
    injection Hk as <-;
    change (Z.of_nat 0) with 0%Z; change (Z.of_nat 1) with 1%Z;
    change (Z.of_nat 2) with 2%Z; ring.
Qed.

End RetryFacts.

(** ** enhanced_crawler.py *)

Module CrawlerFacts.
Import Crawler.

(** C1, at the failing input. The fetch of http://shop.onion/ succeeds and
    the page is parsed, storing is enabled, and the record of the URL
    exists with status [new]. The links found are added as [new] records,
    but the lookup of the key [was_filtered] raises before [update_link]
    is reached: the record ends with status [error], not [active], and the
    history receives an [error] entry. *)
Theorem crawl_onion_success_recorded_as_error :
  let w := Scenario.world_with Scenario.live_net in
  let out := CrawlerScenario.crawl_onion "http://shop.onion/" 0 true
               CrawlerScenario.crawler w in
  let data := fst (fst out) in
  let c' := snd (fst out) in
  raise_for_status Scenario.ok_response = Ok Scenario.ok_response
  /\ CrawlerScenario.status_of "http://shop.onion/" CrawlerScenario.crawler
     = Some "new"%string
  /\ cr_title data = Some "Hidden wiki"%string
  /\ cr_links data = ["http://aaa.onion/"; "http://bbb.onion/"]%string
  /\ cr_errors data = ["Error crawling http://shop.onion/: 'was_filtered'"%string]
  /\ CrawlerScenario.status_of "http://shop.onion/" c' = Some "error"%string
  /\ CrawlerScenario.status_of "http://aaa.onion/" c' = Some "new"%string
  /\ CrawlerScenario.status_of "http://bbb.onion/" c' = Some "new"%string
  /\ List.map (fun h => (Database.outcome h, Database.error_message h))
       (Database.crawl_history (link_db c'))
     = [("error"%string, Some "'was_filtered'"%string)].
Proof. vm_compute. repeat split; reflexivity. Qed.

(** C2, at the failing input. The network refuses the first three requests
    and answers the fourth. [crawl_onion] turns the first refusal into a
    result with an error and raises nothing, so [retry_operation] returns
    at once: one request is sent, nothing is slept, and the result is the
    failed crawl. *)
Theorem crawl_with_recovery_does_not_retry :
  let w := Scenario.world_with Scenario.flaky_net in
  let out := CrawlerScenario.crawl_with_recovery "http://shop.onion/" 0
               CrawlerScenario.crawler w in
  let data := fst (fst out) in
  cr_errors data = ["Error crawling http://shop.onion/: timed out"%string]
  /\ cr_content data = EmptyString
  /\ cr_links data = []
  /\ w_trace (snd out) = [EvRequest Scenario.tor "get" "http://shop.onion/"]
  /\ sleeps (w_trace (snd out)) = []
  /\ w_sent (snd out) = 1%nat.
Proof. vm_compute. repeat split; reflexivity. Qed.

(** C4, at the failing input. The directory http://dir.onion/ and the
    search engine http://torch.onion are blacklisted. Directory discovery
    requests the first and leaves its record with status [error]; the
    search-engine query requests the second. The batch selection is the
    one that leaves them out. *)
Theorem blacklisted_links_are_crawled :
  let w := Scenario.world_with Scenario.live_net in
  let c := CrawlerScenario.crawler in
  let found := CrawlerScenario.discover_from_directories 5 c w in
  let searched := CrawlerScenario.search_engines_query "market" 3 c w in
  CrawlerScenario.status_of "http://dir.onion/" c = Some "blacklisted"%string
  /\ CrawlerScenario.status_of "http://torch.onion" c = Some "blacklisted"%string
  /\ request_urls (w_trace (snd found)) = ["http://dir.onion/"%string]
  /\ CrawlerScenario.status_of "http://dir.onion/" (snd (fst found))
     = Some "error"%string
  /\ request_urls (w_trace (snd searched))
     = ["http://torch.onion/search?query=market"%string]
  /\ batch_selection Crawler.defaults 15 c w = ["http://shop.onion/"%string].
Proof. vm_compute. repeat split; reflexivity. Qed.

Section General.

Variable urljoin : string -> string -> string.
Variables netloc path : string -> string.
Variable cfg : Config.

(** [crawl_onion] raises nothing, so [crawl_with_recovery] is one call of
    [crawl_onion] and never reaches a retry, whatever the network does. *)
Lemma crawl_with_recovery_is_one_crawl (u : string) (max_depth : nat)
    (c : EnhancedTorCrawler) (w : World) :
  (0 <= MAX_RETRIES cfg)%Z ->
  crawl_with_recovery urljoin netloc path cfg u max_depth c w
  = crawl_onion urljoin netloc path cfg u max_depth true c w.
Proof.
  intros Hm. unfold crawl_with_recovery, Retry.retry_operation.
  destruct (Z.to_nat (MAX_RETRIES cfg + 1)) as [|todo] eqn:E; [lia|].
  cbn [Retry.retry_loop]. unfold crawl_thunk. cbn [fst snd].
  destruct (crawl_onion urljoin netloc path cfg u max_depth true c w) as [[r c1] w1].
  reflexivity.
Qed.

Lemma find_app_hit {A} (p : A -> bool) (l l' : list A) (x : A) :
  List.find p l = Some x -> List.find p (l ++ l') = Some x.
Proof.
  induction l as [|y l IH]; simpl; [discriminate|].
  destruct (p y); [trivial|exact IH].
Qed.

Lemma add_link_keeps (u href ttl descr cat preview source : string)
    (tgs : option (list string)) (meta : option (list (string * Database.Json)))
    (now : Q) (db : Database.OnionLinkDatabase) (r : Database.LinkRecord) :
  Database.find_link u db = Some r ->
  Database.find_link u
    (snd (Database.add_link href ttl descr cat preview source tgs meta now db))
  = Some r.
Proof.
  intros H. unfold Database.add_link.
  destruct (negb (Database.same_thread db)); [exact H|].
  destruct (Database.find_link href db); [exact H|].
  unfold Database.find_link in *. cbn [snd Database.onion_links].
  apply find_app_hit. exact H.
Qed.

Lemma add_link_history (href ttl descr cat preview source : string)
    (tgs : option (list string)) (meta : option (list (string * Database.Json)))
    (now : Q) (db : Database.OnionLinkDatabase) :
  Database.crawl_history
    (snd (Database.add_link href ttl descr cat preview source tgs meta now db))
  = Database.crawl_history db.
Proof.
  unfold Database.add_link.
  destruct (negb (Database.same_thread db)); [reflexivity|].
  destruct (Database.find_link href db); reflexivity.
Qed.

Lemma add_link_thread (href ttl descr cat preview source : string)
    (tgs : option (list string)) (meta : option (list (string * Database.Json)))
    (now : Q) (db : Database.OnionLinkDatabase) :
  Database.same_thread
    (snd (Database.add_link href ttl descr cat preview source tgs meta now db))
  = Database.same_thread db.
Proof.
  unfold Database.add_link.
  destruct (negb (Database.same_thread db)); [reflexivity|].
  destruct (Database.find_link href db); reflexivity.
Qed.

Lemma anchors_keep_refl (u : string) (f : Frame) : anchors_keep u f f.
Proof. repeat split; auto. Qed.

Lemma anchors_keep_trans (u : string) (f1 f2 f3 : Frame) :
  anchors_keep u f1 f2 -> anchors_keep u f2 f3 -> anchors_keep u f1 f3.
Proof.
  intros (A1 & A2 & A3 & A4 & A5 & A6 & A7 & A8) (B1 & B2 & B3 & B4 & B5 & B6 & B7 & B8).
  repeat split; try congruence. intros r Hr. apply B6, A6, Hr.
Qed.

Lemma collect_anchor_keeps (u : string) (store_in_db : bool)
    (a_tag : string * string) (f : Frame) :
  exists f' : Frame,
    collect_anchor urljoin u store_in_db a_tag f = (Ok tt, f')
    /\ anchors_keep u f f'.
Proof.
  destruct a_tag as [href0 link_text]. unfold collect_anchor.
  destruct (is_onion (if is_absolute href0 then href0 else urljoin u href0)).
  - destruct store_in_db.
    + unfold bind, update_data, on_db, ret. cbn [crawled_data self world].
      match goal with
      | |- context [Database.add_link ?h ?t ?d ?c ?p ?s ?g ?m ?n ?db] =>
          pose proof (fun r => add_link_keeps u h t d c p s g m n db r) as Hk;
          pose proof (add_link_history h t d c p s g m n db) as Hh;
          pose proof (add_link_thread h t d c p s g m n db) as Ht;
          destruct (Database.add_link h t d c p s g m n db) as [b db']
      end.
      eexists. split; [reflexivity|].
      cbn [snd] in Hk, Hh, Ht. repeat split; auto.
    + unfold bind, update_data, ret. cbn [crawled_data self world].
      eexists. split; [reflexivity|]. repeat split; auto.
  - eexists. split; [reflexivity|]. apply anchors_keep_refl.
Qed.

Lemma for_each_anchors_keep (u : string) (store_in_db : bool)
    (anchors : list (string * string)) :
  forall f : Frame,
  exists f' : Frame,
    for_each anchors (collect_anchor urljoin u store_in_db) f = (Ok tt, f')
    /\ anchors_keep u f f'.
Proof.
  induction anchors as [|a anchors IH]; intros f.
  - exists f. split; [reflexivity|apply anchors_keep_refl].
  - cbn [for_each]. unfold bind.
    destruct (collect_anchor_keeps u store_in_db a f) as (f1 & H1 & K1).
    rewrite H1. destruct (IH f1) as (f2 & H2 & K2).
    exists f2. split; [exact H2|exact (anchors_keep_trans u f f1 f2 K1 K2)].
Qed.

Lemma store_crawl_raises (u : string) (response_time : Q) (f : Frame) :
  cr_was_filtered (crawled_data f) = None ->
  store_crawl cfg u response_time f = (Raise "'was_filtered'", f).
Proof.
  intros H. unfold store_crawl, bind, read_data, time_time, throw.
  rewrite H. reflexivity.
Qed.

(** With storing enabled, a fetch that is answered without an HTTP error
    always ends in the [KeyError] of the key [was_filtered]. *)
Lemma fetch_and_store_raises (u : string) (c : EnhancedTorCrawler) (w : World)
    (s : Session) (resp : Response) :
  session c = Some s ->
  w_net w (w_sent w) = Answered resp ->
  raise_for_status resp = Ok resp ->
  exists f : Frame,
    fetch_and_store urljoin cfg u true
      {| crawled_data := new_crawled_data u; self := c; world := w |}
    = (Raise "'was_filtered'", f)
    /\ cr_errors (crawled_data f) = []
    /\ error_count (self f) = error_count c
    /\ (forall r : Database.LinkRecord,
          Database.find_link u (link_db c) = Some r ->
          Database.find_link u (link_db (self f)) = Some r)
    /\ Database.crawl_history (link_db (self f)) = Database.crawl_history (link_db c)
    /\ Database.same_thread (link_db (self f)) = Database.same_thread (link_db c).
Proof.
  intros Hs Hnet Hok.
  unfold fetch_and_store, bind, time_time, session_get, update_data, lift.
  cbn [crawled_data self world]. rewrite Hs. unfold send. rewrite Hnet, Hok.
  cbn [crawled_data self world].
  destruct (pg_title (page resp)) as [t|];
    destruct (pg_description (page resp)) as [t'|];
    unfold ret; cbn [crawled_data self world];
    match goal with
    | |- context [for_each ?l ?b ?f0] =>
        destruct (for_each_anchors_keep u true l f0)
          as (f3 & Hfe & Hw & Hflt & Herr & _ & Hcnt & Hrec & Hhist & Hthr);
        rewrite Hfe
    end;
    cbn [crawled_data self world] in Hflt, Herr, Hcnt, Hrec, Hhist, Hthr;
    rewrite store_crawl_raises by (rewrite Hflt; reflexivity);
    exists f3; (split; [reflexivity|]);
    (split; [rewrite Herr; reflexivity|]);
    (split; [exact Hcnt|]); (split; [exact Hrec|]); (split; [exact Hhist|exact Hthr]).
Qed.

(** A refused request raises in [session.get]. *)
Lemma fetch_and_store_refused (u : string) (store_in_db : bool)
    (c : EnhancedTorCrawler) (w : World) (s : Session) (err : string) (d : Q) :
  session c = Some s ->
  w_net w (w_sent w) = Refused err d ->
  fetch_and_store urljoin cfg u store_in_db
    {| crawled_data := new_crawled_data u; self := c; world := w |}
  = (Raise err,
     {| crawled_data := new_crawled_data u; self := c;
        world := snd (send s "get" u w) |}).
Proof.
  intros Hs Hnet.
  unfold fetch_and_store, bind, time_time, session_get.
  cbn [crawled_data self world]. rewrite Hs. unfold send. rewrite Hnet.
  reflexivity.
Qed.

(** When the first part of the [try] raises, the rest of [crawl_onion] is
    the [except] block. *)
Lemma crawl_onion_on_error (u : string) (max_depth : nat) (store_in_db : bool)
    (c : EnhancedTorCrawler) (w : World) (s : Session) (e : string) (f : Frame) :
  session c = Some s ->
  fetch_and_store urljoin cfg u store_in_db
    {| crawled_data := new_crawled_data u; self := c; world := w |} = (Raise e, f) ->
  crawl_onion urljoin netloc path cfg u max_depth store_in_db c w
  = (let f1 := on_crawl_error u store_in_db (w_now w) e f in
     (crawled_data f1, self f1, world f1)).
Proof.
  intros Hs Hf.
  assert (Hb : forall k : unit -> Try unit,
             bind (fetch_and_store urljoin cfg u store_in_db) k
               {| crawled_data := new_crawled_data u; self := c; world := w |}
             = (Raise e, f)).
  { intros k. unfold bind. rewrite Hf. reflexivity. }
  destruct max_depth; cbn [crawl_onion]; rewrite Hs; cbn [Connection.is_none];
    rewrite !Hb; reflexivity.
Qed.

Lemma on_crawl_error_records (u e : string) (start_time : Q) (f : Frame)
    (r : Database.LinkRecord) :
  Database.same_thread (link_db (self f)) = true ->
  Database.find_link u (link_db (self f)) = Some r ->
  error_recorded u e r f (on_crawl_error u true start_time e f).
Proof.
  intros Ht Hr. unfold error_recorded, on_crawl_error.
  unfold Database.update_link_status, Database.update_link.
  rewrite Ht. cbn [negb].
  pose proof (DatabaseFacts.update_rows_hit u
                {| Database.p_title := None; Database.p_description := None;
                   Database.p_category := None; Database.p_content_preview := None;
                   Database.p_last_checked := None;
                   Database.p_status := Some "error"%string;
                   Database.p_discovery_source := None;
                   Database.p_trust_score := None; Database.p_tags := None;
                   Database.p_metadata := None |}
                (w_now (world f)) (Database.onion_links (link_db (self f))) r Hr)
    as [_ Hhit].
  destruct (Database.update_rows u _ (w_now (world f))
              (Database.onion_links (link_db (self f)))) as [n rows].
  cbn [snd] in Hhit.
  unfold Database.add_crawl_history, Database.find_link.
  cbn [Database.onion_links Database.same_thread negb]. rewrite Hhit.
  cbn [crawled_data self link_db error_count set_error_count set_link_db
       Database.onion_links Database.crawl_history cr_errors set_errors].
  split; [reflexivity|]. split; [reflexivity|].
  split; [eexists; split; [exact Hhit|reflexivity]|].
  eexists. split; [reflexivity|]. repeat split; reflexivity.
Qed.

(** Whatever the page, the depth and the database: with storing enabled, a
    crawl whose fetch is answered without an HTTP error returns the error
    of the missing key, counts as an error, puts the status [error] in the
    record of the URL and adds an [error] entry to its history. The crawl
    runs on the thread that opened the connection. *)
Lemma crawl_onion_store_never_active (u : string) (max_depth : nat)
    (c : EnhancedTorCrawler) (w : World) (s : Session) (resp : Response)
    (r : Database.LinkRecord) :
  session c = Some s ->
  w_net w (w_sent w) = Answered resp ->
  raise_for_status resp = Ok resp ->
  Database.same_thread (link_db c) = true ->
  Database.find_link u (link_db c) = Some r ->
  let out := crawl_onion urljoin netloc path cfg u max_depth true c w in
  cr_errors (fst (fst out)) = [("Error crawling " ++ u ++ ": 'was_filtered'")%string]
  /\ error_count (snd (fst out)) = (error_count c + 1)%Z
  /\ (exists r' : Database.LinkRecord,
        Database.find_link u (link_db (snd (fst out))) = Some r'
        /\ Database.status r' = "error"%string)
  /\ (exists h : Database.CrawlHistoryEntry,
        Database.crawl_history (link_db (snd (fst out)))
          = Database.crawl_history (link_db c) ++ [h]
        /\ Database.outcome h = "error"%string
        /\ Database.error_message h = Some "'was_filtered'"%string
        /\ Database.onion_id h = Database.id r).
Proof.
  intros Hs Hnet Hok Ht Hr.
  destruct (fetch_and_store_raises u c w s resp Hs Hnet Hok)
    as (f & Hf & Herr & Hcnt & Hrec & Hhist & Hthr).
  cbv zeta. rewrite (crawl_onion_on_error u max_depth true c w s _ f Hs Hf).
  cbv zeta. cbn [fst snd]. rewrite Ht in Hthr.
  destruct (on_crawl_error_records u "'was_filtered'" (w_now w) f r Hthr (Hrec r Hr))
    as (E1 & E2 & E3 & E4).
  rewrite E1, E2, Herr, Hcnt. rewrite Hhist in E4.
  split; [reflexivity|]. split; [reflexivity|]. split; [exact E3|exact E4].
Qed.

(** The failure path does what the specification says: when the request is
    refused, the result carries the error, the record of the URL gets the
    status [error] and the history gets an entry with the message. The
    crawl runs on the thread that opened the connection. *)
Lemma crawl_onion_refused_recorded (u : string) (max_depth : nat)
    (c : EnhancedTorCrawler) (w : World) (s : Session) (err : string) (d : Q)
    (r : Database.LinkRecord) :
  session c = Some s ->
  w_net w (w_sent w) = Refused err d ->
  Database.same_thread (link_db c) = true ->
  Database.find_link u (link_db c) = Some r ->
  let out := crawl_onion urljoin netloc path cfg u max_depth true c w in
  cr_errors (fst (fst out)) = [("Error crawling " ++ u ++ ": " ++ err)%string]
  /\ (exists r' : Database.LinkRecord,
        Database.find_link u (link_db (snd (fst out))) = Some r'
        /\ Database.status r' = "error"%string)
  /\ (exists h : Database.CrawlHistoryEntry,
        Database.crawl_history (link_db (snd (fst out)))
          = Database.crawl_history (link_db c) ++ [h]
        /\ Database.outcome h = "error"%string
        /\ Database.error_message h = Some err
        /\ Database.onion_id h = Database.id r).
Proof.
  intros Hs Hnet Ht Hr.
  pose proof (fetch_and_store_refused u true c w s err d Hs Hnet) as Hf.
  cbv zeta. rewrite (crawl_onion_on_error u max_depth true c w s _ _ Hs Hf).
  cbv zeta. cbn [fst snd].
  destruct (on_crawl_error_records u err (w_now w)
              {| crawled_data := new_crawled_data u; self := c;
                 world := snd (send s "get" u w) |} r Ht Hr)
    as (E1 & _ & E3 & E4).
  rewrite E1. split; [reflexivity|]. split; [exact E3|exact E4].
Qed.

End General.

End CrawlerFacts.

(** ** retry_utils.py: laws of [retry_operation] *)

Module RetryLaws.

Lemma jittered_nth (ds : list Q) :
  forall (d f : Q) (rand : nat -> Q) (first k : nat) (x : Q),
    jittered d f rand first ds ->
    nth_error ds k = Some x ->
    x == d * f ^ Z.of_nat k + (1 # 2) * rand (first + k)%nat.
Proof.
  induction ds as [|y ds IH]; intros d f rand first k x Hj Hk.
  - destruct k; discriminate.
  - destruct Hj as [Hy Hj]. destruct k as [|k].
    + cbn in Hk. injection Hk as <-. rewrite Hy, Nat.add_0_r.
      change (Z.of_nat 0) with 0%Z. ring.
    + cbn in Hk. rewrite (IH _ _ _ _ _ _ Hj Hk).
      replace (S first + k)%nat with (first + S k)%nat by lia.
      rewrite Nat2Z.inj_succ. unfold Z.succ.
      rewrite Qpower_plus' by lia. rewrite Qpower_1_r. ring.
Qed.

Section Laws.

Variables (S A : Type).
Variable get_world : S -> World.
Variable put_world : World -> S -> S.
Variable function : S -> Result A * S.

(** The state gives back the world that was put into it, and the operation
    retried leaves the world as it found it. *)
Hypothesis get_put : forall (w : World) (s : S), get_world (put_world w s) = w.
Hypothesis function_quiet : forall s : S, get_world (snd (function s)) = get_world s.

Lemma retry_loop_jittered (todo : nat) :
  forall (attempt max_retries : Z) (delay factor : Q) (last : option string) (s : S),
    let out := Retry.retry_loop S A get_world put_world function todo attempt
                 max_retries delay factor last s in
    exists ds : list Q,
      sleeps (w_trace (get_world (snd out))) = sleeps (w_trace (get_world s)) ++ ds
      /\ jittered delay factor (w_rand (get_world s)) (w_drawn (get_world s)) ds
      /\ (length ds <= Z.to_nat (max_retries - attempt))%nat
      /\ w_drawn (get_world (snd out)) = (w_drawn (get_world s) + length ds)%nat
      /\ w_rand (get_world (snd out)) = w_rand (get_world s).
Proof.
  induction todo as [|todo IH]; intros attempt max_retries delay factor last s.
  - cbn. exists []. rewrite app_nil_r. cbn. repeat split; lia.
  - cbn [Retry.retry_loop].
    pose proof (function_quiet s) as Hq.
    destruct (function s) as [[a|e] s1]; cbn [snd] in Hq.
    + cbn. exists []. rewrite app_nil_r, Hq. cbn. repeat split; lia.
    + destruct (attempt <? max_retries)%Z eqn:Hlt.
      * apply Z.ltb_lt in Hlt. unfold uniform, random.
        set (w1 := {| w_now := w_now (get_world s1); w_net := w_net (get_world s1);
                      w_sent := w_sent (get_world s1); w_rand := w_rand (get_world s1);
                      w_drawn := Datatypes.S (w_drawn (get_world s1));
                      w_fresh := w_fresh (get_world s1);
                      w_trace := w_trace (get_world s1) |}).
        set (x := delay + (0 + ((1 # 2) - 0) * w_rand (get_world s1) (w_drawn (get_world s1)))).
        specialize (IH (attempt + 1)%Z max_retries (delay * factor) factor (Some e)
                      (put_world (sleep x w1) s1)).
        cbv zeta in IH. destruct IH as (ds & H1 & H2 & H3 & H4 & H5).
        rewrite get_put in H1, H2, H4, H5.
        exists (x :: ds).
        split.
        { rewrite H1. unfold sleep, w1. cbn [w_trace]. rewrite sleeps_app, Hq.
          cbn. rewrite <- app_assoc. reflexivity. }
        split.
        { cbn [jittered]. split; [unfold x; rewrite Hq; reflexivity|].
          unfold sleep, w1 in H2. cbn [w_rand w_drawn] in H2. rewrite Hq in H2.
          exact H2. }
        split; [cbn; lia|].
        split.
        { rewrite H4. unfold sleep, w1. cbn [w_drawn length]. rewrite Hq. lia. }
        rewrite H5. unfold sleep, w1. cbn [w_rand]. rewrite Hq. reflexivity.
      * apply Z.ltb_ge in Hlt.
        specialize (IH (attempt + 1)%Z max_retries delay factor (Some e) s1).
        cbv zeta in IH. destruct IH as (ds & H1 & H2 & H3 & H4 & H5).
        destruct ds as [|d0 ds]; [|cbn in H3; lia].
        exists []. rewrite H1, H4, H5, Hq. cbn. repeat split; lia.
Qed.

(** X1. Whatever the operation returns or raises, as long as it leaves the
    world alone: [retry_operation] sleeps at most [max_retries] times, draws
    one random number per sleep, and with draws between 0 and 1 the sleep
    before retry [k] lies between [initial_delay * backoff_factor ^ k] and
    that value plus half a second. *)
Theorem retry_operation_delays (max_retries : Z) (initial factor : Q) (s : S) :
  (forall k : nat, 0 <= w_rand (get_world s) k <= 1) ->
  let out := Retry.retry_operation S A get_world put_world function
               max_retries initial factor s in
  exists ds : list Q,
    sleeps (w_trace (get_world (snd out))) = sleeps (w_trace (get_world s)) ++ ds
    /\ (length ds <= Z.to_nat max_retries)%nat
    /\ w_drawn (get_world (snd out)) = (w_drawn (get_world s) + length ds)%nat
    /\ (forall (k : nat) (x : Q), nth_error ds k = Some x ->
          initial * factor ^ Z.of_nat k <= x
          /\ x <= initial * factor ^ Z.of_nat k + (1 # 2)).
Proof.
  intros Hr. unfold Retry.retry_operation.
  destruct (retry_loop_jittered (Z.to_nat (max_retries + 1)) 0%Z max_retries
              initial factor None s) as (ds & H1 & H2 & H3 & H4 & _).
  cbv zeta. exists ds. split; [exact H1|].
  split; [rewrite Z.sub_0_r in H3; exact H3|]. split; [exact H4|].
  intros k x Hk.
  pose proof (jittered_nth ds _ _ _ _ k x H2 Hk) as Hx.
  specialize (Hr (w_drawn (get_world s) + k)%nat).
  rewrite Hx. split; lra.
Qed.

Lemma retry_loop_exhausted (todo : nat) (e : string) :
  (forall s : S, fst (function s) = Raise e) ->
  forall (attempt max_retries : Z) (delay factor : Q) (last : option string) (s : S),
    (attempt <= max_retries)%Z ->
    todo = Z.to_nat (max_retries - attempt + 1) ->
    let out := Retry.retry_loop S A get_world put_world function todo attempt
                 max_retries delay factor last s in
    fst out = Raise e
    /\ length (sleeps (w_trace (get_world (snd out))))
       = (length (sleeps (w_trace (get_world s))) + Z.to_nat (max_retries - attempt))%nat.
Proof.
  intros He.
  induction todo as [|todo IH]; intros attempt max_retries delay factor last s Hle Htodo;
    [lia|].
  cbn [Retry.retry_loop].
  pose proof (function_quiet s) as Hq. pose proof (He s) as Hf.
  destruct (function s) as [[a|e'] s1]; cbn [fst snd] in Hq, Hf; [discriminate|].
  injection Hf as ->.
  destruct (attempt <? max_retries)%Z eqn:Hlt.
  - apply Z.ltb_lt in Hlt. unfold uniform, random.
    match goal with
    | |- context [put_world (sleep ?x ?w1) s1] =>
        specialize (IH (attempt + 1)%Z max_retries (delay * factor) factor (Some e)
                      (put_world (sleep x w1) s1) ltac:(lia) ltac:(lia));
        cbv zeta in IH; destruct IH as (H1 & H2);
        rewrite get_put in H2
    end.
    split; [exact H1|].
    rewrite H2. unfold sleep. cbn [w_trace]. rewrite sleeps_app, length_app, Hq.
    cbn. lia.
  - apply Z.ltb_ge in Hlt. assert (attempt = max_retries) by lia. subst attempt.
    assert (todo = O) by lia. subst todo. cbn. rewrite Hq. split; [reflexivity|lia].
Qed.

(** X2. An operation that raises [e] at every call, retried with a
    non-negative [max_retries]: [retry_operation] raises [e] in the end,
    after exactly [max_retries] sleeps. *)
Theorem retry_operation_exhausted (e : string) (max_retries : Z)
    (initial factor : Q) (s : S) :
  (0 <= max_retries)%Z ->
  (forall s' : S, fst (function s') = Raise e) ->
  let out := Retry.retry_operation S A get_world put_world function
               max_retries initial factor s in
  fst out = Raise e
  /\ length (sleeps (w_trace (get_world (snd out))))
     = (length (sleeps (w_trace (get_world s))) + Z.to_nat max_retries)%nat.
Proof.
  intros Hm He. unfold Retry.retry_operation.
  destruct (retry_loop_exhausted (Z.to_nat (max_retries + 1)) e He 0%Z max_retries
              initial factor None s Hm) as [H1 H2].
  { f_equal. lia. }
  rewrite Z.sub_0_r in H2. split; [exact H1|exact H2].
Qed.

End Laws.

Lemma retry_operation_delays_witness :
  let w := Scenario.world_with Scenario.dead_net in
  let out := RetryScenario.retry w in
  (forall k : nat, 0 <= w_rand w k <= 1)
  /\ exists ds : list Q,
       sleeps (w_trace (snd (snd out))) = sleeps (w_trace w) ++ ds
       /\ (length ds <= Z.to_nat 3)%nat
       /\ w_drawn (snd (snd out)) = (w_drawn w + length ds)%nat
       /\ (forall (k : nat) (x : Q), nth_error ds k = Some x ->
             1 * 2 ^ Z.of_nat k <= x /\ x <= 1 * 2 ^ Z.of_nat k + (1 # 2)).
Proof.
  assert (Hr : forall k : nat,
             0 <= w_rand (Scenario.world_with Scenario.dead_net) k <= 1).
  { intros k. cbn. split; [apply Qle_bool_imp_le|apply Qle_bool_imp_le]; reflexivity. }
  split; [exact Hr|].
  apply (retry_operation_delays (nat * World) nat snd (fun w' s => (fst s, w'))
           RetryScenario.flaky).
  - intros w s. reflexivity.
  - intros [calls w]. unfold RetryScenario.flaky.
    destruct (calls <? 3)%nat; reflexivity.
  - exact Hr.
Defined.

Lemma retry_operation_exhausted_witness :
  let w := Scenario.world_with Scenario.dead_net in
  let out := Retry.retry_operation (nat * World) nat snd (fun w' s => (fst s, w'))
               RetryLawsScenario.broken 3 1 2 (O, w) in
  fst out = Raise "connection reset"
  /\ length (sleeps (w_trace (snd (snd out))))
     = (length (sleeps (w_trace w)) + Z.to_nat 3)%nat.
Proof.
  apply (retry_operation_exhausted (nat * World) nat snd (fun w' s => (fst s, w'))
           RetryLawsScenario.broken).
  - intros w s. reflexivity.
  - intros s. reflexivity.
  - lia.
  - intros s. reflexivity.
Defined.

(** X26. The decorator and the function agree: calling a function
    decorated with [retry_with_backoff] does what [retry_operation] does
    with the call as its operation, for the same bounds and delays: the
    same result, the same sleeps, the same state. *)
Theorem retry_with_backoff_agrees (S Args A : Type) (get_world : S -> World)
    (put_world : World -> S -> S) (func : Args -> S -> Result A * S)
    (max_retries : Z) (initial_delay backoff_factor : Q) (args : Args) (s : S) :
  Retry.retry_with_backoff S Args A get_world put_world func
    max_retries initial_delay backoff_factor args s
  = Retry.retry_operation S A get_world put_world (func args)
      max_retries initial_delay backoff_factor s.
Proof.
  unfold Retry.retry_with_backoff, Retry.retry_operation.
  generalize (Z.to_nat (max_retries + 1)) 0%Z initial_delay (@None string) s.
  intros todo. induction todo as [|todo IH]; intros attempt delay last s0;
    [reflexivity|].
  cbn [Retry.wrapper_loop Retry.retry_loop].
  destruct (func args s0) as [[a|e] s1]; [reflexivity|].
  destruct (attempt <? max_retries)%Z.
  - destruct (uniform 0 (1 # 2) (get_world s1)) as [jitter w1]. apply IH.
  - apply IH.
Qed.

End RetryLaws.

(** ** connection_manager.py: laws of the session manager *)

Module ConnectionLaws.
Import Connection.

Lemma try_request_ok (session : option Session) (m u : string) (w : World)
    (resp : Response) (w1 : World) :
  try_request session m u w = (Ok resp, w1) ->
  w_net w (w_sent w) = Answered resp /\ raise_for_status resp = Ok resp
  /\ w_net w1 = w_net w /\ w_sent w1 = S (w_sent w).
Proof.
  unfold try_request. destruct session as [s|]; [|discriminate].
  unfold send. destruct (w_net w (w_sent w)) as [err d|r]; [discriminate|].
  intros H. injection H as H1 H2. subst w1. cbn.
  assert (r = resp) as ->.
  { unfold raise_for_status in H1.
    destruct ((400 <=? status_code r)%Z && (status_code r <? 600)%Z);
      [discriminate|congruence]. }
  repeat split; auto.
Qed.

Lemma try_request_net (session : option Session) (m u : string) (w : World) :
  w_net (snd (try_request session m u w)) = w_net w
  /\ (w_sent w <= w_sent (snd (try_request session m u w)))%nat.
Proof.
  unfold try_request. destruct session as [s|]; [|split; [reflexivity|cbn; lia]].
  unfold send. destruct (w_net w (w_sent w)); cbn; split; (reflexivity || lia).
Qed.

Lemma _initialize_tor_session_sent (cm : ConnectionManager) (w : World) :
  (w_sent w <= w_sent (snd (_initialize_tor_session cm w)))%nat.
Proof.
  unfold _initialize_tor_session, new_session, send. cbn [w_net w_sent].
  destruct (w_net w (w_sent w)) as [err d|resp]; [cbn; lia|].
  destruct (status_code resp =? 200)%Z; [destruct (is_tor resp) as [[|]|]|];
    cbn; lia.
Qed.

Lemma _get_clearnet_session_sent (cm : ConnectionManager) (w : World) :
  w_sent (snd (_get_clearnet_session cm w)) = w_sent w.
Proof.
  unfold _get_clearnet_session. destruct (clearnet_session cm); reflexivity.
Qed.

Lemma request_loop_ok (todo : nat) :
  forall (attempt max_retries : Z) (m u : string) (session : option Session)
         (delay factor : Q) (last : option string) (cm : ConnectionManager)
         (w : World) (resp : Response),
    let out := request_loop todo attempt max_retries m u session delay factor last cm w in
    fst (fst out) = Ok resp ->
    (w_sent w < w_sent (snd out))%nat
    /\ w_net w (pred (w_sent (snd out))) = Answered resp
    /\ raise_for_status resp = Ok resp.
Proof.
  induction todo as [|todo IH];
    intros attempt max_retries m u session delay factor last cm w resp out H.
  - cbn in H. destruct last; discriminate.
  - unfold out in *. clear out. cbn [request_loop] in *.
    pose proof (try_request_net session m u w) as [Hn Hs].
    destruct (try_request session m u w) as [[r|e] w1] eqn:Ht; cbn [snd] in Hn, Hs.
    + cbn in H. injection H as ->.
      destruct (try_request_ok _ _ _ _ _ _ Ht) as (H1 & H2 & _ & H4).
      cbn [fst snd]. rewrite H4. cbn [pred]. split; [lia|]. split; assumption.
    + assert (Hstep : forall (att : Z) (sess : option Session) (dl : Q)
                        (cm' : ConnectionManager) (w' : World),
                 w_net w' = w_net w -> (w_sent w <= w_sent w')%nat ->
                 let out' := request_loop todo att max_retries m u sess dl factor
                               (Some e) cm' w' in
                 fst (fst out') = Ok resp ->
                 (w_sent w < w_sent (snd out'))%nat
                 /\ w_net w (pred (w_sent (snd out'))) = Answered resp
                 /\ raise_for_status resp = Ok resp).
      { intros att sess dl cm' w' Hn' Hs' out' H'.
        destruct (IH _ _ _ _ _ _ _ _ _ _ _ H') as (A & B & C).
        fold out' in A, B. rewrite <- Hn'. split; [lia|]. split; assumption. }
      destruct (attempt <? max_retries)%Z.
      * destruct (same_object session (tor_session cm) && (1 <=? attempt)%Z).
        -- pose proof (ConnectionFacts._initialize_tor_session_net cm (sleep delay w1)) as Hn3.
           pose proof (_initialize_tor_session_sent cm (sleep delay w1)) as Hs3.
           destruct (_initialize_tor_session cm (sleep delay w1)) as [[ok cm3] w3].
           cbn [snd] in Hn3, Hs3. unfold sleep in Hn3, Hs3.
           cbn [w_net w_sent] in Hn3, Hs3.
           assert (Hn3' : w_net w3 = w_net w) by congruence.
           assert (Hs3' : (w_sent w <= w_sent w3)%nat) by lia.
           destruct ((2 <=? attempt)%Z && clearnet_fallback cm3).
           ++ pose proof (ConnectionFacts._get_clearnet_session_net cm3 w3) as Hn4.
              pose proof (_get_clearnet_session_sent cm3 w3) as Hs4.
              destruct (_get_clearnet_session cm3 w3) as [[session' cm4] w4].
              cbn [snd] in Hn4, Hs4.
              assert (Hn4' : w_net w4 = w_net w) by congruence.
              assert (Hs4' : (w_sent w <= w_sent w4)%nat) by lia.
              exact (Hstep _ _ _ _ _ Hn4' Hs4' H).
           ++ exact (Hstep _ _ _ _ _ Hn3' Hs3' H).
        -- apply (Hstep _ _ _ _ (sleep delay w1) Hn Hs H).
      * apply (Hstep _ _ _ _ _ Hn Hs H).
Qed.

Lemma get_session_sent (force : bool) (cm : ConnectionManager) (w : World) :
  (w_sent w <= w_sent (snd (get_session force cm w)))%nat.
Proof.
  unfold get_session.
  destruct (force || negb (tor_enabled cm)).
  { rewrite _get_clearnet_session_sent. lia. }
  destruct (is_none (tor_session cm) || _should_rotate_circuit cm w); [|cbn; lia].
  pose proof (_initialize_tor_session_sent cm w) as H.
  destruct (_initialize_tor_session cm w) as [[ok cm1] w1]. cbn [snd] in H.
  destruct (negb ok && clearnet_fallback cm1); [|exact H].
  rewrite _get_clearnet_session_sent. exact H.
Qed.

(** X3. [perform_request] returns a response only when the network gave
    that response to the last request the call sent, and its status is
    neither 4xx nor 5xx: a response with an error status is never
    returned, whatever the retries. *)
Theorem perform_request_returns_good_response (m u : string) (force : bool)
    (max_retries : Z) (initial factor : Q) (cm : ConnectionManager) (w : World)
    (resp : Response) :
  let out := perform_request m u force max_retries initial factor cm w in
  fst (fst out) = Ok resp ->
  (w_sent w < w_sent (snd out))%nat
  /\ w_net w (pred (w_sent (snd out))) = Answered resp
  /\ (exists n : nat,
        (w_sent w <= n < w_sent (snd out))%nat /\ w_net w n = Answered resp)
  /\ ~ (400 <= status_code resp < 600)%Z.
Proof.
  cbv zeta. unfold perform_request.
  pose proof (ConnectionFacts.get_session_net force cm w) as Hn.
  pose proof (get_session_sent force cm w) as Hs.
  destruct (get_session force cm w) as [[session cm1] w1]. cbn [snd] in Hn, Hs.
  intros H. apply request_loop_ok in H. destruct H as (A & B & C).
  rewrite Hn in B.
  split; [lia|]. split; [exact B|]. split.
  - eexists. split; [|exact B]. lia.
  - unfold raise_for_status in C.
    destruct ((400 <=? status_code resp)%Z && (status_code resp <? 600)%Z) eqn:E;
      [discriminate|].
    apply andb_false_iff in E. intros [H1 H2].
    destruct E as [E|E]; [apply Z.leb_gt in E|apply Z.ltb_ge in E]; lia.
Qed.

Lemma perform_request_returns_good_response_witness :
  let w := Scenario.world_with Scenario.flaky_net in
  let out := perform_request "get" "http://x.onion" false 3 1 2
               (Scenario.manager 990 0) w in
  fst (fst out) = Ok Scenario.ok_response
  /\ (w_sent w < w_sent (snd out))%nat
  /\ w_net w (pred (w_sent (snd out))) = Answered Scenario.ok_response
  /\ (exists n : nat,
        (w_sent w <= n < w_sent (snd out))%nat
        /\ w_net w n = Answered Scenario.ok_response)
  /\ ~ (400 <= status_code Scenario.ok_response < 600)%Z.
Proof.
  assert (H : fst (fst (perform_request "get" "http://x.onion" false 3 1 2
                          (Scenario.manager 990 0)
                          (Scenario.world_with Scenario.flaky_net)))
              = Ok Scenario.ok_response) by (vm_compute; reflexivity).
  split; [exact H|].
  exact (perform_request_returns_good_response "get" "http://x.onion" false 3 1 2
           (Scenario.manager 990 0) (Scenario.world_with Scenario.flaky_net)
           Scenario.ok_response H).
Defined.

Lemma _get_clearnet_session_some (cm : ConnectionManager) (w : World) :
  exists s : Session,
    fst (fst (_get_clearnet_session cm w)) = Some s
    /\ clearnet_session (snd (fst (_get_clearnet_session cm w))) = Some s
    /\ (clearnet_session cm = None -> s = {| sid := w_fresh w; via_tor := false |}).
Proof.
  unfold _get_clearnet_session. destruct (clearnet_session cm) as [s|] eqn:E.
  - exists s. cbn. repeat split; auto. discriminate.
  - eexists. cbn. repeat split; reflexivity.
Qed.

Lemma _get_clearnet_session_frame (cm : ConnectionManager) (w : World) :
  tor_session (snd (fst (_get_clearnet_session cm w))) = tor_session cm
  /\ circuit_created_time (snd (fst (_get_clearnet_session cm w))) = circuit_created_time cm
  /\ request_count (snd (fst (_get_clearnet_session cm w))) = request_count cm.
Proof.
  unfold _get_clearnet_session. destruct (clearnet_session cm); cbn; auto.
Qed.

(** X4. When the clearnet session is asked for, by [force_clearnet] or
    because Tor is disabled, [get_session] sends nothing, leaves the Tor
    session, the circuit clock and the request counter alone, and returns
    the manager's clearnet session, created on first use without proxy; a
    second call returns the same session and changes nothing. *)
Theorem get_session_clearnet_stable (force : bool) (cm : ConnectionManager) (w : World) :
  force || negb (tor_enabled cm) = true ->
  let out := get_session force cm w in
  (exists s : Session,
     fst (fst out) = Some s
     /\ clearnet_session (snd (fst out)) = Some s
     /\ (clearnet_session cm = None -> s = {| sid := w_fresh w; via_tor := false |}))
  /\ tor_session (snd (fst out)) = tor_session cm
  /\ circuit_created_time (snd (fst out)) = circuit_created_time cm
  /\ request_count (snd (fst out)) = request_count cm
  /\ w_trace (snd out) = w_trace w
  /\ get_session force (snd (fst out)) (snd out) = out.
Proof.
  intros H. unfold get_session. rewrite H.
  split; [apply _get_clearnet_session_some|].
  unfold _get_clearnet_session.
  destruct (clearnet_session cm) as [s|] eqn:E; cbn.
  - rewrite H, E. repeat split; reflexivity.
  - rewrite H. repeat split; reflexivity.
Qed.

Lemma get_session_clearnet_stable_witness :
  let cm := Scenario.manager 990 0 in
  let w := Scenario.world_with Scenario.dead_net in
  let out := get_session true cm w in
  (exists s : Session,
     fst (fst out) = Some s
     /\ clearnet_session (snd (fst out)) = Some s
     /\ (clearnet_session cm = None -> s = {| sid := w_fresh w; via_tor := false |}))
  /\ tor_session (snd (fst out)) = tor_session cm
  /\ circuit_created_time (snd (fst out)) = circuit_created_time cm
  /\ request_count (snd (fst out)) = request_count cm
  /\ w_trace (snd out) = w_trace w
  /\ get_session true (snd (fst out)) (snd out) = out.
Proof.
  apply (get_session_clearnet_stable true (Scenario.manager 990 0)
           (Scenario.world_with Scenario.dead_net)).
  reflexivity.
Defined.

Lemma _initialize_tor_session_outcome (cm : ConnectionManager) (w : World) :
  let out := _initialize_tor_session cm w in
  fst (fst out) = confirms_tor (w_net w (w_sent w))
  /\ (confirms_tor (w_net w (w_sent w)) = true ->
      circuit_created_time (snd (fst out)) = Some (w_now (snd out))
      /\ request_count (snd (fst out)) = 0%Z)
  /\ (confirms_tor (w_net w (w_sent w)) = false ->
      circuit_created_time (snd (fst out)) = circuit_created_time cm
      /\ request_count (snd (fst out)) = request_count cm)
  /\ tor_enabled (snd (fst out)) = tor_enabled cm
  /\ clearnet_fallback (snd (fst out)) = clearnet_fallback cm
  /\ max_circuit_age (snd (fst out)) = max_circuit_age cm
  /\ max_requests_per_circuit (snd (fst out)) = max_requests_per_circuit cm.
Proof.
  unfold _initialize_tor_session, new_session, send, confirms_tor.
  cbn [w_net w_sent].
  destruct (w_net w (w_sent w)) as [err d|resp].
  - cbn. repeat split; auto; discriminate.
  - destruct (status_code resp =? 200)%Z; [destruct (is_tor resp) as [[|]|]|];
      cbn; repeat split; auto; discriminate.
Qed.

(** X5. Tor is enabled and a new Tor session is due (there is none, or the
    circuit is to be rotated), but the capability check does not confirm
    Tor routing. The new session replaces the old one all the same, while
    the circuit clock and the request counter keep their values. With
    clearnet fallback enabled [get_session] returns the manager's clearnet
    session; without it, it returns the new, unconfirmed Tor session: no
    error is raised. *)
Theorem get_session_unconfirmed (cm : ConnectionManager) (w : World) :
  tor_enabled cm = true ->
  tor_session cm = None \/ _should_rotate_circuit cm w = true ->
  confirms_tor (w_net w (w_sent w)) = false ->
  let out := get_session false cm w in
  let fresh := {| sid := w_fresh w; via_tor := true |} in
  tor_session (snd (fst out)) = Some fresh
  /\ circuit_created_time (snd (fst out)) = circuit_created_time cm
  /\ request_count (snd (fst out)) = request_count cm
  /\ (clearnet_fallback cm = true ->
      exists s : Session,
        fst (fst out) = Some s /\ clearnet_session (snd (fst out)) = Some s
        /\ (clearnet_session cm = None ->
            s = {| sid := S (w_fresh w); via_tor := false |}))
  /\ (clearnet_fallback cm = false -> fst (fst out) = Some fresh).
Proof.
  intros He Hdue Hno. unfold get_session. rewrite He. cbn [orb negb].
  assert (Hd : is_none (tor_session cm) || _should_rotate_circuit cm w = true).
  { destruct Hdue as [H|H]; rewrite H; [reflexivity|apply orb_true_r]. }
  rewrite Hd.
  pose proof (_initialize_tor_session_outcome cm w) as (Hok & _ & Hkeep & _ & Hfb & _).
  pose proof (ConnectionFacts._initialize_tor_session_trace cm w) as (Htor & Hcl & Hfr & _).
  destruct (_initialize_tor_session cm w) as [[ok cm1] w1].
  cbn [fst snd] in *. rewrite Hno in Hok. subst ok. cbn [negb andb].
  destruct (Hkeep Hno) as [Hk1 Hk2]. rewrite Hfb.
  destruct (clearnet_fallback cm) eqn:Efb.
  - destruct (_get_clearnet_session_some cm1 w1) as (s & Hs1 & Hs2 & Hs3).
    destruct (_get_clearnet_session_frame cm1 w1) as (F1 & F2 & F3).
    destruct (_get_clearnet_session cm1 w1) as [[s' cm2] w2]. cbn [fst snd] in *.
    rewrite F1, F2, F3.
    split; [exact Htor|]. split; [exact Hk1|]. split; [exact Hk2|].
    split; [|discriminate].
    intros _. exists s. split; [exact Hs1|]. split; [exact Hs2|].
    intros Hnone. rewrite Hs3 by congruence. rewrite Hfr. reflexivity.
  - cbn [fst snd].
    split; [exact Htor|]. split; [exact Hk1|]. split; [exact Hk2|].
    split; [discriminate|]. intros _. exact Htor.
Qed.

Lemma get_session_unconfirmed_witness :
  let cm := ConnectionLawsScenario.fresh_manager true in
  let w := Scenario.world_with Scenario.dead_net in
  let out := get_session false cm w in
  let fresh := {| sid := w_fresh w; via_tor := true |} in
  tor_session (snd (fst out)) = Some fresh
  /\ circuit_created_time (snd (fst out)) = circuit_created_time cm
  /\ request_count (snd (fst out)) = request_count cm
  /\ (clearnet_fallback cm = true ->
      exists s : Session,
        fst (fst out) = Some s /\ clearnet_session (snd (fst out)) = Some s
        /\ (clearnet_session cm = None ->
            s = {| sid := S (w_fresh w); via_tor := false |}))
  /\ (clearnet_fallback cm = false -> fst (fst out) = Some fresh).
Proof.
  apply (get_session_unconfirmed (ConnectionLawsScenario.fresh_manager true)
           (Scenario.world_with Scenario.dead_net)).
  - reflexivity.
  - left. reflexivity.
  - reflexivity.
Defined.

(** X6. Tor is enabled, a new Tor session is due, and the capability check
    confirms Tor routing. [get_session] returns the new Tor session, sets
    the circuit clock to the present and the request counter to zero; with
    a positive request bound and a circuit age bound that is not negative,
    an immediate second call returns that same session and rotates
    nothing. *)
Theorem get_session_confirmed (cm : ConnectionManager) (w : World) :
  tor_enabled cm = true ->
  tor_session cm = None \/ _should_rotate_circuit cm w = true ->
  confirms_tor (w_net w (w_sent w)) = true ->
  (0 < max_requests_per_circuit cm)%Z ->
  0 <= max_circuit_age cm ->
  let out := get_session false cm w in
  fst (fst out) = Some {| sid := w_fresh w; via_tor := true |}
  /\ circuit_created_time (snd (fst out)) = Some (w_now (snd out))
  /\ request_count (snd (fst out)) = 0%Z
  /\ get_session false (snd (fst out)) (snd out) = out.
Proof.
  intros He Hdue Hyes Hmax Hage. cbv zeta.
  assert (Hd : is_none (tor_session cm) || _should_rotate_circuit cm w = true).
  { destruct Hdue as [H|H]; rewrite H; [reflexivity|apply orb_true_r]. }
  remember (get_session false cm w) as out eqn:Eo.
  unfold get_session in Eo. rewrite He in Eo. cbn [orb negb] in Eo. rewrite Hd in Eo.
  pose proof (_initialize_tor_session_outcome cm w)
    as (Hok & Hset & _ & Hen & _ & Hma & Hmr).
  pose proof (ConnectionFacts._initialize_tor_session_trace cm w) as (Htor & _).
  destruct (_initialize_tor_session cm w) as [[ok cm1] w1].
  cbn [fst snd] in *. rewrite Hyes in Hok. subst ok. cbn [negb andb] in Eo.
  subst out. cbn [fst snd].
  destruct (Hset Hyes) as [Hc Hn].
  split; [exact Htor|]. split; [exact Hc|]. split; [exact Hn|].
  unfold get_session. rewrite Hen, He. cbn [orb negb].
  assert (Hrot : _should_rotate_circuit cm1 w1 = false).
  { unfold _should_rotate_circuit. rewrite Hc, Hn, Hma, Hmr. cbv beta iota zeta.
    assert (Hq : Qltb (max_circuit_age cm) (w_now w1 - w_now w1) = false)
      by (apply Qltb_ge; lra).
    rewrite Hq.
    destruct (Z.leb_spec (max_requests_per_circuit cm) 0); [lia|reflexivity]. }
  rewrite Hrot, Htor. reflexivity.
Qed.

Lemma get_session_confirmed_witness :
  let cm := ConnectionLawsScenario.fresh_manager true in
  let w := Scenario.world_with (fun _ => Answered ConnectionLawsScenario.tor_confirmed) in
  let out := get_session false cm w in
  fst (fst out) = Some {| sid := w_fresh w; via_tor := true |}
  /\ circuit_created_time (snd (fst out)) = Some (w_now (snd out))
  /\ request_count (snd (fst out)) = 0%Z
  /\ get_session false (snd (fst out)) (snd out) = out.
Proof.
  apply (get_session_confirmed (ConnectionLawsScenario.fresh_manager true)
           (Scenario.world_with (fun _ => Answered ConnectionLawsScenario.tor_confirmed))).
  - reflexivity.
  - left. reflexivity.
  - reflexivity.
  - reflexivity.
  - discriminate.
Defined.

Lemma get_session_some (force : bool) (cm : ConnectionManager) (w : World) :
  exists s : Session, fst (fst (get_session force cm w)) = Some s.
Proof.
  unfold get_session.
  destruct (force || negb (tor_enabled cm)).
  { destruct (_get_clearnet_session_some cm w) as (s & Hs & _). eauto. }
  destruct (is_none (tor_session cm)) eqn:En; cbn [orb].
  2: { destruct (_should_rotate_circuit cm w).
       2: { destruct (tor_session cm) as [s|]; [cbn; eauto|discriminate]. }
       pose proof (ConnectionFacts._initialize_tor_session_trace cm w) as (Htor & _).
       destruct (_initialize_tor_session cm w) as [[ok cm1] w1]. cbn [fst snd] in *.
       destruct (negb ok && clearnet_fallback cm1).
       - destruct (_get_clearnet_session_some cm1 w1) as (s & Hs & _). eauto.
       - cbn. eauto. }
  pose proof (ConnectionFacts._initialize_tor_session_trace cm w) as (Htor & _).
  destruct (_initialize_tor_session cm w) as [[ok cm1] w1]. cbn [fst snd] in *.
  destruct (negb ok && clearnet_fallback cm1).
  - destruct (_get_clearnet_session_some cm1 w1) as (s & Hs & _). eauto.
  - cbn. eauto.
Qed.

Lemma request_loop_exhausted (todo : nat) :
  forall (attempt max_retries : Z) (m u : string) (s : Session) (delay factor : Q)
         (last : option string) (cm : ConnectionManager) (w : World),
    all_refused w ->
    todo = S (Z.to_nat (max_retries - attempt)) ->
    (attempt <= max_retries)%Z ->
    let out := request_loop todo attempt max_retries m u (Some s) delay factor last cm w in
    exists (e : string) (d : Q),
      fst (fst out) = Raise e
      /\ w_net w (pred (w_sent (snd out))) = Refused e d
      /\ (w_sent w < w_sent (snd out))%nat.
Proof.
  induction todo as [|todo IH]; intros attempt max_retries m u s delay factor last cm w
    Hall Htodo Hle; [discriminate|].
  cbn [request_loop].
  pose proof (ConnectionFacts.try_request_refused (Some s) m u w Hall) as Hr.
  pose proof (try_request_net (Some s) m u w) as Hn.
  assert (Hsent : w_sent (snd (try_request (Some s) m u w)) = S (w_sent w)).
  { unfold try_request, send. destruct (w_net w (w_sent w)); reflexivity. }
  assert (Herr : forall e, fst (try_request (Some s) m u w) = Raise e ->
                 exists d, w_net w (w_sent w) = Refused e d).
  { unfold try_request, send. destruct (Hall (w_sent w)) as (err & d & E).
    rewrite E. cbn. intros e [= <-]. eauto. }
  destruct (try_request (Some s) m u w) as [[resp|e] w1] eqn:Et; cbn [fst snd] in *.
  { destruct Hr as (e & w' & He & _). discriminate. }
  destruct (Herr e eq_refl) as (d & Hed). destruct Hn as [Hn Hn'].
  assert (Hall1 : all_refused w1) by (intros n; rewrite Hn; apply Hall).
  destruct (Z.ltb_spec attempt max_retries) as [Hlt|Hge].
  - assert (Htodo' : todo = S (Z.to_nat (max_retries - (attempt + 1)))) by lia.
    assert (Hle' : (attempt + 1 <= max_retries)%Z) by lia.
    assert (Hgo : forall s' cm' w',
              w_net w' = w_net w -> (S (w_sent w) <= w_sent w')%nat ->
              let out := request_loop todo (attempt + 1) max_retries m u (Some s')
                           (delay * factor) factor (Some e) cm' w' in
              exists (e0 : string) (d0 : Q),
                fst (fst out) = Raise e0
                /\ w_net w (pred (w_sent (snd out))) = Refused e0 d0
                /\ (w_sent w < w_sent (snd out))%nat).
    { intros s' cm' w' Hnet Hs'.
      assert (Hall' : all_refused w') by (intros n; rewrite Hnet; apply Hall).
      destruct (IH (attempt + 1)%Z max_retries m u s' (delay * factor) factor (Some e)
                  cm' w' Hall' Htodo' Hle') as (e0 & d0 & H1 & H2 & H3).
      exists e0, d0. rewrite <- Hnet. repeat split; auto. lia. }
    destruct (same_object (Some s) (tor_session cm) && (1 <=? attempt)%Z).
    + pose proof (ConnectionFacts._initialize_tor_session_net cm (sleep delay w1)) as Hin.
      pose proof (_initialize_tor_session_sent cm (sleep delay w1)) as Hst.
      destruct (_initialize_tor_session cm (sleep delay w1)) as [[ok cm3] w3].
      cbn [fst snd] in *.
      change (w_net (sleep delay w1)) with (w_net w1) in Hin.
      change (w_sent (sleep delay w1)) with (w_sent w1) in Hst.
      destruct ((2 <=? attempt)%Z && clearnet_fallback cm3).
      * destruct (_get_clearnet_session_some cm3 w3) as (s' & Hs1 & _).
        pose proof (ConnectionFacts._get_clearnet_session_net cm3 w3) as Hcn.
        pose proof (_get_clearnet_session_sent cm3 w3) as Hcs.
        destruct (_get_clearnet_session cm3 w3) as [[so cm4] w4]. cbn [fst snd] in *.
        subst so. apply Hgo; [congruence|lia].
      * apply Hgo; [congruence|lia].
    + apply Hgo; [exact Hn|].
      change (w_sent (sleep delay w1)) with (w_sent w1). lia.
  - assert (attempt = max_retries) by lia. subst attempt.
    assert (todo = O) by lia. subst todo. cbn [request_loop reraise fst snd].
    exists e, d. rewrite Hsent. cbn [pred]. repeat split; auto.
Qed.

(** X7. While the network refuses every request, [perform_request] raises
    after its [max_retries + 1] attempts, and the error it raises is the
    one of the last request that went out; whatever sessions were tried. *)
Theorem perform_request_exhausted (m u : string) (force : bool) (max_retries : Z)
    (initial factor : Q) (cm : ConnectionManager) (w : World) :
  all_refused w ->
  (0 <= max_retries)%Z ->
  let out := perform_request m u force max_retries initial factor cm w in
  exists (e : string) (d : Q),
    fst (fst out) = Raise e
    /\ w_net w (pred (w_sent (snd out))) = Refused e d
    /\ (w_sent w < w_sent (snd out))%nat.
Proof.
  intros Hall Hmax. unfold perform_request.
  destruct (get_session_some force cm w) as (s & Hs).
  pose proof (ConnectionFacts.get_session_net force cm w) as Hn.
  pose proof (get_session_sent force cm w) as Hst.
  destruct (get_session force cm w) as [[so cm1] w1]. cbn [fst snd] in *. subst so.
  assert (Hall1 : all_refused w1) by (intros n; rewrite Hn; apply Hall).
  match goal with
  | |- context [request_loop ?t ?a ?mx ?m' ?u' (Some s) ?d ?f ?l ?c w1] =>
      destruct (request_loop_exhausted t a mx m' u' s d f l c w1 Hall1)
        as (e & d0 & H1 & H2 & H3); [lia|lia|]
  end.
  exists e, d0. rewrite <- Hn. repeat split; auto. lia.
Qed.

Lemma perform_request_exhausted_witness :
  let out := perform_request "get" "http://a.onion/" false 3 1 2
               (Scenario.manager 990 0) (Scenario.world_with Scenario.dead_net) in
  exists (e : string) (d : Q),
    fst (fst out) = Raise e
    /\ w_net (Scenario.world_with Scenario.dead_net) (pred (w_sent (snd out))) = Refused e d
    /\ (w_sent (Scenario.world_with Scenario.dead_net) < w_sent (snd out))%nat.
Proof.
  apply (perform_request_exhausted "get" "http://a.onion/" false 3 1 2
           (Scenario.manager 990 0) (Scenario.world_with Scenario.dead_net)).
  - intros n. unfold Scenario.world_with, Scenario.dead_net. cbn. eauto.
  - lia.
Defined.

(** X8. After [close] the manager holds no session, so the next
    [get_session] never hands out a session that existed before the call:
    whatever it returns, Tor or clearnet, was created by that call. *)
Theorem get_session_after_close (force : bool) (cm : ConnectionManager) (w : World) :
  exists s : Session,
    fst (fst (get_session force (close cm) w)) = Some s
    /\ (w_fresh w <= sid s)%nat.
Proof.
  unfold get_session.
  destruct (force || negb (tor_enabled (close cm))).
  { destruct (_get_clearnet_session_some (close cm) w) as (s & Hs & _ & Hnew).
    exists s. split; [exact Hs|]. rewrite Hnew by reflexivity. cbn. lia. }
  change (is_none (tor_session (close cm))) with true. cbn [orb].
  pose proof (ConnectionFacts._initialize_tor_session_trace (close cm) w)
    as (Htor & Hcl & Hfr & _).
  destruct (_initialize_tor_session (close cm) w) as [[ok cm1] w1]. cbn [fst snd] in *.
  destruct (negb ok && clearnet_fallback cm1).
  - destruct (_get_clearnet_session_some cm1 w1) as (s & Hs & _ & Hnew).
    exists s. split; [exact Hs|]. rewrite Hnew by (rewrite Hcl; reflexivity).
    cbn. lia.
  - cbn [fst]. rewrite Htor. eexists. split; [reflexivity|]. cbn. lia.
Qed.
End ConnectionLaws.

(** ** security_utils.py: further laws of [ThrottleManager] *)

Module ThrottleLaws.
Import Throttle.

Lemma last_n_length {A} (n : nat) (l : list A) :
  length (last_n n l) = Nat.min n (length l).
Proof.
  unfold last_n. rewrite List.length_skipn. lia.
Qed.

Lemma last_n_all {A} (n : nat) (l : list A) :
  (length l <= n)%nat -> last_n n l = l.
Proof.
  intros H. unfold last_n. replace (length l - n)%nat with O by lia. reflexivity.
Qed.

Lemma window_append {A} (n : nat) (l : list A) (x : A) :
  (if (n <? length (l ++ [x]))%nat then last_n n (l ++ [x]) else l ++ [x])
  = last_n n (l ++ [x]).
Proof.
  destruct (Nat.ltb_spec n (length (l ++ [x]))); [reflexivity|].
  symmetry. apply last_n_all. assumption.
Qed.

Section Laws.

Variable netloc : string -> string.

Lemma record_request_stats (tm : ThrottleManager) (u : string)
    (rt : option Q) (sc : option Z) (err : bool) (w : World) :
  exists stats' : DomainStats,
    domain_stats (record_request netloc tm u rt sc err w) !! netloc u = Some stats'
    /\ response_times stats'
       = match rt with
         | Some t => last_n 10 (response_times
                                  (default new_stats (domain_stats tm !! netloc u)) ++ [t])
         | None => response_times (default new_stats (domain_stats tm !! netloc u))
         end
    /\ status_codes stats'
       = match sc with
         | Some c => last_n 20 (status_codes
                                  (default new_stats (domain_stats tm !! netloc u)) ++ [c])
         | None => status_codes (default new_stats (domain_stats tm !! netloc u))
         end
    /\ requests stats'
       = S (requests (default new_stats (domain_stats tm !! netloc u)))
    /\ consecutive_errors stats'
       = (if err
          then S (consecutive_errors (default new_stats (domain_stats tm !! netloc u)))
          else O).
Proof.
  unfold record_request, _extract_domain. cbn [domain_stats].
  eexists. split; [apply lookup_insert_eq|].
  cbn [response_times status_codes requests consecutive_errors].
  repeat split.
  - destruct rt as [t|]; [apply window_append|reflexivity].
  - destruct sc as [c|]; [apply window_append|reflexivity].
Qed.

(** X9. [record_request] keeps the rolling windows: a new response time or
    status code is appended and only the last ten times and the last twenty
    codes of the result are kept, so a manager whose windows are within
    these bounds stays within them; the request counter of the domain goes
    up by one and a request without error resets its consecutive errors. *)
Theorem record_request_windows (tm : ThrottleManager) (u : string)
    (rt : option Q) (sc : option Z) (err : bool) (w : World) :
  windows_bounded tm ->
  windows_bounded (record_request netloc tm u rt sc err w)
  /\ exists stats' : DomainStats,
       domain_stats (record_request netloc tm u rt sc err w) !! netloc u = Some stats'
       /\ (forall t, rt = Some t ->
           response_times stats'
           = last_n 10 (response_times
                          (default new_stats (domain_stats tm !! netloc u)) ++ [t]))
       /\ (forall c, sc = Some c ->
           status_codes stats'
           = last_n 20 (status_codes
                          (default new_stats (domain_stats tm !! netloc u)) ++ [c]))
       /\ requests stats'
          = S (requests (default new_stats (domain_stats tm !! netloc u)))
       /\ (err = false -> consecutive_errors stats' = O).
Proof.
  intros Hb.
  destruct (record_request_stats tm u rt sc err w) as (stats' & Hl & Ht & Hc & Hr & He).
  assert (Hold : (length (response_times (default new_stats (domain_stats tm !! netloc u)))
                  <= 10)%nat
                 /\ (length (status_codes (default new_stats (domain_stats tm !! netloc u)))
                     <= 20)%nat).
  { destruct (domain_stats tm !! netloc u) as [st|] eqn:E; cbn.
    - apply (Hb _ _ E).
    - split; lia. }
  split.
  - intros d st Hd.
    destruct (String.eqb_spec d (netloc u)) as [->|Hne].
    + rewrite Hl in Hd. injection Hd as <-. rewrite Ht, Hc. split.
      * destruct rt; [rewrite last_n_length; lia|apply Hold].
      * destruct sc; [rewrite last_n_length; lia|apply Hold].
    + unfold record_request, _extract_domain in Hd. cbn [domain_stats] in Hd.
      rewrite lookup_insert_ne in Hd by congruence. apply (Hb _ _ Hd).
  - exists stats'. split; [exact Hl|]. split; [|split; [|split]].
    + intros t ->. exact Ht.
    + intros c ->. exact Hc.
    + exact Hr.
    + intros ->. exact He.
Qed.

(** X10. [record_request] touches one domain only: the statistics and the
    last request time of every other domain are what they were, and so is
    the delay [get_delay] computes for a URL of another domain. *)
Theorem record_request_other_domain (tm : ThrottleManager) (u u' : string)
    (rt : option Q) (sc : option Z) (err : bool) (w w' : World) :
  netloc u' <> netloc u ->
  let tm' := record_request netloc tm u rt sc err w in
  domain_stats tm' !! netloc u' = domain_stats tm !! netloc u'
  /\ last_request_time tm' !! netloc u' = last_request_time tm !! netloc u'
  /\ get_delay netloc tm' u' w' = get_delay netloc tm u' w'
  /\ wait_if_needed netloc tm' u' w' = wait_if_needed netloc tm u' w'.
Proof.
  intros Hne tm'.
  assert (Hs : domain_stats tm' !! netloc u' = domain_stats tm !! netloc u').
  { unfold tm', record_request, _extract_domain. cbn [domain_stats].
    apply lookup_insert_ne. congruence. }
  assert (Hl : last_request_time tm' !! netloc u' = last_request_time tm !! netloc u').
  { unfold tm', record_request, _extract_domain. cbn [last_request_time].
    apply lookup_insert_ne. congruence. }
  assert (Hg : get_delay netloc tm' u' w' = get_delay netloc tm u' w').
  { unfold get_delay, _extract_domain. rewrite Hs. reflexivity. }
  repeat split; auto.
  unfold wait_if_needed, _extract_domain. rewrite Hl.
  fold (_extract_domain netloc u'). rewrite Hg. reflexivity.
Qed.

Lemma delay_before_jitter_capped (tm : ThrottleManager) (stats : DomainStats) :
  delay_before_jitter tm stats <= max_delay tm.
Proof.
  unfold delay_before_jitter. apply Q.le_min_r.
Qed.

(** X11. For a domain that has statistics the delay of [get_delay] is at
    most [max_delay * (1 + jitter)]: the cap is applied before the jitter,
    so the result may exceed [max_delay] by the jitter share and no more.
    The jitter factor lies between 0 and 1, the cap is not negative, and
    the random draw lies between 0 and 1. *)
Theorem get_delay_bounded (tm : ThrottleManager) (u : string) (w : World)
    (stats : DomainStats) :
  domain_stats tm !! netloc u = Some stats ->
  0 <= jitter tm <= 1 ->
  0 <= max_delay tm ->
  0 <= w_rand w (w_drawn w) <= 1 ->
  fst (get_delay netloc tm u w) <= max_delay tm * (1 + jitter tm).
Proof.
  intros Hs [Hj0 Hj1] Hm [Hr0 Hr1].
  unfold get_delay, _extract_domain. rewrite Hs.
  unfold _apply_jitter, uniform, random. cbn [fst].
  pose proof (delay_before_jitter_capped tm stats) as Hc.
  remember (delay_before_jitter tm stats) as d.
  remember (w_rand w (w_drawn w)) as r.
  remember (jitter tm) as j. remember (max_delay tm) as m.
  assert (E : d + (- (d * j) + (d * j - - (d * j)) * r) == d * (1 - j + 2 * j * r)) by ring.
  rewrite E.
  assert (Hx0 : 0 <= 1 - j + 2 * j * r) by nra.
  assert (Hx1 : 1 - j + 2 * j * r <= 1 + j) by nra.
  destruct (Qlt_le_dec d 0) as [Hneg|Hpos]; nra.
Qed.

(** X12. After [record_request] has noted a request to a domain,
    [wait_if_needed] for a URL of that domain returns no sooner than the
    delay [get_delay] computes after the instant of the recorded request:
    it sleeps for what is missing of that delay, or not at all when the
    delay has passed. *)
Theorem wait_if_needed_spaces_requests (tm : ThrottleManager) (u : string)
    (rt : option Q) (sc : option Z) (err : bool) (w w2 : World) :
  let tm' := record_request netloc tm u rt sc err w in
  let delay := fst (get_delay netloc tm' u w2) in
  w_now w + delay <= w_now (wait_if_needed netloc tm' u w2)
  /\ (w_now w2 <= w_now w + delay ->
      w_now (wait_if_needed netloc tm' u w2) == w_now w + delay)
  /\ (w_now w + delay <= w_now w2 ->
      sleeps (w_trace (wait_if_needed netloc tm' u w2)) = sleeps (w_trace w2)).
Proof.
  intros tm' delay.
  assert (Hl : last_request_time tm' !! netloc u = Some (w_now w)).
  { unfold tm', record_request, _extract_domain. cbn [last_request_time].
    apply lookup_insert_eq. }
  assert (Hg : forall x, w_now (snd (get_delay netloc x u w2)) = w_now w2
                         /\ w_trace (snd (get_delay netloc x u w2)) = w_trace w2).
  { intros x. unfold get_delay. destruct (domain_stats x !! _extract_domain netloc u);
      unfold _apply_jitter, uniform, random; cbn; auto. }
  unfold wait_if_needed, _extract_domain. rewrite Hl.
  fold (_extract_domain netloc u). unfold delay.
  destruct (Hg tm') as [Hn Ht].
  destruct (get_delay netloc tm' u w2) as [dl w3]. cbn [fst snd] in *.
  destruct (Qltb (w_now w2 - w_now w) dl) eqn:E.
  - apply Qltb_lt in E. cbn [sleep w_now w_trace]. rewrite Hn.
    split; [lra|]. split; [intros _; lra|]. intros H. lra.
  - apply Qltb_ge in E. rewrite Hn, Ht.
    split; [lra|]. split; [intros H; lra|]. reflexivity.
Qed.

End Laws.

Lemma record_request_windows_witness :
  windows_bounded (record_request Urls.host_of ThrottleScenario.manager
                     "http://slow.onion/page" (Some 3) (Some 200%Z) false
                     (Scenario.world_with Scenario.dead_net)).
Proof.
  apply (record_request_windows Urls.host_of ThrottleScenario.manager
           "http://slow.onion/page" (Some 3) (Some 200%Z) false
           (Scenario.world_with Scenario.dead_net)).
  intros d st Hd. unfold ThrottleScenario.manager in Hd. cbn [domain_stats] in Hd.
  apply lookup_singleton_Some in Hd. destruct Hd as [_ <-]. cbn. lia.
Defined.

Lemma record_request_other_domain_witness :
  let tm' := record_request Urls.host_of ThrottleScenario.manager
               "http://fast.onion/" (Some 1) (Some 200%Z) false
               (Scenario.world_with Scenario.dead_net) in
  domain_stats tm' !! Urls.host_of "http://slow.onion/page"
  = domain_stats ThrottleScenario.manager !! Urls.host_of "http://slow.onion/page".
Proof.
  apply (record_request_other_domain Urls.host_of ThrottleScenario.manager
           "http://fast.onion/" "http://slow.onion/page" (Some 1) (Some 200%Z) false
           (Scenario.world_with Scenario.dead_net)
           (Scenario.world_with Scenario.dead_net)).
  vm_compute. discriminate.
Defined.

Lemma get_delay_bounded_witness :
  fst (get_delay Urls.host_of ThrottleScenario.manager "http://slow.onion/page"
         (Scenario.world_with Scenario.dead_net))
  <= max_delay ThrottleScenario.manager * (1 + jitter ThrottleScenario.manager).
Proof.
  apply (get_delay_bounded Urls.host_of ThrottleScenario.manager
           "http://slow.onion/page" (Scenario.world_with Scenario.dead_net)
           ThrottleScenario.slow_stats).
  - vm_compute. reflexivity.
  - split; vm_compute; discriminate.
  - vm_compute. discriminate.
  - split; vm_compute; discriminate.
Defined.

End ThrottleLaws.

(** ** onion_database.py: further laws of [OnionLinkDatabase] *)

Module DatabaseLaws.
Import Database.

Lemma find_none_not_in (u : string) (rows : list LinkRecord) :
  List.find (fun r => String.eqb (url r) u) rows = None ->
  ~ In u (List.map url rows).
Proof.
  induction rows as [|r rows IH]; simpl; intros H; [tauto|].
  destruct (String.eqb_spec (url r) u) as [E|E]; [discriminate|].
  intros [Hu|Hu]; [contradiction|exact (IH H Hu)].
Qed.



Lemma NoDup_snoc {A} (l : list A) (x : A) :
  List.NoDup l -> ~ In x l -> List.NoDup (l ++ [x]).
Proof.
  induction l as [|y l IH]; intros Hn Hx; simpl.
  - constructor; [intros []|constructor].
  - inversion Hn as [|? ? Hy Hl]; subst. constructor.
    + rewrite in_app_iff. simpl. intros [H|[H|[]]]; [contradiction|].
      apply Hx. left. symmetry. exact H.
    + apply IH; [exact Hl|]. intros H. apply Hx. right. exact H.
Qed.

Lemma next_rowid_above (rows : list LinkRecord) (r : LinkRecord) :
  In r rows -> (id r < next_rowid rows)%Z.
Proof.
  unfold next_rowid. induction rows as [|x rows IH]; simpl; intros H; [contradiction|].
  destruct H as [->|H]; [lia|]. specialize (IH H). lia.
Qed.

Lemma next_rowid_new (rows : list LinkRecord) :
  ~ In (next_rowid rows) (List.map id rows).
Proof.
  intros H. apply in_map_iff in H. destruct H as (r & Hid & Hin).
  pose proof (next_rowid_above rows r Hin). lia.
Qed.

Lemma update_rows_count (u : string) (p : LinkPatch) (now : Q) (rows : list LinkRecord) :
  List.NoDup (List.map url rows) -> (fst (update_rows u p now rows) <= 1)%nat.
Proof.
  induction rows as [|r rows IH]; simpl; intros Hn; [lia|].
  inversion Hn as [|? ? Hr Hrows]; subst. specialize (IH Hrows).
  destruct (update_rows u p now rows) as [n rows'] eqn:E. cbn [fst] in *.
  destruct (String.eqb_spec (url r) u) as [Hu|Hu]; cbn [fst]; [|exact IH].
  assert (Hmiss : List.find (fun r => String.eqb (url r) u) rows = None).
  { destruct (List.find (fun r => String.eqb (url r) u) rows) as [x|] eqn:F;
      [|reflexivity].
    apply find_some in F. destruct F as [Hin Hx]. apply String.eqb_eq in Hx.
    exfalso. apply Hr. rewrite Hu, <- Hx. apply in_map. exact Hin. }
  rewrite (DatabaseFacts.update_rows_miss u p now rows Hmiss) in E.
  injection E as <- _. lia.
Qed.

(** X14. The writers keep what the schema declares: in a table whose URLs
    and ids are pairwise distinct they stay so after [add_link] (the new
    row takes an id above all others), after [update_link] and after
    [add_crawl_history]; and [update_link] then changes one row at most. *)
Theorem writers_keep_unique_rows (u ttl descr cat preview source st : string)
    (tgs : option (list string)) (meta : option (list (string * Json)))
    (kwargs : LinkPatch) (rt : option Q) (err : option string) (now : Q)
    (db : OnionLinkDatabase) :
  unique_rows db ->
  unique_rows (snd (add_link u ttl descr cat preview source tgs meta now db))
  /\ unique_rows (snd (update_link u kwargs now db))
  /\ unique_rows (snd (add_crawl_history u st rt err now db))
  /\ (fst (update_rows u kwargs now (onion_links db)) <= 1)%nat.
Proof.
  intros [Hu Hi]. split; [|split; [|split]].
  - unfold add_link. destruct (negb (same_thread db)); [split; assumption|].
    destruct (find_link u db) eqn:E; [split; assumption|].
    unfold unique_rows. cbn [snd onion_links]. rewrite !map_app. cbn [List.map url id].
    split; apply NoDup_snoc; auto.
    + apply find_none_not_in. exact E.
    + apply next_rowid_new.
  - unfold update_link. destruct (negb (same_thread db)); [split; assumption|].
    unfold unique_rows.
    destruct (DatabaseFacts.update_rows_urls u kwargs now (onion_links db)) as [H1 H2].
    destruct (update_rows u kwargs now (onion_links db)) as [n rows].
    cbn [fst snd onion_links] in *. rewrite H1, H2. split; assumption.
  - unfold add_crawl_history. destruct (negb (same_thread db)); [split; assumption|].
    destruct (find_link u db); split; assumption.
  - apply update_rows_count. exact Hu.
Qed.

Lemma writers_keep_unique_rows_witness :
  unique_rows (snd (add_link "http://new.onion/" "t" "d" "forum" "p" "seed" None None
                      1000 DatabaseScenario.db)).
Proof.
  apply (writers_keep_unique_rows "http://new.onion/" "t" "d" "forum" "p" "seed" "success"
           None None DatabaseScenario.activate None None 1000 DatabaseScenario.db).
  split; cbn; repeat constructor; cbn; intuition discriminate.
Defined.

Lemma update_rows_all_hit (u : string) (p : LinkPatch) (now : Q)
    (rows : list LinkRecord) (r' : LinkRecord) :
  In r' (snd (update_rows u p now rows)) ->
  url r' = u ->
  exists r : LinkRecord, In r rows /\ r' = apply_patch p now r.
Proof.
  induction rows as [|x rows IH]; simpl; intros Hin Hu; [contradiction|].
  destruct (update_rows u p now rows) as [n rows']. cbn [snd] in *.
  destruct (String.eqb_spec (url x) u) as [E|E]; cbn [snd] in Hin;
    destruct Hin as [<-|Hin].
  - exists x. split; [left; reflexivity|reflexivity].
  - destruct (IH Hin Hu) as (r & H1 & H2). exists r. split; [right; exact H1|exact H2].
  - contradiction.
  - destruct (IH Hin Hu) as (r & H1 & H2). exists r. split; [right; exact H1|exact H2].
Qed.

Lemma update_rows_other_rows (u : string) (p : LinkPatch) (now : Q)
    (rows : list LinkRecord) (r' : LinkRecord) :
  In r' (snd (update_rows u p now rows)) ->
  url r' <> u ->
  In r' rows.
Proof.
  induction rows as [|x rows IH]; simpl; intros Hin Hu; [contradiction|].
  destruct (update_rows u p now rows) as [n rows']. cbn [snd] in *.
  destruct (String.eqb_spec (url x) u) as [E|E]; cbn [snd] in Hin;
    destruct Hin as [<-|Hin].
  - cbn in Hu. contradiction.
  - right. exact (IH Hin Hu).
  - left. reflexivity.
  - right. exact (IH Hin Hu).
Qed.

(** X15. Called on the thread that opened the connection, [blacklist_link]
    leaves every row of the URL with the status [blacklisted]. As long as
    the rows of a URL have that status, [get_unchecked_links] does not
    return the URL, whatever the limit, the age bound and the time of
    asking; and they keep it through [add_crawl_history], through
    [add_link], and through [update_link] for any other URL. *)
Theorem blacklist_link_excludes (u reason : string) (now : Q) (db : OnionLinkDatabase) :
  same_thread db = true ->
  blacklisted_in u (snd (blacklist_link u reason now db))
  /\ (forall db' : OnionLinkDatabase,
        blacklisted_in u db' ->
        (forall (limit : Z) (hours : option Q) (later : Q),
           ~ In u (get_unchecked_links limit hours later db'))
        /\ (forall (u' st : string) (rt : option Q) (err : option string) (t : Q),
              blacklisted_in u (snd (add_crawl_history u' st rt err t db')))
        /\ (forall (u' ttl descr cat preview source : string)
                   (tgs : option (list string)) (meta : option (list (string * Json)))
                   (t : Q),
              u' <> u \/ find_link u db' <> None ->
              blacklisted_in u
                (snd (add_link u' ttl descr cat preview source tgs meta t db')))
        /\ (forall (u' : string) (kwargs : LinkPatch) (t : Q),
              u' <> u -> blacklisted_in u (snd (update_link u' kwargs t db')))).
Proof.
  intros Ht. split.
  - intros r Hin Hu. unfold blacklist_link, update_link in Hin.
    rewrite Ht in Hin. cbn [negb] in Hin.
    match type of Hin with
    | context [update_rows u ?p now (onion_links db)] =>
        pose proof (update_rows_all_hit u p now (onion_links db) r) as Hall;
        destruct (update_rows u p now (onion_links db)) as [n rows]
    end.
    cbn [fst snd onion_links] in *.
    destruct (Hall Hin Hu) as (r0 & _ & ->). reflexivity.
  - intros db' Hb. split; [|split; [|split]].
    + intros limit hours later H.
      apply DatabaseFacts.get_unchecked_links_skips_blacklisted in H.
      destruct H as (r & Hin & Hu & Hst). exact (Hst (Hb r Hin Hu)).
    + intros u' st rt err t. unfold add_crawl_history.
      destruct (negb (same_thread db')); [exact Hb|].
      destruct (find_link u' db'); exact Hb.
    + intros u' ttl descr cat preview source tgs meta t Hor. unfold add_link.
      destruct (negb (same_thread db')); [exact Hb|].
      destruct (find_link u' db') as [r0|] eqn:E; [exact Hb|].
      intros r Hin Hu. cbn [snd onion_links] in Hin.
      apply in_app_or in Hin. destruct Hin as [Hin|[<-|[]]]; [exact (Hb r Hin Hu)|].
      cbn [url] in Hu. subst u'. destruct Hor as [Hne|Hk]; [contradiction|].
      rewrite E in Hk. contradiction.
    + intros u' kwargs t Hne. unfold update_link.
      destruct (negb (same_thread db')); [exact Hb|].
      pose proof (update_rows_other_rows u' kwargs t (onion_links db')) as Ho.
      destruct (update_rows u' kwargs t (onion_links db')) as [n rows].
      cbn [snd onion_links] in *.
      intros r Hin Hu. apply (Hb r); [|exact Hu].
      apply Ho; [exact Hin|]. rewrite Hu. congruence.
Qed.

Lemma blacklist_link_excludes_witness :
  let u := "http://shop.onion/"%string in
  let db1 := snd (blacklist_link u "spam" 1000 DatabaseScenario.db) in
  blacklisted_in u db1
  /\ ~ In u (get_unchecked_links 20 (Some 24) 2000 db1).
Proof.
  destruct (blacklist_link_excludes "http://shop.onion/" "spam" 1000 DatabaseScenario.db
              eq_refl) as [H1 H2].
  split; [exact H1|].
  destruct (H2 _ H1) as [H3 _]. apply H3.
Defined.

Section Ordering.

Variable before : LinkRecord -> LinkRecord -> bool.
Hypothesis before_true :
  forall a b, before a b = true -> trust_score b <= trust_score a.
Hypothesis before_false :
  forall a b, before a b = false -> trust_score a <= trust_score b.

Lemma insert_by_sorted (x : LinkRecord) (l : list LinkRecord) :
  by_falling_trust l -> by_falling_trust (insert_by before x l).
Proof.
  unfold by_falling_trust.
  induction l as [|y l IH]; intros Hs; simpl.
  - constructor; [constructor|constructor].
  - inversion Hs as [|? ? Hl Hy]; subst.
    destruct (before y x) eqn:E.
    + constructor; [exact (IH Hl)|].
      apply List.Forall_forall. intros z Hz. apply DatabaseFacts.insert_by_In in Hz.
      destruct Hz as [->|Hz]; [exact (before_true _ _ E)|].
      rewrite List.Forall_forall in Hy. exact (Hy z Hz).
    + constructor; [exact Hs|].
      constructor; [exact (before_false _ _ E)|].
      rewrite List.Forall_forall in Hy. apply List.Forall_forall. intros z Hz.
      pose proof (Hy z Hz). pose proof (before_false _ _ E). lra.
Qed.

Lemma order_by_sorted (l : list LinkRecord) : by_falling_trust (order_by before l).
Proof.
  induction l as [|x l IH]; simpl; [constructor|].
  apply insert_by_sorted. exact IH.
Qed.

End Ordering.

Lemma sorted_skipn (n : nat) (l : list LinkRecord) :
  by_falling_trust l -> by_falling_trust (skipn n l).
Proof.
  unfold by_falling_trust. revert l.
  induction n as [|n IH]; intros [|x l] H; simpl; auto.
  inversion H; subst. apply IH. assumption.
Qed.

Lemma sorted_firstn (n : nat) (l : list LinkRecord) :
  by_falling_trust l -> by_falling_trust (firstn n l).
Proof.
  unfold by_falling_trust. revert l.
  induction n as [|n IH]; intros [|x l] H; simpl; try constructor.
  - inversion H; subst. apply IH. assumption.
  - inversion H as [|? ? Hl Hx]; subst.
    rewrite List.Forall_forall in Hx. apply List.Forall_forall.
    intros z Hz. apply Hx. eapply DatabaseFacts.In_firstn_list. exact Hz.
Qed.

Lemma limit_offset_sorted (limit offset : Z) (l : list LinkRecord) :
  by_falling_trust l -> by_falling_trust (limit_offset limit offset l).
Proof.
  intros H. unfold limit_offset.
  destruct (limit <? 0)%Z; [|apply sorted_firstn]; apply sorted_skipn; exact H.
Qed.

Lemma limit_offset_length {A} (limit offset : Z) (l : list A) :
  (0 <= limit)%Z -> (Z.of_nat (length (limit_offset limit offset l)) <= limit)%Z.
Proof.
  intros H. unfold limit_offset.
  destruct (Z.ltb_spec limit 0); [lia|].
  rewrite List.length_firstn. lia.
Qed.



Lemma by_trust_then_oldest_true (a b : LinkRecord) :
  by_trust_then_oldest a b = true -> trust_score b <= trust_score a.
Proof.
  unfold by_trust_then_oldest. intros H. apply orb_true_iff in H.
  destruct H as [H|H].
  - apply Qltb_lt in H. lra.
  - apply andb_true_iff in H. destruct H as [H _]. apply Qeq_bool_iff in H. lra.
Qed.

Lemma by_trust_then_oldest_false (a b : LinkRecord) :
  by_trust_then_oldest a b = false -> trust_score a <= trust_score b.
Proof.
  unfold by_trust_then_oldest. intros H. apply orb_false_iff in H.
  destruct H as [H _]. apply Qltb_ge in H. exact H.
Qed.

(** X16. [get_links_by_status] returns rows of the table that have the
    status asked for, listed by falling trust score, and no more of them
    than a limit that is not negative. *)
Theorem get_links_by_status_selects (st : string) (limit offset : Z)
    (db : OnionLinkDatabase) :
  let rows := get_links_by_status st limit offset db in
  (forall r : LinkRecord, In r rows -> In r (onion_links db) /\ status r = st)
  /\ by_falling_trust rows
  /\ ((0 <= limit)%Z -> (Z.of_nat (length rows) <= limit)%Z).
Proof.
  cbv zeta. unfold get_links_by_status. split; [|split].
  - intros r Hr.
    apply DatabaseFacts.limit_offset_In, DatabaseFacts.order_by_In, filter_In in Hr.
    destruct Hr as [Hin Hs]. apply String.eqb_eq in Hs. split; assumption.
  - apply limit_offset_sorted.
    apply (order_by_sorted _ by_trust_then_oldest_true by_trust_then_oldest_false).
  - apply limit_offset_length.
Qed.








End DatabaseLaws.

(** ** crawler_pool.py: further laws of [CrawlerPool] *)

Module PoolLaws.
Import Pool.

Section Shutdown.

Variables netloc path : string -> string.
Variable C : Type.
Variable get_pool : C -> CrawlerPool.
Variable put_pool : CrawlerPool -> C -> C.
Variable crawl : string -> C -> World -> Result CrawlResult * C * World.

Lemma run_tasks_inactive (urls : list string) (c : C) (w : World) :
  active (get_pool c) = false ->
  run_tasks netloc path C get_pool put_pool crawl urls c w
  = (List.map (fun u => (u, Ok (error_entry u "Crawler pool shutdown"))) urls, c, w).
Proof.
  intros Ha. induction urls as [|u urls IH]; [reflexivity|].
  cbn [run_tasks List.map]. unfold _rate_limited_crawl at 1. rewrite Ha. cbn [negb].
  rewrite IH. reflexivity.
Qed.

(** X18. After [shutdown] a batch crawls nothing: [crawl_batch] calls the
    crawler for none of the URLs, lets no time pass and sends no request,
    and the entry of every URL of the batch is the dictionary with the one
    error [Crawler pool shutdown], empty content and no links. *)
Theorem crawl_batch_after_shutdown (urls : list string) (c : C) (w : World) :
  (forall (p : CrawlerPool) (c0 : C), get_pool (put_pool p c0) = p) ->
  let c' := put_pool (shutdown (get_pool c)) c in
  let out := crawl_batch netloc path C get_pool put_pool crawl urls c' w in
  snd out = w
  /\ snd (fst out) = c'
  /\ (forall u : string,
        In u urls ->
        dict_get u (fst (fst out)) = Some (error_entry u "Crawler pool shutdown"))
  /\ (forall u : string, In u (List.map fst (fst (fst out))) -> In u urls).
Proof.
  intros Hgp c' out.
  assert (Ha : active (get_pool c') = false).
  { unfold c'. rewrite Hgp. reflexivity. }
  assert (Hout : out = (gather (List.map (fun u => (u, Ok (error_entry u "Crawler pool shutdown"))) urls), c', w)).
  { unfold out, crawl_batch. destruct urls as [|u0 urls0] eqn:E; [reflexivity|].
    rewrite <- E. rewrite (run_tasks_inactive urls c' w Ha). reflexivity. }
  rewrite Hout. cbn [fst snd].
  split; [reflexivity|]. split; [reflexivity|]. split.
  - intros u Hu. rewrite PoolFacts.gather_fold.
    destruct (PoolFacts.fold_store_get
                (List.map (fun u => (u, Ok (error_entry u "Crawler pool shutdown"))) urls)
                [] u) as (o & Ho & Hg).
    { rewrite map_map. cbn [fst]. rewrite map_id. exact Hu. }
    apply in_map_iff in Ho. destruct Ho as (u1 & Heq & _).
    injection Heq as <- <-. exact Hg.
  - intros u Hu. rewrite PoolFacts.gather_fold in Hu.
    apply PoolFacts.fold_store_keys in Hu. destruct Hu as [[]|Hu].
    rewrite map_map in Hu. cbn [fst] in Hu. rewrite map_id in Hu. exact Hu.
Qed.

End Shutdown.

Lemma crawl_batch_after_shutdown_witness :
  let c' := shutdown PoolScenario.idle in
  let out := crawl_batch Urls.host_of Urls.path_of CrawlerPool (fun c => c)
               (fun p _ => p) PoolLawsScenario.crawl
               ["http://a.onion/"%string; "http://b.onion/"%string] c'
               (Scenario.world_with Scenario.dead_net) in
  snd out = Scenario.world_with Scenario.dead_net
  /\ snd (fst out) = c'
  /\ (forall u : string,
        In u ["http://a.onion/"%string; "http://b.onion/"%string] ->
        dict_get u (fst (fst out)) = Some (error_entry u "Crawler pool shutdown"))
  /\ (forall u : string,
        In u (List.map fst (fst (fst out))) ->
        In u ["http://a.onion/"%string; "http://b.onion/"%string]).
Proof.
  apply (crawl_batch_after_shutdown Urls.host_of Urls.path_of CrawlerPool (fun c => c)
           (fun p _ => p) PoolLawsScenario.crawl
           ["http://a.onion/"%string; "http://b.onion/"%string] PoolScenario.idle
           (Scenario.world_with Scenario.dead_net)).
  intros p c0. reflexivity.
Defined.

Section Spacing.

Variables netloc path : string -> string.

Lemma throttle_exit (d : string) (p : CrawlerPool) (w : World) :
  (forall k : nat, 0 <= w_rand w k) ->
  default 0 (domain_last_crawl p !! d) + rate_limit p <= w_now (snd (throttle d p w))
  /\ domain_last_crawl (fst (throttle d p w)) !! d = Some (w_now (snd (throttle d p w)))
  /\ rate_limit (fst (throttle d p w)) = rate_limit p.
Proof.
  intros Hr. unfold throttle. cbn [fst snd set_last_crawl domain_last_crawl rate_limit].
  split; [|split; [apply lookup_insert_eq|reflexivity]].
  set (last := default 0 (domain_last_crawl p !! d)).
  set (delay_needed := Qmax 0 (rate_limit p - (w_now w - last))).
  assert (Hm : rate_limit p - (w_now w - last) <= delay_needed) by apply Q.le_max_r.
  destruct (Qltb 0 delay_needed) eqn:E.
  - unfold uniform, random, sleep. cbn [w_now]. specialize (Hr (w_drawn w)). nra.
  - apply Qltb_ge in E. lra.
Qed.

Lemma throttle_all_after (tasks : list (Q * string)) :
  forall (p : CrawlerPool) (w : World) (d : string) (last : Q),
    (forall k : nat, 0 <= w_rand w k) ->
    domain_last_crawl p !! d = Some last ->
    last <= w_now w ->
    forall (j : nat) (a : Q) (u : string) (e : Q),
      nth_error tasks j = Some (a, u) ->
      _extract_domain netloc path u = d ->
      nth_error (fst (fst (throttle_all netloc path tasks p w))) j = Some e ->
      last + rate_limit p <= e.
Proof.
  induction tasks as [|[arrival u0] tasks IH]; intros p w d last Hr Hl Hnow j a u e Hj Hd He.
  { destruct j; discriminate. }
  rewrite PoolFacts.throttle_all_cons in He. cbv zeta in He.
  set (w0 := {| w_now := Qmax (w_now w) arrival; w_net := w_net w;
                w_sent := w_sent w; w_rand := w_rand w; w_drawn := w_drawn w;
                w_fresh := w_fresh w; w_trace := w_trace w |}) in *.
  assert (Hr0 : forall k : nat, 0 <= w_rand w0 k) by exact Hr.
  assert (Hnow0 : w_now w <= w_now w0) by (cbn; apply Q.le_max_l).
  pose proof (PoolFacts.throttle_clock (_extract_domain netloc path u0) p w0 Hr0)
    as [Hc Hrand].
  pose proof (throttle_exit (_extract_domain netloc path u0) p w0 Hr0)
    as (Hexit & Hrec & Hrate).
  pose proof (PoolFacts.throttle_other_domains (_extract_domain netloc path u0) d p w0)
    as Hother.
  destruct (throttle (_extract_domain netloc path u0) p w0) as [p1 w1].
  cbn [fst snd] in *.
  assert (Hr1 : forall k : nat, 0 <= w_rand w1 k) by (rewrite Hrand; exact Hr).
  specialize (IH p1 w1).
  destruct (throttle_all netloc path tasks p1 w1) as [[rest p2] w2].
  cbn [fst snd] in *.
  destruct j as [|j]; cbn [nth_error] in *.
  - injection Hj as <- <-. injection He as <-.
    rewrite Hd, Hl in Hexit. cbn in Hexit. exact Hexit.
  - destruct (String.eqb_spec d (_extract_domain netloc path u0)) as [Heq|Hne].
    + rewrite Heq in Hl, Hd. rewrite Hl in Hexit. cbn [default] in Hexit.
      pose proof (IH _ (w_now w1) Hr1 Hrec ltac:(lra) j a u e Hj Hd He) as H.
      rewrite Hrate in H.
      assert (last <= w_now w1) by lra. lra.
    + rewrite <- Hother in Hl by exact Hne.
      pose proof (IH d last Hr1 Hl ltac:(lra) j a u e Hj Hd He) as H.
      rewrite Hrate in H. exact H.
Qed.

(** X19. The per-domain rate limit is kept. When the tasks of a pool pass
    the throttle block, in whatever order they take the lock, two tasks of
    the same domain leave it at least [rate_limit] seconds apart; the
    random jitter is never negative. *)
Theorem throttle_all_spaces_domain (tasks : list (Q * string)) :
  forall (p : CrawlerPool) (w : World),
    (forall k : nat, 0 <= w_rand w k) ->
    let exits := fst (fst (throttle_all netloc path tasks p w)) in
    forall (i j : nat) (ai aj : Q) (ui uj : string) (ei ej : Q),
      (i < j)%nat ->
      nth_error tasks i = Some (ai, ui) ->
      nth_error tasks j = Some (aj, uj) ->
      _extract_domain netloc path ui = _extract_domain netloc path uj ->
      nth_error exits i = Some ei ->
      nth_error exits j = Some ej ->
      ei + rate_limit p <= ej.
Proof.
  induction tasks as [|[arrival u0] tasks IH]; intros p w Hr exits i j ai aj ui uj ei ej
    Hij Hi Hj Hd Hei Hej.
  { destruct i; discriminate. }
  unfold exits in Hei, Hej. clear exits.
  rewrite PoolFacts.throttle_all_cons in Hei, Hej. cbv zeta in Hei, Hej.
  set (w0 := {| w_now := Qmax (w_now w) arrival; w_net := w_net w;
                w_sent := w_sent w; w_rand := w_rand w; w_drawn := w_drawn w;
                w_fresh := w_fresh w; w_trace := w_trace w |}) in *.
  assert (Hr0 : forall k : nat, 0 <= w_rand w0 k) by exact Hr.
  pose proof (PoolFacts.throttle_clock (_extract_domain netloc path u0) p w0 Hr0)
    as [Hc Hrand].
  pose proof (throttle_exit (_extract_domain netloc path u0) p w0 Hr0)
    as (Hexit & Hrec & Hrate).
  destruct (throttle (_extract_domain netloc path u0) p w0) as [p1 w1].
  cbn [fst snd] in *.
  assert (Hr1 : forall k : nat, 0 <= w_rand w1 k) by (rewrite Hrand; exact Hr).
  specialize (IH p1 w1 Hr1). cbv zeta in IH.
  pose proof (throttle_all_after tasks p1 w1) as Hafter.
  destruct (throttle_all netloc path tasks p1 w1) as [[rest p2] w2].
  cbn [fst snd] in *.
  destruct j as [|j]; [lia|]. cbn [nth_error] in Hj, Hej.
  destruct i as [|i]; cbn [nth_error] in Hi, Hei.
  - injection Hi as <- <-. injection Hei as <-.
    pose proof (Hafter _ (w_now w1) Hr1 Hrec ltac:(lra) j aj uj ej Hj (eq_sym Hd) Hej) as H.
    rewrite Hrate in H. exact H.
  - pose proof (IH i j ai aj ui uj ei ej ltac:(lia) Hi Hj Hd Hei Hej) as H.
    rewrite Hrate in H. exact H.
Qed.

End Spacing.

Lemma throttle_all_spaces_domain_witness :
  let w := Scenario.world_with Scenario.dead_net in
  let exits := fst (fst (throttle_all Urls.host_of Urls.path_of PoolLawsScenario.tasks
                           PoolScenario.idle w)) in
  nth_error exits 0 = Some 1000
  /\ nth_error exits 2 = Some (4009 # 4)
  /\ 1000 + rate_limit PoolScenario.idle <= 4009 # 4.
Proof.
  assert (H0 : nth_error
                 (fst (fst (throttle_all Urls.host_of Urls.path_of PoolLawsScenario.tasks
                              PoolScenario.idle (Scenario.world_with Scenario.dead_net))))
                 0 = Some 1000) by (vm_compute; reflexivity).
  assert (H2 : nth_error
                 (fst (fst (throttle_all Urls.host_of Urls.path_of PoolLawsScenario.tasks
                              PoolScenario.idle (Scenario.world_with Scenario.dead_net))))
                 2 = Some (4009 # 4)) by (vm_compute; reflexivity).
  split; [exact H0|]. split; [exact H2|].
  apply (throttle_all_spaces_domain Urls.host_of Urls.path_of PoolLawsScenario.tasks
           PoolScenario.idle (Scenario.world_with Scenario.dead_net)
           ltac:(intros k; simpl; lra)
           0%nat 2%nat 1000 1001 "http://slow.onion/a"%string "http://slow.onion/c"%string
           1000 (4009 # 4) ltac:(lia) eq_refl eq_refl eq_refl H0 H2).
Defined.

End PoolLaws.

(** ** utils.py and enhanced_crawler.py: further laws of the crawler *)

Module CrawlerLaws.
Import Crawler.

(** X20. [randomize_delay] sleeps once, for a duration between its two
    bounds, when the lower bound is not above the upper one; the random
    draw lies between 0 and 1. *)
Theorem randomize_delay_between (min_delay max_delay : Q) (w : World) :
  min_delay <= max_delay ->
  0 <= w_rand w (w_drawn w) <= 1 ->
  exists delay : Q,
    w_trace (randomize_delay min_delay max_delay w) = w_trace w ++ [EvSleep delay]
    /\ min_delay <= delay <= max_delay
    /\ w_now (randomize_delay min_delay max_delay w) = w_now w + delay
    /\ w_drawn (randomize_delay min_delay max_delay w) = S (w_drawn w).
Proof.
  intros Hmm [H0 H1]. unfold randomize_delay, uniform, random, sleep.
  cbn [w_trace w_now w_drawn].
  eexists. split; [reflexivity|]. split; [split; nra|]. split; reflexivity.
Qed.

Lemma randomize_delay_between_witness :
  exists delay : Q,
    w_trace (randomize_delay 2 5 (Scenario.world_with Scenario.dead_net))
    = w_trace (Scenario.world_with Scenario.dead_net) ++ [EvSleep delay]
    /\ 2 <= delay <= 5
    /\ w_now (randomize_delay 2 5 (Scenario.world_with Scenario.dead_net))
       = w_now (Scenario.world_with Scenario.dead_net) + delay
    /\ w_drawn (randomize_delay 2 5 (Scenario.world_with Scenario.dead_net))
       = S (w_drawn (Scenario.world_with Scenario.dead_net)).
Proof.
  apply (randomize_delay_between 2 5 (Scenario.world_with Scenario.dead_net)).
  - discriminate.
  - split; cbn; discriminate.
Defined.

Section Laws.

Variable urljoin : string -> string -> string.
Variables netloc path : string -> string.
Variable cfg : Config.
Variable quote : string -> string.

(** *** What opening a session leaves alone *)

Lemma check_tor_connection_frame (c : EnhancedTorCrawler) (w : World) :
  let c' := snd (fst (check_tor_connection c w)) in
  link_db c' = link_db c /\ parallel_enabled c' = parallel_enabled c
  /\ crawler_pool c' = crawler_pool c /\ error_count c' = error_count c.
Proof.
  unfold check_tor_connection.
  destruct (Connection.is_none (session c)).
  - destruct (Connection.get_session false (connection_manager c) w) as [[s cm] w'].
    destruct (Connection.perform_request _ _ _ _ _ _ _ _) as [[r cm2] w2].
    destruct r as [resp|e]; [|cbn; auto].
    destruct (status_code resp =? 200)%Z; [|cbn; auto].
    destruct (is_tor resp) as [[|]|]; cbn; auto.
  - destruct (Connection.perform_request _ _ _ _ _ _ _ _) as [[r cm2] w2].
    destruct r as [resp|e]; [|cbn; auto].
    destruct (status_code resp =? 200)%Z; [|cbn; auto].
    destruct (is_tor resp) as [[|]|]; cbn; auto.
Qed.

Lemma start_tor_session_frame (c : EnhancedTorCrawler) (w : World) :
  let c' := fst (start_tor_session c w) in
  link_db c' = link_db c /\ parallel_enabled c' = parallel_enabled c
  /\ crawler_pool c' = crawler_pool c /\ error_count c' = error_count c.
Proof.
  unfold start_tor_session.
  destruct (Connection.get_session false (connection_manager c) w) as [[s cm] w1].
  pose proof (check_tor_connection_frame (set_session s (set_connection_manager cm c)) w1)
    as H.
  destruct (check_tor_connection (set_session s (set_connection_manager cm c)) w1)
    as [[b c2] w2].
  cbn [fst snd] in *. exact H.
Qed.

(** X21. [check_onion_status] answers [True] exactly when
    [perform_request] returned a response to the HEAD request. It never
    touches the rows of [onion_links]. Called on the thread that opened
    the connection, for a URL the database knows, it appends one entry to
    the crawl history, for the row of that URL and with the time the
    request took: marked [success] and without error message when
    [perform_request] returned, marked [error] and with the text of the
    exception when [perform_request] raised. For a URL the database does
    not know, or on another thread, nothing is recorded, although the
    answer is given all the same. *)
Theorem check_onion_status_records (u : string) (c : EnhancedTorCrawler) (w : World) :
  let cw := if Connection.is_none (session c) then start_tor_session c w else (c, w) in
  let request :=
    Connection.perform_request "head" u false 1 1 2
      (connection_manager (fst cw)) (snd cw) in
  let out := check_onion_status u c w in
  let db := link_db c in
  let db' := link_db (snd (fst out)) in
  (fst (fst out) = true <-> exists resp : Response, fst (fst request) = Ok resp)
  /\ Database.onion_links db' = Database.onion_links db
  /\ (Database.find_link u db = None \/ Database.same_thread db = false ->
      Database.crawl_history db' = Database.crawl_history db)
  /\ (Database.same_thread db = true ->
      forall r : Database.LinkRecord,
        Database.find_link u db = Some r ->
        exists h : Database.CrawlHistoryEntry,
          Database.crawl_history db' = Database.crawl_history db ++ [h]
          /\ Database.onion_id h = Database.id r
          /\ Database.response_time h = Some (w_now (snd request) - w_now (snd cw))
          /\ match fst (fst request) with
             | Ok _ =>
                 Database.outcome h = "success"%string
                 /\ Database.error_message h = None
             | Raise e =>
                 Database.outcome h = "error"%string
                 /\ Database.error_message h = Some e
             end).
Proof.
  cbv zeta. unfold check_onion_status.
  assert (H0 : link_db (fst (if Connection.is_none (session c)
                             then start_tor_session c w else (c, w))) = link_db c).
  { destruct (Connection.is_none (session c)); [|reflexivity].
    apply start_tor_session_frame. }
  destruct (if Connection.is_none (session c) then start_tor_session c w else (c, w))
    as [c0 w0].
  cbn [fst snd] in *.
  destruct (Connection.perform_request "head" u false 1 1 2 (connection_manager c0) w0)
    as [[r cm] w1].
  cbn [fst snd].
  destruct r as [resp|e]; unfold Database.add_crawl_history;
    cbn [link_db set_connection_manager]; rewrite H0;
    destruct (Database.same_thread (link_db c)) eqn:Et; cbn [negb];
    try destruct (Database.find_link u (link_db c)) as [r0|] eqn:Ef;
    cbn [fst snd link_db set_link_db Database.onion_links Database.crawl_history].
  all: split; [split; [intros H; try discriminate H; eauto
                      |intros [x Hx]; try discriminate Hx; reflexivity]|].
  all: split; [reflexivity|].
  all: split; [intros [H|H]; try discriminate H; reflexivity|].
  all: intros Ht r Hr; try discriminate Ht; try discriminate Hr.
  all: injection Hr as <-; eexists; split; [reflexivity|]; cbn; repeat split; reflexivity.
Qed.

(** *** [batch_crawl] *)

Lemma tally_counts (data : CrawlResult) (r : BatchStats) :
  (successful (tally data r) + failed (tally data r) = S (successful r + failed r))%nat
  /\ total (tally data r) = total r.
Proof.
  unfold tally. destruct (cr_errors data); cbn; split; lia.
Qed.

Lemma insert_by_Permutation {A} (before : A -> A -> bool) (x : A) (l : list A) :
  Permutation (x :: l) (Database.insert_by before x l).
Proof.
  induction l as [|y l IH]; cbn; [reflexivity|].
  destruct (before y x); [|reflexivity].
  rewrite perm_swap. apply perm_skip. exact IH.
Qed.

Lemma order_by_Permutation {A} (before : A -> A -> bool) (l : list A) :
  Permutation l (Database.order_by before l).
Proof.
  induction l as [|x l IH]; cbn; [reflexivity|].
  rewrite <- insert_by_Permutation. apply perm_skip. exact IH.
Qed.

Lemma NoDup_map_filter {A B} (g : A -> B) (p : A -> bool) (l : list A) :
  List.NoDup (List.map g l) -> List.NoDup (List.map g (List.filter p l)).
Proof.
  induction l as [|x l IH]; cbn; intros H; [constructor|].
  inversion H as [|? ? Hx Hl]; subst.
  destruct (p x); cbn; [|exact (IH Hl)].
  constructor; [|exact (IH Hl)].
  intros Hin. apply Hx. apply in_map_iff in Hin. destruct Hin as (y & Hy & Hin).
  apply filter_In in Hin. rewrite <- Hy. apply in_map. apply Hin.
Qed.

Lemma NoDup_map_limit_offset {A B} (g : A -> B) (limit offset : Z) (l : list A) :
  List.NoDup (List.map g l) ->
  List.NoDup (List.map g (Database.limit_offset limit offset l)).
Proof.
  intros H. unfold Database.limit_offset.
  assert (Hs : List.NoDup (List.map g (skipn (Z.to_nat offset) l))).
  { rewrite <- (firstn_skipn (Z.to_nat offset) l), map_app in H.
    exact (NoDup_app_remove_l _ _ H). }
  destruct (limit <? 0)%Z; [exact Hs|].
  rewrite <- (firstn_skipn (Z.to_nat limit) (skipn (Z.to_nat offset) l)), map_app in Hs.
  exact (NoDup_app_remove_r _ _ Hs).
Qed.

Lemma get_unchecked_links_NoDup (limit : Z) (hours : option Q) (now : Q)
    (db : Database.OnionLinkDatabase) :
  unique_rows db -> List.NoDup (Database.get_unchecked_links limit hours now db).
Proof.
  intros [Hu _]. unfold Database.get_unchecked_links.
  destruct (Database.truthy hours); apply NoDup_map_limit_offset;
    (eapply Permutation_NoDup;
     [apply Permutation_map; apply order_by_Permutation
     |apply NoDup_map_filter; exact Hu]).
Qed.

Lemma fold_tally (results : list (string * CrawlResult)) :
  forall r : BatchStats,
    let r' := fold_left (fun r '(_, data) => tally data r) results r in
    (successful r' + failed r' = successful r + failed r + length results)%nat
    /\ total r' = total r.
Proof.
  induction results as [|[k data] results IH]; intros r; cbn; [split; lia|].
  destruct (IH (tally data r)) as [H1 H2]. cbv zeta in H1, H2.
  destruct (tally_counts data r) as [T1 T2]. split; [lia|congruence].
Qed.

Lemma fold_tally_sequential (links : list string) :
  forall (r : BatchStats) (c : EnhancedTorCrawler) (w : World),
    let r' :=
      fst (fst (fold_left
                  (fun '(r, c1, w1) link =>
                     let '(data, c2, w2) :=
                       crawl_with_recovery urljoin netloc path cfg link 1 c1 w1 in
                     (tally data r, c2,
                      randomize_delay (CRAWL_DELAY_MIN cfg) (CRAWL_DELAY_MAX cfg) w2))
                  links (r, c, w))) in
    (successful r' + failed r' = successful r + failed r + length links)%nat
    /\ total r' = total r.
Proof.
  induction links as [|link links IH]; intros r c w; cbn [fold_left]; [cbn; split; lia|].
  destruct (crawl_with_recovery urljoin netloc path cfg link 1 c w) as [[data c2] w2].
  destruct (IH (tally data r) c2
              (randomize_delay (CRAWL_DELAY_MIN cfg) (CRAWL_DELAY_MAX cfg) w2))
    as [H1 H2].
  cbv zeta in H1, H2.
  destruct (tally_counts data r) as [T1 T2]. cbn [length]. split; [lia|congruence].
Qed.

(** X22. The tally of [batch_crawl] adds up: every selected link is counted
    once, as successful or as failed, so the two counters sum to [total],
    which is the number of links selected. In the parallel branch the
    results come back keyed by URL, and the count relies on the URLs of the
    table being distinct, as the schema has it. *)
Theorem batch_crawl_accounts (batch_size : Z) (c : EnhancedTorCrawler) (w : World) :
  unique_rows (link_db c) ->
  let stats := fst (fst (batch_crawl urljoin netloc path cfg batch_size c w)) in
  (successful stats + failed stats = total stats)%nat
  /\ total stats = length (batch_selection cfg batch_size c w).
Proof.
  intros Hu. cbv zeta. unfold batch_crawl.
  pose proof (get_unchecked_links_NoDup batch_size (Some (RECRAWL_HOURS cfg)) (w_now w)
                (link_db c) Hu) as Hnd.
  fold (batch_selection cfg batch_size c w) in Hnd.
  remember (batch_selection cfg batch_size c w) as links eqn:El.
  destruct links as [|l0 links0] eqn:E; [cbn; split; reflexivity|].
  rewrite <- E in *. clear E l0 links0.
  destruct (parallel_enabled c && (1 <? length links)%nat).
  - unfold pooled_crawl.
    pose proof (PoolFacts.crawl_batch_keys netloc path EnhancedTorCrawler crawler_pool
                  set_crawler_pool
                  (fun link => on_worker_thread (crawl_onion urljoin netloc path cfg link 1 true))
                  links c w) as [Hk1 Hk2].
    cbv zeta in Hk1, Hk2.
    destruct (Pool.crawl_batch netloc path EnhancedTorCrawler crawler_pool
                set_crawler_pool
                (fun link => on_worker_thread (crawl_onion urljoin netloc path cfg link 1 true)) links c w)
      as [[crawl_results c1] w1].
    cbn [fst snd] in *.
    assert (Hlen : length crawl_results = length links).
    { rewrite <- (length_map fst crawl_results).
      apply Permutation_length.
      apply Stdlib.Sorting.Permutation.NoDup_Permutation; assumption. }
    match goal with
    | |- context [fold_left _ crawl_results ?r0] =>
        destruct (fold_tally crawl_results r0) as [H1 H2]
    end.
    cbv zeta in H1, H2. cbn [successful failed total] in H1, H2.
    split; [lia|exact H2].
  - match goal with
    | |- context [fold_left _ links (?r0, c, w)] =>
        destruct (fold_tally_sequential links r0 c w) as [H1 H2]
    end.
    cbv zeta in H1, H2. cbn [successful failed total] in H1, H2.
    split; [lia|exact H2].
Qed.

(** *** [search_engines_query] *)

Lemma contains_false (l : list string) (x : string) :
  contains l x = false -> ~ In x l.
Proof.
  unfold contains. intros H Hin.
  assert (existsb (String.eqb x) l = true).
  { apply existsb_exists. exists x. split; [exact Hin|apply String.eqb_refl]. }
  congruence.
Qed.

Lemma keep_new_links_inv (query engine_url engine_title : string) (now : Q)
    (links : list string) :
  forall acc : list string * Database.OnionLinkDatabase,
    Forall (fun x => is_onion x = true) (fst acc) ->
    List.NoDup (fst acc) ->
    Forall (fun x => is_onion x = true)
      (fst (keep_new_links query engine_url engine_title links now acc))
    /\ List.NoDup (fst (keep_new_links query engine_url engine_title links now acc)).
Proof.
  unfold keep_new_links.
  induction links as [|link links IH]; intros [urls db] Ho Hn; cbn [fold_left];
    [split; assumption|].
  cbn [fst] in Ho, Hn.
  destruct (is_onion link) eqn:E1; cbn [andb]; [|apply IH; assumption].
  destruct (negb (String.eqb link engine_url)); cbn [andb]; [|apply IH; assumption].
  destruct (contains urls link) eqn:E3; cbn [negb]; [apply IH; assumption|].
  apply IH; cbn [fst].
  - apply Forall_app. split; [exact Ho|]. constructor; [exact E1|constructor].
  - apply DatabaseLaws.NoDup_snoc; [exact Hn|]. apply contains_false. exact E3.
Qed.

(** X23. Every URL [search_engines_query] returns is an onion address.
    When the database lists search engines, no URL is returned twice,
    whether the engines are queried in parallel or one after the other. *)
Theorem search_engines_query_onion (query : string) (max_engines : Z)
    (c : EnhancedTorCrawler) (w : World) :
  let found :=
    fst (fst (search_engines_query urljoin netloc path cfg quote query max_engines c w)) in
  Forall (fun x => is_onion x = true) found
  /\ (engine_selection max_engines c <> [] -> List.NoDup found).
Proof.
  cbv zeta. unfold search_engines_query.
  destruct (engine_selection max_engines c) as [|e0 engines0] eqn:E.
  - split; [|congruence].
    destruct (CLEARNET_FALLBACK_ENABLED cfg); [|constructor].
    destruct (tavily_search c) as [tavily|]; [|constructor].
    assert (H : forall (hits : list SearchHit) (acc : list string * Database.OnionLinkDatabase),
               Forall (fun x => is_onion x = true) (fst acc) ->
               Forall (fun x => is_onion x = true)
                 (fst (fold_left
                         (fun '(discovered_urls, db) result =>
                            if negb (Pool.is_empty (hit_url result))
                               && is_onion (hit_url result)
                            then
                              (discovered_urls ++ [hit_url result],
                               snd (Database.add_link (hit_url result) (hit_title result)
                                      (String.substring 0 200 (hit_content result))
                                      EmptyString EmptyString "clearnet_search" None
                                      (Some [("search_query", Database.JStr query);
                                             ("search_engine", Database.JStr "clearnet_tavily");
                                             ("discovery_date", Database.JTime (w_now w))])
                                      (w_now w) db))
                            else (discovered_urls, db))
                         hits acc))).
    { induction hits as [|hit hits IH]; intros [urls db] Ho; cbn [fold_left]; [exact Ho|].
      cbn [fst] in Ho.
      destruct (negb (Pool.is_empty (hit_url hit))); cbn [andb]; [|apply IH; exact Ho].
      destruct (is_onion (hit_url hit)) eqn:E1; [|apply IH; exact Ho].
      apply IH. cbn [fst]. apply Forall_app. split; [exact Ho|].
      constructor; [exact E1|constructor]. }
    specialize (H (search tavily query) ([], link_db c) ltac:(constructor)).
    destruct (fold_left _ (search tavily query) ([], link_db c)) as [urls db].
    exact H.
  - rewrite <- E. clear E e0 engines0.
    remember (engine_selection max_engines c) as engines eqn:Ee. clear Ee.
    match goal with
    | |- ?P /\ (_ -> ?Q) => cut (P /\ Q); [intros [H1 H2]; split; [exact H1|intros _; exact H2]|]
    end.
    destruct (parallel_enabled c && (1 <? length (List.map _ engines))%nat).
    + destruct (pooled_crawl urljoin netloc path cfg _ 0 c w) as [[results c1] w1].
      match goal with
      | |- context [fold_left ?step results ?acc0] =>
          assert (H : forall (rs : list (string * CrawlResult))
                             (acc : list string * Database.OnionLinkDatabase),
                    Forall (fun x => is_onion x = true) (fst acc) ->
                    List.NoDup (fst acc) ->
                    Forall (fun x => is_onion x = true) (fst (fold_left step rs acc))
                    /\ List.NoDup (fst (fold_left step rs acc)))
      end.
      { induction rs as [|[search_url data] rs IH]; intros acc Ho Hn; cbn [fold_left];
          [split; assumption|].
        destruct (dict_get search_url _) as [e|];
          (apply IH; [eapply proj1|eapply proj2]; apply keep_new_links_inv; assumption). }
      specialize (H results ([], link_db c1) ltac:(constructor) ltac:(constructor)).
      destruct (fold_left _ results ([], link_db c1)) as [urls db]. exact H.
    + match goal with
      | |- context [fold_left ?step engines (?l0, c, w)] =>
          assert (H : forall (es : list Database.LinkRecord) (urls : list string)
                             (c0 : EnhancedTorCrawler) (w0 : World),
                    Forall (fun x => is_onion x = true) urls ->
                    List.NoDup urls ->
                    Forall (fun x => is_onion x = true)
                      (fst (fst (fold_left step es (urls, c0, w0))))
                    /\ List.NoDup (fst (fst (fold_left step es (urls, c0, w0)))))
      end.
      { induction es as [|e es IH]; intros urls c0 w0 Ho Hn; cbn [fold_left];
          [split; assumption|].
        destruct (crawl_with_recovery urljoin netloc path cfg _ 0 c0 w0) as [[data c2] w2].
        destruct (keep_new_links_inv query (Database.url e) (Database.title e) (w_now w2)
                    (cr_links data) (urls, link_db c2) Ho Hn) as [K1 K2].
        destruct (keep_new_links query (Database.url e) (Database.title e)
                    (cr_links data) (w_now w2) (urls, link_db c2)) as [urls' db].
        apply IH; assumption. }
      apply H; constructor.
Qed.

(** *** What a crawl keeps *)

Lemma preserves_bind {A B} (P : CrawlResult -> EnhancedTorCrawler -> Prop)
    (m : Try A) (k : A -> Try B) :
  preserves P m -> (forall a : A, preserves P (k a)) -> preserves P (bind m k).
Proof.
  intros Hm Hk f Hf. unfold bind. specialize (Hm f Hf).
  destruct (m f) as [[a|e] f1]; cbn [snd] in *; [apply Hk; exact Hm|exact Hm].
Qed.

Lemma preserves_ret {A} (P : CrawlResult -> EnhancedTorCrawler -> Prop) (a : A) :
  preserves P (ret a).
Proof. intros f Hf. exact Hf. Qed.

Lemma preserves_throw {A} (P : CrawlResult -> EnhancedTorCrawler -> Prop) (e : string) :
  preserves P (@throw A e).
Proof. intros f Hf. exact Hf. Qed.

Lemma preserves_lift {A} (P : CrawlResult -> EnhancedTorCrawler -> Prop) (r : Result A) :
  preserves P (lift r).
Proof. intros f Hf. exact Hf. Qed.

Lemma preserves_read_data (P : CrawlResult -> EnhancedTorCrawler -> Prop) :
  preserves P read_data.
Proof. intros f Hf. exact Hf. Qed.

Lemma preserves_time_time (P : CrawlResult -> EnhancedTorCrawler -> Prop) :
  preserves P time_time.
Proof. intros f Hf. exact Hf. Qed.

Lemma preserves_session_get (P : CrawlResult -> EnhancedTorCrawler -> Prop) (u : string) :
  preserves P (session_get u).
Proof.
  intros f Hf. unfold session_get. destruct (session (self f)) as [s|]; [|exact Hf].
  destruct (send s "get" u (world f)) as [[err d|resp] w1]; exact Hf.
Qed.

Lemma preserves_for_each {A} (P : CrawlResult -> EnhancedTorCrawler -> Prop)
    (l : list A) (body : A -> Try unit) :
  (forall a : A, preserves P (body a)) -> preserves P (for_each l body).
Proof.
  intros Hb. induction l as [|x l IH]; cbn [for_each]; [apply preserves_ret|].
  apply preserves_bind; [apply Hb|intros _; exact IH].
Qed.

Section Invariant.

Variable store_in_db : bool.
Variable db0 : Database.OnionLinkDatabase.
Variable parallel : bool.

Lemma invariant_update_data (g : CrawlResult -> CrawlResult) :
  (forall d : CrawlResult, cr_links (g d) = cr_links d) ->
  preserves (crawl_invariant store_in_db db0 parallel) (update_data g).
Proof.
  intros Hg f (H1 & H2 & H3). unfold update_data. cbn [snd crawled_data self].
  split; [unfold links_onion; rewrite Hg; exact H1|]. split; assumption.
Qed.

Lemma invariant_update_self (g : EnhancedTorCrawler -> EnhancedTorCrawler) :
  (forall c : EnhancedTorCrawler,
     parallel_enabled (g c) = parallel_enabled c /\ link_db (g c) = link_db c) ->
  preserves (crawl_invariant store_in_db db0 parallel) (update_self g).
Proof.
  intros Hg f (H1 & H2 & H3). unfold update_self. cbn [snd crawled_data self].
  destruct (Hg (self f)) as [G1 G2].
  split; [exact H1|]. split; [congruence|]. intros Hs Hp. rewrite G2. auto.
Qed.

Lemma invariant_on_db
    (op : Q -> Database.OnionLinkDatabase -> bool * Database.OnionLinkDatabase) :
  preserves (crawl_invariant true db0 parallel) (on_db op).
Proof.
  intros f (H1 & H2 & H3). unfold on_db.
  destruct (op (w_now (world f)) (link_db (self f))) as [b db].
  cbn [snd crawled_data self].
  split; [exact H1|]. split; [exact H2|]. intros Hf. discriminate.
Qed.

Lemma invariant_collect_anchor (u : string) (a_tag : string * string) :
  preserves (crawl_invariant store_in_db db0 parallel)
    (collect_anchor urljoin u store_in_db a_tag).
Proof.
  destruct a_tag as [href0 link_text]. unfold collect_anchor.
  destruct (is_onion (if is_absolute href0 then href0 else urljoin u href0)) eqn:E;
    [|apply preserves_ret].
  apply preserves_bind.
  - intros f (H1 & H2 & H3). unfold update_data. cbn [snd crawled_data self].
    split; [|split; assumption].
    unfold links_onion. cbn [cr_links set_links].
    apply Forall_app. split; [exact H1|]. constructor; [exact E|constructor].
  - intros _. destruct store_in_db eqn:Es; [|apply preserves_ret].
    apply preserves_bind; [|intros _; apply preserves_ret].
    intros f (H1 & H2 & H3). unfold on_db.
    match goal with
    | |- context [Database.add_link ?h ?t ?d ?c ?p ?s ?g ?m ?n ?db] =>
        destruct (Database.add_link h t d c p s g m n db) as [b db']
    end.
    cbn [snd crawled_data self].
    split; [exact H1|]. split; [exact H2|]. intros Hf. discriminate.
Qed.

Lemma invariant_store_crawl (u : string) (response_time : Q) :
  preserves (crawl_invariant true db0 parallel) (store_crawl cfg u response_time).
Proof.
  unfold store_crawl.
  apply preserves_bind; [apply preserves_read_data|intros d].
  apply preserves_bind; [apply preserves_time_time|intros now].
  apply preserves_bind.
  { destruct (cr_was_filtered d) as [[|]|];
      [destruct (cr_filter_reason d)| |];
      first [apply preserves_ret|apply preserves_throw]. }
  intros metadata.
  apply preserves_bind; [apply invariant_on_db|intros _].
  apply preserves_bind; [apply invariant_on_db|intros _].
  apply preserves_ret.
Qed.

Lemma invariant_fetch_and_store (u : string) :
  preserves (crawl_invariant store_in_db db0 parallel)
    (fetch_and_store urljoin cfg u store_in_db).
Proof.
  unfold fetch_and_store.
  apply preserves_bind; [apply preserves_time_time|intros start_time].
  apply preserves_bind; [apply preserves_session_get|intros response].
  apply preserves_bind; [apply preserves_time_time|intros now].
  apply preserves_bind; [apply invariant_update_data; reflexivity|intros _].
  apply preserves_bind; [apply preserves_lift|intros _].
  apply preserves_bind.
  { destruct (pg_title (page response));
      [apply invariant_update_data; reflexivity|apply preserves_ret]. }
  intros _.
  apply preserves_bind.
  { destruct (pg_description (page response));
      [apply invariant_update_data; reflexivity|apply preserves_ret]. }
  intros _.
  apply preserves_bind; [apply invariant_update_data; reflexivity|intros _].
  apply preserves_bind.
  { apply preserves_for_each. intros a. apply invariant_collect_anchor. }
  intros _.
  apply preserves_bind.
  { destruct store_in_db eqn:Es; [|apply preserves_ret].
    apply invariant_store_crawl. }
  intros _. apply invariant_update_self. intros c. split; reflexivity.
Qed.

Lemma invariant_on_crawl_error (u e : string) (start_time : Q) (f : Frame) :
  crawl_invariant store_in_db db0 parallel (crawled_data f) (self f) ->
  let f1 := on_crawl_error u store_in_db start_time e f in
  crawl_invariant store_in_db db0 parallel (crawled_data f1) (self f1).
Proof.
  intros (H1 & H2 & H3). unfold on_crawl_error.
  cbn [crawled_data self]. split; [exact H1|].
  destruct store_in_db.
  - destruct (Database.update_link_status _ _ _ _ _ _ _) as [b1 db1].
    destruct (Database.add_crawl_history _ _ _ _ _ _) as [b2 db2].
    cbn. split; [exact H2|discriminate].
  - cbn. split; [exact H2|exact H3].
Qed.

Lemma invariant_merge_subpage (link : string) (sub_data d : CrawlResult)
    (c : EnhancedTorCrawler) :
  links_onion sub_data ->
  crawl_invariant store_in_db db0 parallel d c ->
  crawl_invariant store_in_db db0 parallel (merge_subpage link sub_data d) c.
Proof.
  intros Hsub (H1 & H2 & H3). split; [|split; assumption].
  unfold links_onion, merge_subpage. cbn [cr_links set_errors set_links].
  apply Forall_app. split; [|exact Hsub].
  destruct (Pool.is_empty (cr_content sub_data)); exact H1.
Qed.

End Invariant.

(** *** The pool hands on what every crawl guarantees *)

Section PoolInvariant.

Variable crawl : string -> EnhancedTorCrawler -> World
                 -> Result CrawlResult * EnhancedTorCrawler * World.
Variable I : EnhancedTorCrawler -> Prop.
Variable R : CrawlResult -> Prop.
Hypothesis error_entry_ok : forall u msg : string, R (Pool.error_entry u msg).
Hypothesis crawl_ok :
  forall (u : string) (c : EnhancedTorCrawler) (w : World),
    I c -> R (Pool.entry_of u (fst (fst (crawl u c w)))) /\ I (snd (fst (crawl u c w))).
Hypothesis put_pool_ok :
  forall (p : Pool.CrawlerPool) (c : EnhancedTorCrawler),
    I c -> I (set_crawler_pool p c).

Lemma run_tasks_invariant (urls : list string) :
  forall (c : EnhancedTorCrawler) (w : World),
    I c ->
    let out := Pool.run_tasks netloc path EnhancedTorCrawler crawler_pool
                 set_crawler_pool crawl urls c w in
    Forall (fun t => R (Pool.entry_of (fst t) (snd t))) (fst (fst out))
    /\ I (snd (fst out)).
Proof.
  induction urls as [|u urls IH]; intros c w Hc; cbn [Pool.run_tasks].
  { cbn. split; [constructor|exact Hc]. }
  assert (H1 : let o := Pool._rate_limited_crawl netloc path EnhancedTorCrawler
                          crawler_pool set_crawler_pool crawl u c w in
               R (Pool.entry_of u (fst (fst o))) /\ I (snd (fst o))).
  { unfold Pool._rate_limited_crawl.
    destruct (negb (Pool.active (crawler_pool c))).
    - cbn. split; [apply error_entry_ok|exact Hc].
    - destruct (Pool.throttle _ (crawler_pool c) w) as [p1 w1].
      pose proof (crawl_ok u (set_crawler_pool p1 c) w1 (put_pool_ok p1 c Hc)) as Hk.
      destruct (crawl u (set_crawler_pool p1 c) w1) as [[r c2] w2]. exact Hk. }
  destruct (Pool._rate_limited_crawl netloc path EnhancedTorCrawler crawler_pool
              set_crawler_pool crawl u c w) as [[o c1] w1].
  cbn [fst snd] in H1. destruct H1 as [Ho Hc1].
  specialize (IH c1 w1 Hc1).
  destruct (Pool.run_tasks netloc path EnhancedTorCrawler crawler_pool
              set_crawler_pool crawl urls c1 w1) as [[rest c2] w2].
  cbn [fst snd] in *. destruct IH as [IH1 IH2].
  split; [constructor; [exact Ho|exact IH1]|exact IH2].
Qed.

Lemma dict_set_Forall (k : string) (v : CrawlResult) (d : list (string * CrawlResult)) :
  R v -> Forall (fun kv => R (snd kv)) d -> Forall (fun kv => R (snd kv)) (dict_set k v d).
Proof.
  intros Hv. induction d as [|[k' v'] d IH]; intros Hd; cbn [dict_set].
  - constructor; [exact Hv|constructor].
  - inversion Hd as [|? ? Hx Hrest]; subst.
    destruct (String.eqb k' k); constructor; auto.
Qed.

Lemma gather_Forall (completed : list (string * Result CrawlResult)) :
  Forall (fun t => R (Pool.entry_of (fst t) (snd t))) completed ->
  Forall (fun kv => R (snd kv)) (Pool.gather completed).
Proof.
  unfold Pool.gather.
  assert (H : forall acc : list (string * CrawlResult),
             Forall (fun kv => R (snd kv)) acc ->
             Forall (fun t => R (Pool.entry_of (fst t) (snd t))) completed ->
             Forall (fun kv => R (snd kv))
               (fold_left
                  (fun results '(u, outcome) =>
                     dict_set u (Pool.entry_of u outcome) results)
                  completed acc)).
  { induction completed as [|[u o] completed IH]; intros acc Ha Hc; cbn [fold_left];
      [exact Ha|].
    inversion Hc as [|? ? Hx Hrest]; subst. cbn [fst snd] in Hx.
    apply IH; [apply dict_set_Forall; assumption|exact Hrest]. }
  apply H. constructor.
Qed.

Lemma crawl_batch_invariant (urls : list string) (c : EnhancedTorCrawler) (w : World) :
  I c ->
  let out := Pool.crawl_batch netloc path EnhancedTorCrawler crawler_pool
               set_crawler_pool crawl urls c w in
  Forall (fun kv => R (snd kv)) (fst (fst out)) /\ I (snd (fst out)).
Proof.
  intros Hc. cbv zeta. unfold Pool.crawl_batch.
  destruct urls as [|u0 urls0] eqn:E; [cbn; split; [constructor|exact Hc]|].
  rewrite <- E. clear E u0 urls0.
  pose proof (run_tasks_invariant urls c w Hc) as H. cbv zeta in H.
  destruct (Pool.run_tasks netloc path EnhancedTorCrawler crawler_pool
              set_crawler_pool crawl urls c w) as [[completed c1] w1].
  cbn [fst snd] in *. destruct H as [H1 H2].
  split; [apply gather_Forall; exact H1|exact H2].
Qed.

End PoolInvariant.

Lemma fold_merge_links (store_in_db : bool) (db0 : Database.OnionLinkDatabase)
    (parallel : bool) (c : EnhancedTorCrawler)
    (sub_results : list (string * CrawlResult)) :
  Forall (fun kv => links_onion (snd kv)) sub_results ->
  forall d : CrawlResult,
    crawl_invariant store_in_db db0 parallel d c ->
    crawl_invariant store_in_db db0 parallel
      (fold_left (fun acc '(link, sub_data) => merge_subpage link sub_data acc)
         sub_results d) c.
Proof.
  induction 1 as [|[link sub] rest Hsub _ IH]; intros d Hd; cbn [fold_left];
    [exact Hd|].
  apply IH. apply invariant_merge_subpage; [exact Hsub|exact Hd].
Qed.

Lemma crawl_onion_invariant (max_depth : nat) :
  forall (u : string) (store_in_db : bool) (c : EnhancedTorCrawler) (w : World),
    let out := crawl_onion urljoin netloc path cfg u max_depth store_in_db c w in
    crawl_invariant store_in_db (link_db c) (parallel_enabled c)
      (fst (fst out)) (snd (fst out)).
Proof.
  induction max_depth as [|depth IH]; intros u store_in_db c w; cbv zeta.
  - cbn [crawl_onion].
    assert (H0 : let cw := if Connection.is_none (session c)
                           then start_tor_session c w else (c, w) in
                 link_db (fst cw) = link_db c
                 /\ parallel_enabled (fst cw) = parallel_enabled c).
    { destruct (Connection.is_none (session c)); [|split; reflexivity].
      destruct (start_tor_session_frame c w) as (F1 & F2 & _). split; assumption. }
    destruct (if Connection.is_none (session c) then start_tor_session c w else (c, w))
      as [c0 w0].
    cbn [fst] in H0. destruct H0 as [Hdb Hpar].
    set (f0 := {| crawled_data := new_crawled_data u; self := c0; world := w0 |}).
    assert (Hf0 : crawl_invariant store_in_db (link_db c) (parallel_enabled c)
                    (crawled_data f0) (self f0)).
    { split; [constructor|]. split; [exact Hpar|]. intros _ _. exact Hdb. }
    pose proof (preserves_bind _ _ (fun _ : unit => ret tt)
                  (invariant_fetch_and_store store_in_db (link_db c)
                     (parallel_enabled c) u)
                  (fun _ => preserves_ret _ tt) f0 Hf0) as Hp.
    destruct (bind (fetch_and_store urljoin cfg u store_in_db) (fun _ : unit => ret tt) f0)
      as [[[]|e] f]; cbn [fst snd] in *; [exact Hp|].
    apply invariant_on_crawl_error. exact Hp.
  - cbn [crawl_onion].
    assert (H0 : let cw := if Connection.is_none (session c)
                           then start_tor_session c w else (c, w) in
                 link_db (fst cw) = link_db c
                 /\ parallel_enabled (fst cw) = parallel_enabled c).
    { destruct (Connection.is_none (session c)); [|split; reflexivity].
      destruct (start_tor_session_frame c w) as (F1 & F2 & _). split; assumption. }
    destruct (if Connection.is_none (session c) then start_tor_session c w else (c, w))
      as [c0 w0].
    cbn [fst] in H0. destruct H0 as [Hdb Hpar].
    set (f0 := {| crawled_data := new_crawled_data u; self := c0; world := w0 |}).
    assert (Hf0 : crawl_invariant store_in_db (link_db c) (parallel_enabled c)
                    (crawled_data f0) (self f0)).
    { split; [constructor|]. split; [exact Hpar|]. intros _ _. exact Hdb. }
    match goal with
    | |- context [bind (fetch_and_store urljoin cfg u store_in_db) (fun _ => ?rec) f0] =>
        set (recurse := rec);
        assert (Hrec : preserves (crawl_invariant store_in_db (link_db c)
                                    (parallel_enabled c)) recurse)
    end.
    { unfold recurse. apply preserves_bind; [apply preserves_read_data|intros d].
      intros f Hf.
      destruct (parallel_enabled (self f)
                && (1 <? length (firstn (LINK_LIMIT_PER_PAGE cfg) (cr_links d)))%nat
                && (1 <? S depth)%nat) eqn:Ebranch.
      - (* the pool crawls the sub-pages, always storing *)
        apply andb_true_iff in Ebranch. destruct Ebranch as [Ebranch _].
        apply andb_true_iff in Ebranch. destruct Ebranch as [Epar _].
        assert (Htask : forall (u1 : string) (c1 : EnhancedTorCrawler) (w1 : World),
                   parallel_enabled c1 = true ->
                   let o := on_worker_thread
                              (crawl_onion urljoin netloc path cfg u1 depth true) c1 w1 in
                   links_onion (Pool.entry_of u1 (fst (fst o)))
                   /\ parallel_enabled (snd (fst o)) = true).
        { intros u1 c1 w1 Hc1. unfold on_worker_thread.
          destruct (IH u1 true
                      (set_link_db (Database.on_thread false (link_db c1)) c1) w1)
            as (K1 & K2 & _).
          destruct (crawl_onion urljoin netloc path cfg u1 depth true
                      (set_link_db (Database.on_thread false (link_db c1)) c1) w1)
            as [[r c2] w2].
          cbn [fst snd Pool.entry_of parallel_enabled set_link_db] in *.
          split; [exact K1|congruence]. }
        pose proof (crawl_batch_invariant
                      (fun link => on_worker_thread
                                     (crawl_onion urljoin netloc path cfg link depth true))
                      (fun c1 => parallel_enabled c1 = true) links_onion
                      ltac:(intros; constructor) Htask
                      ltac:(intros p c1 Hc1; exact Hc1)
                      (firstn (LINK_LIMIT_PER_PAGE cfg) (cr_links d)) (self f) (world f)
                      Epar) as Hpool.
        cbv zeta in Hpool.
        destruct (Pool.crawl_batch netloc path EnhancedTorCrawler crawler_pool
                    set_crawler_pool
                    (fun link => on_worker_thread
                                   (crawl_onion urljoin netloc path cfg link depth true))
                    (firstn (LINK_LIMIT_PER_PAGE cfg) (cr_links d)) (self f) (world f))
          as [[sub_results c1] w1].
        cbn [fst snd crawled_data self] in *. destruct Hpool as [Hsub Hc1].
        destruct Hf as (H1 & H2 & H3).
        apply fold_merge_links; [exact Hsub|].
        split; [exact H1|]. split; [congruence|].
        intros _ Hp. congruence.
      - (* the sub-pages are crawled one after the other *)
        cbn [snd]. clear Ebranch.
        generalize (firstn (LINK_LIMIT_PER_PAGE cfg) (cr_links d)). intros links.
        revert f Hf. induction links as [|link links IHl]; intros f Hf; cbn [fold_left];
          [exact Hf|].
        apply IHl.
        destruct Hf as (H1 & H2 & H3).
        pose proof (IH link store_in_db (self f)
                      (randomize_delay (CRAWL_DELAY_MIN cfg) (CRAWL_DELAY_MAX cfg)
                         (world f))) as Hsub.
        cbv zeta in Hsub.
        destruct (crawl_onion urljoin netloc path cfg link depth store_in_db (self f)
                    (randomize_delay (CRAWL_DELAY_MIN cfg) (CRAWL_DELAY_MAX cfg)
                       (world f))) as [[sub_data c2] w2].
        cbn [fst snd crawled_data self] in *. destruct Hsub as (K1 & K2 & K3).
        apply invariant_merge_subpage; [exact K1|].
        split; [exact H1|]. split; [congruence|].
        intros Hs Hp. rewrite K3; [auto|exact Hs|congruence]. }
    pose proof (preserves_bind _ _ (fun _ : unit => recurse)
                  (invariant_fetch_and_store store_in_db (link_db c)
                     (parallel_enabled c) u)
                  (fun _ => Hrec) f0 Hf0) as Hp.
    destruct (bind (fetch_and_store urljoin cfg u store_in_db) (fun _ : unit => recurse) f0)
      as [[[]|e] f]; cbn [fst snd] in *; [exact Hp|].
    apply invariant_on_crawl_error. exact Hp.
Qed.

(** X24. Every link in the result of [crawl_onion] is an onion address,
    at every depth and whether the pages are stored or not: links of the
    page and links merged in from its sub-pages alike contain [.onion]. *)
Theorem crawl_onion_links_onion (u : string) (max_depth : nat) (store_in_db : bool)
    (c : EnhancedTorCrawler) (w : World) :
  links_onion (fst (fst (crawl_onion urljoin netloc path cfg u max_depth store_in_db c w))).
Proof.
  apply (crawl_onion_invariant max_depth u store_in_db c w).
Qed.

(** X25. With [store_in_db=False] and parallel crawling switched off,
    [crawl_onion] leaves the database exactly as it found it, rows and
    history, at every depth and whether the crawl succeeds or fails. *)
Theorem crawl_onion_without_store (u : string) (max_depth : nat)
    (c : EnhancedTorCrawler) (w : World) :
  parallel_enabled c = false ->
  link_db (snd (fst (crawl_onion urljoin netloc path cfg u max_depth false c w)))
  = link_db c.
Proof.
  intros Hp.
  destruct (crawl_onion_invariant max_depth u false c w) as (_ & _ & H).
  apply H; [reflexivity|exact Hp].
Qed.

End Laws.

Lemma batch_crawl_accounts_witness :
  let stats := fst (fst (batch_crawl Urls.urljoin Urls.host_of Urls.path_of defaults
                           15 CrawlerScenario.crawler
                           (Scenario.world_with Scenario.dead_net))) in
  (successful stats + failed stats = total stats)%nat
  /\ total stats
     = length (batch_selection defaults 15 CrawlerScenario.crawler
                 (Scenario.world_with Scenario.dead_net)).
Proof.
  apply (batch_crawl_accounts Urls.urljoin Urls.host_of Urls.path_of defaults 15
           CrawlerScenario.crawler (Scenario.world_with Scenario.dead_net)).
  split; cbn; repeat constructor; cbn; intuition discriminate.
Defined.

Lemma crawl_onion_without_store_witness :
  link_db (snd (fst (crawl_onion Urls.urljoin Urls.host_of Urls.path_of defaults
                       "http://shop.onion/" 1 false CrawlerScenario.crawler
                       (Scenario.world_with Scenario.live_net))))
  = link_db CrawlerScenario.crawler.
Proof.
  apply (crawl_onion_without_store Urls.urljoin Urls.host_of Urls.path_of defaults
           "http://shop.onion/" 1 CrawlerScenario.crawler
           (Scenario.world_with Scenario.live_net)).
  reflexivity.
Defined.

End CrawlerLaws.
